(** * Per-cell HARQ process manager: model and verification

    Shallow embedding of [lib/scheduler/ue_scheduling/cell_harq_manager.cpp].

    Conventions of the embedding.
    - [std::vector] is a [list]; [back()] is the last element,
      [push_back x] appends [x], [pop_back()] drops the last element.
    - [unsigned] counters and slot counts are [nat]: the code never subtracts
      from them except the guarded [pucch_ack_to_receive--].
    - A function returns [option]: [None] stands for a failed
      [srsran_assert] / [srsran_sanity_check] or for an access outside the
      bounds of a vector (undefined behaviour in C++).
    - The intrusive lists of the timeout wheel and of the pending
      retransmissions hold pool indices ([harq_ref_idx]) instead of pointers
      into [harqs].
    - [timeout_notifier] is the list of [on_harq_timeout] calls made so far,
      oldest first. Calls to the logger are dropped. *)

From Stdlib Require Import QArith.
From stdpp Require Import base option list numbers.

Local Open Scope nat_scope.

Module harq_utils.

(** [harq_utils::harq_state_t] *)
Inductive harq_state_t := empty | pending_retx | waiting_ack.

#[global] Instance harq_state_t_eq_dec : EqDecision harq_state_t.
Proof. solve_decision. Defined.

(** [mac_harq_ack_report_status] *)
Inductive mac_harq_ack_report_status := nack | ack | dtx.

#[global] Instance mac_harq_ack_report_status_eq_dec :
  EqDecision mac_harq_ack_report_status.
Proof. solve_decision. Defined.

(** Modelled from the spec: the class [slot_point] is missing from the
    sources; a slot is its count ([to_uint()]), and [slot + n] advances the
    count by [n] ("deadline slot = slot_ack + max_wait_slots"). *)
Definition slot_point := nat.

(** The signal quality [std::optional<float>] of a report. Only the order of
    two qualities is ever used; a finite float is a rational number. *)
Definition snr_t := Q.

Definition snr_lt (a b : snr_t) : bool := negb (Qle_bool b a).

(** [harq_process_impl] together with the fields that
    [dl_harq_process_impl] adds ([harq_bit_idx], [pucch_ack_to_receive],
    [chosen_ack], [last_pucch_snr]); the uplink repository leaves those four
    untouched. [prev_tx_tbs_bytes] is [prev_tx_params.tbs_bytes]. *)
Record harq_process := {
  ue_idx : nat;
  h_id : nat;
  status : harq_state_t;
  slot_tx : slot_point;
  slot_ack : slot_point;
  slot_ack_timeout : slot_point;
  nof_retxs : nat;
  max_nof_harq_retxs : nat;
  ndi : bool;
  ack_on_timeout : bool;
  retxs_cancelled : bool;
  prev_tx_tbs_bytes : nat;
  harq_bit_idx : nat;
  pucch_ack_to_receive : nat;
  chosen_ack : mac_harq_ack_report_status;
  last_pucch_snr : option snr_t
}.

(** Modelled from the spec: the default member initialisers of the record
    are in the missing header; a record that [harqs.resize] creates is
    [empty] (it sits on the free list), with its counts and flags zeroed. *)
Definition harq_process_default : harq_process := {|
  ue_idx := 0; h_id := 0; status := empty;
  slot_tx := 0; slot_ack := 0; slot_ack_timeout := 0;
  nof_retxs := 0; max_nof_harq_retxs := 0;
  ndi := false; ack_on_timeout := false; retxs_cancelled := false;
  prev_tx_tbs_bytes := 0; harq_bit_idx := 0; pucch_ack_to_receive := 0;
  chosen_ack := dtx; last_pucch_snr := None |}.

Definition set_status (s : harq_state_t) (h : harq_process) : harq_process := {|
  ue_idx := ue_idx h; h_id := h_id h; status := s;
  slot_tx := slot_tx h; slot_ack := slot_ack h;
  slot_ack_timeout := slot_ack_timeout h;
  nof_retxs := nof_retxs h; max_nof_harq_retxs := max_nof_harq_retxs h;
  ndi := ndi h; ack_on_timeout := ack_on_timeout h;
  retxs_cancelled := retxs_cancelled h;
  prev_tx_tbs_bytes := prev_tx_tbs_bytes h; harq_bit_idx := harq_bit_idx h;
  pucch_ack_to_receive := pucch_ack_to_receive h;
  chosen_ack := chosen_ack h; last_pucch_snr := last_pucch_snr h |}.

(** [ue_harq_entity_impl]: [ue_harqs] is the member [harqs], where [None] is
    [INVALID_HARQ_REF_INDEX]. *)
Record ue_harq_entity_impl := {
  free_harq_ids : list nat;
  ue_harqs : list (option nat)
}.

(** [cell_harq_repository<IsDl>] *)
Record cell_harq_repository := {
  IsDl : bool;
  max_ack_wait_in_slots : nat;
  harqs : list harq_process;
  free_harqs : list nat;
  ues : list ue_harq_entity_impl;
  harq_timeout_wheel : list (list nat);
  harq_pending_retx_list : list nat;
  timeout_notifier : list (nat * bool * bool)
}.

Definition set_harqs (hs : list harq_process) (r : cell_harq_repository) := {|
  IsDl := IsDl r; max_ack_wait_in_slots := max_ack_wait_in_slots r;
  harqs := hs; free_harqs := free_harqs r; ues := ues r;
  harq_timeout_wheel := harq_timeout_wheel r;
  harq_pending_retx_list := harq_pending_retx_list r;
  timeout_notifier := timeout_notifier r |}.

Definition set_free_harqs (f : list nat) (r : cell_harq_repository) := {|
  IsDl := IsDl r; max_ack_wait_in_slots := max_ack_wait_in_slots r;
  harqs := harqs r; free_harqs := f; ues := ues r;
  harq_timeout_wheel := harq_timeout_wheel r;
  harq_pending_retx_list := harq_pending_retx_list r;
  timeout_notifier := timeout_notifier r |}.

Definition set_ues (us : list ue_harq_entity_impl) (r : cell_harq_repository) := {|
  IsDl := IsDl r; max_ack_wait_in_slots := max_ack_wait_in_slots r;
  harqs := harqs r; free_harqs := free_harqs r; ues := us;
  harq_timeout_wheel := harq_timeout_wheel r;
  harq_pending_retx_list := harq_pending_retx_list r;
  timeout_notifier := timeout_notifier r |}.

Definition set_harq_timeout_wheel (w : list (list nat)) (r : cell_harq_repository) := {|
  IsDl := IsDl r; max_ack_wait_in_slots := max_ack_wait_in_slots r;
  harqs := harqs r; free_harqs := free_harqs r; ues := ues r;
  harq_timeout_wheel := w;
  harq_pending_retx_list := harq_pending_retx_list r;
  timeout_notifier := timeout_notifier r |}.

Definition set_harq_pending_retx_list (p : list nat) (r : cell_harq_repository) := {|
  IsDl := IsDl r; max_ack_wait_in_slots := max_ack_wait_in_slots r;
  harqs := harqs r; free_harqs := free_harqs r; ues := ues r;
  harq_timeout_wheel := harq_timeout_wheel r;
  harq_pending_retx_list := p;
  timeout_notifier := timeout_notifier r |}.

(** [timeout_notifier.on_harq_timeout(ue_idx, is_dl, ack)] *)
Definition on_harq_timeout (ue : nat) (is_dl ack_flag : bool)
    (r : cell_harq_repository) := {|
  IsDl := IsDl r; max_ack_wait_in_slots := max_ack_wait_in_slots r;
  harqs := harqs r; free_harqs := free_harqs r; ues := ues r;
  harq_timeout_wheel := harq_timeout_wheel r;
  harq_pending_retx_list := harq_pending_retx_list r;
  timeout_notifier := timeout_notifier r ++ [(ue, is_dl, ack_flag)] |}.

(** Modelled from the spec: the intrusive list type is missing from the
    sources. A list holds each record at most once; [push_front] puts
    a record at the head, [pop] unlinks the given record, and a traversal
    started on a list reaches every record queued there ("for every record
    queued there, invokes the timeout handler then deallocates it"). *)
Definition push_front (i : nat) (l : list nat) : list nat := i :: l.

Definition pop (i : nat) (l : list nat) : list nat := filter (λ j, j ≠ i) l.

(** [harq_timeout_wheel[slot.to_uint() % harq_timeout_wheel.size()]] updated
    by [f]. *)
Definition wheel_at (f : list nat → list nat) (slot : slot_point)
    (w : list (list nat)) : list (list nat) :=
  alter f (slot mod length w) w.

(** Runs [f] on every element of [l] in turn, threading the repository. *)
Fixpoint for_each {S A : Type} (f : S → A → option S) (l : list A) (s : S)
    : option S :=
  match l with
  | [] => Some s
  | x :: l' => s' ← f s x; for_each f l' s'
  end.

Definition RING_SIZE : nat := 40.

Section constructor.
Variable MAX_NOF_HARQS : nat.

(** The constructor [cell_harq_repository(max_ues, max_ack_wait_timeout, ...)] *)
Definition cell_harq_repository_init (is_dl : bool)
    (max_ues max_ack_wait_timeout : nat) : cell_harq_repository := {|
  IsDl := is_dl;
  max_ack_wait_in_slots := max_ack_wait_timeout;
  harqs := replicate (MAX_NOF_HARQS * max_ues) harq_process_default;
  free_harqs := reverse (seq 0 (MAX_NOF_HARQS * max_ues));
  ues := replicate max_ues
           {| free_harq_ids := []; ue_harqs := replicate MAX_NOF_HARQS None |};
  harq_timeout_wheel := replicate RING_SIZE [];
  harq_pending_retx_list := [];
  timeout_notifier := [] |}.

End constructor.

(** [cell_harq_repository::dealloc_harq]; the record is [harqs[i]]. *)
Definition dealloc_harq (r : cell_harq_repository) (i : nat)
    : option cell_harq_repository :=
  h ← harqs r !! i;
  if decide (status h = empty) then Some r
  else
    ue_harq_entity ← ues r !! ue_idx h;
    if decide (h_id h < length (ue_harqs ue_harq_entity)) then
      let ue' := {| free_harq_ids := free_harq_ids ue_harq_entity ++ [h_id h];
                    ue_harqs := <[h_id h := None]> (ue_harqs ue_harq_entity) |} in
      let r1 := set_ues (<[ue_idx h := ue']> (ues r)) r in
      let r2 := set_free_harqs (free_harqs r1 ++ [i]) r1 in
      let r3 :=
        if decide (status h = waiting_ack)
        then set_harq_timeout_wheel
               (wheel_at (pop i) (slot_ack_timeout h) (harq_timeout_wheel r2)) r2
        else set_harq_pending_retx_list (pop i (harq_pending_retx_list r2)) r2 in
      Some (set_harqs (<[i := set_status empty h]> (harqs r3)) r3)
    else None.

(** [cell_harq_repository::handle_harq_ack_timeout] *)
Definition handle_harq_ack_timeout (r : cell_harq_repository) (i : nat)
    : option cell_harq_repository :=
  h ← harqs r !! i;
  if decide (status h = waiting_ack) then
    let r1 := if decide (max_ack_wait_in_slots r ≠ 1)
              then on_harq_timeout (ue_idx h) (IsDl r) (ack_on_timeout h) r
              else r in
    dealloc_harq r1 i
  else None.

(** [cell_harq_repository::slot_indication] *)
Definition slot_indication (r : cell_harq_repository) (sl_tx : slot_point)
    : option cell_harq_repository :=
  harqs_timing_out ←
    harq_timeout_wheel r !! (sl_tx mod length (harq_timeout_wheel r));
  for_each handle_harq_ack_timeout harqs_timing_out r.

(** The assignments of [alloc_harq] to the record it hands out ("Set
    allocated HARQ common params" and the deadline). *)
Definition set_alloc_params (ue hid : nat) (sl_tx sl_ack timeout : slot_point)
    (max_retxs : nat) (h : harq_process) : harq_process := {|
  ue_idx := ue; h_id := hid; status := waiting_ack;
  slot_tx := sl_tx; slot_ack := sl_ack; slot_ack_timeout := timeout;
  nof_retxs := 0; max_nof_harq_retxs := max_retxs;
  ndi := negb (ndi h); ack_on_timeout := false;
  retxs_cancelled := false;
  prev_tx_tbs_bytes := prev_tx_tbs_bytes h;
  harq_bit_idx := harq_bit_idx h;
  pucch_ack_to_receive := pucch_ack_to_receive h;
  chosen_ack := chosen_ack h; last_pucch_snr := last_pucch_snr h |}.

(** [cell_harq_repository::alloc_harq]; the result is the pool index of the
    record ([nullptr] is [None]) and the new repository. *)
Definition alloc_harq (r : cell_harq_repository)
    (ue : nat) (sl_tx sl_ack : slot_point) (max_retxs : nat)
    : option (option nat * cell_harq_repository) :=
  ue_harq_entity ← ues r !! ue;
  match list.last (free_harqs r), list.last (free_harq_ids ue_harq_entity) with
  | Some harq_ref_idx, Some hid =>
      if decide (hid < length (ue_harqs ue_harq_entity)) then
        h ← harqs r !! harq_ref_idx;
        let ue' := {| free_harq_ids := removelast (free_harq_ids ue_harq_entity);
                      ue_harqs := <[hid := Some harq_ref_idx]>
                                    (ue_harqs ue_harq_entity) |} in
        let timeout := sl_ack + max_ack_wait_in_slots r in
        Some (Some harq_ref_idx, {|
          IsDl := IsDl r; max_ack_wait_in_slots := max_ack_wait_in_slots r;
          harqs := <[harq_ref_idx :=
                       set_alloc_params ue hid sl_tx sl_ack timeout max_retxs h]>
                     (harqs r);
          free_harqs := removelast (free_harqs r);
          ues := <[ue := ue']> (ues r);
          harq_timeout_wheel :=
            wheel_at (push_front harq_ref_idx) timeout (harq_timeout_wheel r);
          harq_pending_retx_list := harq_pending_retx_list r;
          timeout_notifier := timeout_notifier r |})
      else None
  | _, _ => Some (None, r)
  end.

(** [cell_harq_repository::set_pending_retx] *)
Definition set_pending_retx (r : cell_harq_repository) (i : nat)
    : option cell_harq_repository :=
  h ← harqs r !! i;
  match status h with
  | empty => None
  | pending_retx => Some r
  | waiting_ack =>
      let r1 := set_harq_timeout_wheel
                  (wheel_at (pop i) (slot_ack_timeout h) (harq_timeout_wheel r)) r in
      let r2 := set_harq_pending_retx_list
                  (push_front i (harq_pending_retx_list r1)) r1 in
      Some (set_harqs (<[i := set_status pending_retx h]> (harqs r2)) r2)
  end.

(** [cell_harq_repository::handle_ack] *)
Definition handle_ack (r : cell_harq_repository) (i : nat) (ack_flag : bool)
    : option cell_harq_repository :=
  h ← harqs r !! i;
  if ack_flag || bool_decide (max_nof_harq_retxs h ≤ nof_retxs h)
  then dealloc_harq r i
  else set_pending_retx r i.

(** [cell_harq_repository::reserve_ue_harqs] *)
Definition reserve_ue_harqs (r : cell_harq_repository) (ue nof_harqs : nat)
    : option cell_harq_repository :=
  e ← ues r !! ue;
  Some (set_ues (<[ue := {| free_harq_ids := reverse (seq 0 nof_harqs);
                            ue_harqs := ue_harqs e |}]> (ues r)) r).

(** One turn of the loop of [destroy_ue_harqs]: position [k] of
    [ues[ue].harqs], read when the loop reaches it. *)
Definition destroy_ue_harqs_step (ue : nat) (r : cell_harq_repository) (k : nat)
    : option cell_harq_repository :=
  e ← ues r !! ue;
  h_idx ← ue_harqs e !! k;
  match h_idx with
  | Some i => dealloc_harq r i
  | None => Some r
  end.

(** [cell_harq_repository::destroy_ue_harqs] *)
Definition destroy_ue_harqs (r : cell_harq_repository) (ue : nat)
    : option cell_harq_repository :=
  e ← ues r !! ue;
  r1 ← for_each (destroy_ue_harqs_step ue) (seq 0 (length (ue_harqs e))) r;
  e1 ← ues r1 !! ue;
  Some (set_ues (<[ue := {| free_harq_ids := []; ue_harqs := ue_harqs e1 |}]>
                   (ues r1)) r1).

(** The two assignments of [cancel_retxs]. *)
Definition set_retxs_cancelled (h : harq_process) : harq_process := {|
  ue_idx := ue_idx h; h_id := h_id h; status := status h;
  slot_tx := slot_tx h; slot_ack := slot_ack h;
  slot_ack_timeout := slot_ack_timeout h;
  nof_retxs := nof_retxs h; max_nof_harq_retxs := nof_retxs h;
  ndi := ndi h; ack_on_timeout := ack_on_timeout h;
  retxs_cancelled := true;
  prev_tx_tbs_bytes := prev_tx_tbs_bytes h; harq_bit_idx := harq_bit_idx h;
  pucch_ack_to_receive := pucch_ack_to_receive h;
  chosen_ack := chosen_ack h; last_pucch_snr := last_pucch_snr h |}.

(** [cell_harq_repository::cancel_retxs] *)
Definition cancel_retxs (r : cell_harq_repository) (i : nat)
    : option cell_harq_repository :=
  h ← harqs r !! i;
  if decide (status h = empty) then Some r
  else Some (set_harqs (<[i := set_retxs_cancelled h]> (harqs r)) r).

End harq_utils.

Import harq_utils.

(** [dl_harq_process_impl::status_update] *)
Inductive status_update := acked | nacked | no_update | error.

(** [cell_harq_manager]: the two repositories and the last slot indicated;
    [last_sl_tx] is [None] while the default-constructed [slot_point] has not
    been overwritten by a slot indication. *)
Record cell_harq_manager := {
  last_sl_tx : option slot_point;
  dl : cell_harq_repository;
  ul : cell_harq_repository
}.

Definition set_dl (r : cell_harq_repository) (m : cell_harq_manager) :=
  {| last_sl_tx := last_sl_tx m; dl := r; ul := ul m |}.

Definition set_ul (r : cell_harq_repository) (m : cell_harq_manager) :=
  {| last_sl_tx := last_sl_tx m; dl := dl m; ul := r |}.

(** The condition under which [dl_ack_info] takes a report as the chosen
    one. *)
Definition adopts (h : harq_process) (ack_value : mac_harq_ack_report_status)
    (pucch_snr : option snr_t) : bool :=
  bool_decide (ack_value ≠ dtx) &&
  match last_pucch_snr h with
  | None => true
  | Some last =>
      match pucch_snr with
      | Some s => snr_lt last s
      | None => false
      end
  end.

Definition set_chosen (ack_value : mac_harq_ack_report_status)
    (pucch_snr : option snr_t) (h : harq_process) : harq_process := {|
  ue_idx := ue_idx h; h_id := h_id h; status := status h;
  slot_tx := slot_tx h; slot_ack := slot_ack h;
  slot_ack_timeout := slot_ack_timeout h;
  nof_retxs := nof_retxs h; max_nof_harq_retxs := max_nof_harq_retxs h;
  ndi := ndi h; ack_on_timeout := ack_on_timeout h;
  retxs_cancelled := retxs_cancelled h;
  prev_tx_tbs_bytes := prev_tx_tbs_bytes h; harq_bit_idx := harq_bit_idx h;
  pucch_ack_to_receive := pucch_ack_to_receive h;
  chosen_ack := ack_value; last_pucch_snr := pucch_snr |}.

(** The three assignments of the branch of [dl_ack_info] for a report that is
    not the last one: the counter, [ack_on_timeout] and the new deadline. *)
Definition await_next_pucch (timeout : slot_point) (h : harq_process)
    : harq_process := {|
  ue_idx := ue_idx h; h_id := h_id h; status := status h;
  slot_tx := slot_tx h; slot_ack := slot_ack h;
  slot_ack_timeout := timeout;
  nof_retxs := nof_retxs h; max_nof_harq_retxs := max_nof_harq_retxs h;
  ndi := ndi h; ack_on_timeout := bool_decide (chosen_ack h = ack);
  retxs_cancelled := retxs_cancelled h;
  prev_tx_tbs_bytes := prev_tx_tbs_bytes h; harq_bit_idx := harq_bit_idx h;
  pucch_ack_to_receive := pucch_ack_to_receive h - 1;
  chosen_ack := chosen_ack h; last_pucch_snr := last_pucch_snr h |}.

(** The fields that [new_dl_tx] seeds after the allocation. *)
Definition seed_dl_params (bit_idx : nat) (h : harq_process) : harq_process := {|
  ue_idx := ue_idx h; h_id := h_id h; status := status h;
  slot_tx := slot_tx h; slot_ack := slot_ack h;
  slot_ack_timeout := slot_ack_timeout h;
  nof_retxs := nof_retxs h; max_nof_harq_retxs := max_nof_harq_retxs h;
  ndi := ndi h; ack_on_timeout := ack_on_timeout h;
  retxs_cancelled := retxs_cancelled h;
  prev_tx_tbs_bytes := 0; harq_bit_idx := bit_idx;
  pucch_ack_to_receive := 0;
  chosen_ack := dtx; last_pucch_snr := None |}.

(** The field that [new_ul_tx] seeds after the allocation. *)
Definition seed_ul_params (h : harq_process) : harq_process := {|
  ue_idx := ue_idx h; h_id := h_id h; status := status h;
  slot_tx := slot_tx h; slot_ack := slot_ack h;
  slot_ack_timeout := slot_ack_timeout h;
  nof_retxs := nof_retxs h; max_nof_harq_retxs := max_nof_harq_retxs h;
  ndi := ndi h; ack_on_timeout := ack_on_timeout h;
  retxs_cancelled := retxs_cancelled h;
  prev_tx_tbs_bytes := 0; harq_bit_idx := harq_bit_idx h;
  pucch_ack_to_receive := pucch_ack_to_receive h;
  chosen_ack := chosen_ack h; last_pucch_snr := last_pucch_snr h |}.

Section manager.
(** Constants of [cell_harq_manager.h], which is missing from the sources;
    they are parameters here. *)
Variable MAX_NOF_HARQS : nat.
Variable SHORT_ACK_TIMEOUT_DTX : nat.

(** The constructor [cell_harq_manager(max_ues, notifier, max_ack_wait_timeout)] *)
Definition cell_harq_manager_init (max_ues max_ack_wait_timeout : nat)
    : cell_harq_manager := {|
  last_sl_tx := None;
  dl := cell_harq_repository_init MAX_NOF_HARQS true max_ues max_ack_wait_timeout;
  ul := cell_harq_repository_init MAX_NOF_HARQS false max_ues max_ack_wait_timeout |}.

(** [cell_harq_manager::slot_indication] *)
Definition slot_indication (m : cell_harq_manager) (sl_tx : slot_point)
    : option cell_harq_manager :=
  dl' ← harq_utils.slot_indication (dl m) sl_tx;
  ul' ← harq_utils.slot_indication (ul m) sl_tx;
  Some {| last_sl_tx := Some sl_tx; dl := dl'; ul := ul' |}.

(** [cell_harq_manager::contains] *)
Definition contains (m : cell_harq_manager) (ue : nat) : option bool :=
  e ← ues (dl m) !! ue;
  Some (bool_decide (length (free_harq_ids e) ≠ 0)).

(** [cell_harq_manager::add_ue]; the handle it returns is the pair of the
    manager and [ue], of which the model keeps the manager. *)
Definition add_ue (m : cell_harq_manager)
    (ue crnti nof_dl_harq_procs nof_ul_harq_procs : nat)
    : option cell_harq_manager :=
  if decide (0 < nof_dl_harq_procs) then
    if decide (0 < nof_ul_harq_procs) then
      c ← contains m ue;
      if (c : bool) then None
      else
        dl' ← reserve_ue_harqs (dl m) ue nof_dl_harq_procs;
        ul' ← reserve_ue_harqs (ul m) ue nof_ul_harq_procs;
        Some {| last_sl_tx := last_sl_tx m; dl := dl'; ul := ul' |}
    else None
  else None.

(** [cell_harq_manager::destroy_ue] *)
Definition destroy_ue (m : cell_harq_manager) (ue : nat)
    : option cell_harq_manager :=
  dl' ← destroy_ue_harqs (dl m) ue;
  ul' ← destroy_ue_harqs (ul m) ue;
  Some {| last_sl_tx := last_sl_tx m; dl := dl'; ul := ul' |}.

(** [cell_harq_manager::new_dl_tx] *)
Definition new_dl_tx (m : cell_harq_manager)
    (ue pdsch_slot k1 max_harq_nof_retxs bit_idx : nat)
    : option (option nat * cell_harq_manager) :=
  '(res, dl') ← alloc_harq (dl m) ue pdsch_slot (pdsch_slot + k1) max_harq_nof_retxs;
  match res with
  | None => Some (None, m)
  | Some i =>
      h ← harqs dl' !! i;
      Some (Some i, set_dl (set_harqs (<[i := seed_dl_params bit_idx h]> (harqs dl')) dl') m)
  end.

(** [cell_harq_manager::new_ul_tx] *)
Definition new_ul_tx (m : cell_harq_manager)
    (ue pusch_slot max_harq_nof_retxs : nat)
    : option (option nat * cell_harq_manager) :=
  '(res, ul') ← alloc_harq (ul m) ue pusch_slot pusch_slot max_harq_nof_retxs;
  match res with
  | None => Some (None, m)
  | Some i =>
      h ← harqs ul' !! i;
      Some (Some i, set_ul (set_harqs (<[i := seed_ul_params h]> (harqs ul')) ul') m)
  end.

(** [cell_harq_manager::dl_ack_info]; the record is [dl.harqs[i]], as
    [dl_harq_process_view::dl_ack_info] passes it. *)
Definition dl_ack_info (m : cell_harq_manager) (i : nat)
    (ack_value : mac_harq_ack_report_status) (pucch_snr : option snr_t)
    : option (status_update * cell_harq_manager) :=
  h ← harqs (dl m) !! i;
  if decide (status h ≠ waiting_ack) then Some (error, m)
  else
    let h1 := if adopts h ack_value pucch_snr
              then set_chosen ack_value pucch_snr h else h in
    let dl1 := set_harqs (<[i := h1]> (harqs (dl m))) (dl m) in
    if decide (pucch_ack_to_receive h1 ≤ 1) then
      let final_ack := bool_decide (chosen_ack h1 = ack) in
      dl2 ← handle_ack dl1 i final_ack;
      Some (if final_ack then acked else nacked, set_dl dl2 m)
    else
      cur ← last_sl_tx m;
      let timeout := cur + SHORT_ACK_TIMEOUT_DTX in
      let w1 := wheel_at (pop i) (slot_ack_timeout h1) (harq_timeout_wheel dl1) in
      let w2 := wheel_at (push_front i) timeout w1 in
      Some (no_update,
            set_dl (set_harq_timeout_wheel w2
                      (set_harqs (<[i := await_next_pucch timeout h1]> (harqs dl1))
                         dl1)) m).

(** The conversion [(int)] of an unsigned value: the value modulo [2^32],
    read as a 32-bit number in two's complement. *)
Definition to_int (n : nat) : Z :=
  let z := (Z.of_nat n mod 2 ^ 32)%Z in
  if (z <? 2 ^ 31)%Z then z else (z - 2 ^ 32)%Z.

(** [cell_harq_manager::ul_crc_info]; the record is [ul.harqs[i]]. *)
Definition ul_crc_info (m : cell_harq_manager) (i : nat) (ack_flag : bool)
    : option (Z * cell_harq_manager) :=
  h ← harqs (ul m) !! i;
  if decide (status h ≠ waiting_ack) then Some ((-1)%Z, m)
  else
    ul' ← handle_ack (ul m) i ack_flag;
    h' ← harqs ul' !! i;
    Some (if ack_flag then to_int (prev_tx_tbs_bytes h') else 0%Z, set_ul ul' m).

(** [unique_ue_harq_entity::alloc_dl_harq] of the handle of terminal
    [ue_index]: the view it returns is the pool index. *)
Definition alloc_dl_harq (m : cell_harq_manager)
    (ue_index sl_tx k1 max_harq_nof_retxs bit_idx : nat)
    : option (option nat * cell_harq_manager) :=
  new_dl_tx m ue_index sl_tx k1 max_harq_nof_retxs bit_idx.

(** [unique_ue_harq_entity::alloc_ul_harq] *)
Definition alloc_ul_harq (m : cell_harq_manager)
    (ue_index sl_tx max_harq_nof_retxs : nat)
    : option (option nat * cell_harq_manager) :=
  new_ul_tx m ue_index sl_tx max_harq_nof_retxs.

(** ** Sequences of calls

    A call either goes to one of the two repositories (the flag tells which:
    [true] for [dl]) or to the manager. *)
Inductive op :=
  | op_reserve_ue_harqs (is_dl : bool) (ue nof_harqs : nat)
  | op_alloc_harq (is_dl : bool) (ue sl_tx sl_ack max_retxs : nat)
  | op_handle_ack (is_dl : bool) (i : nat) (ack_flag : bool)
  | op_dealloc_harq (is_dl : bool) (i : nat)
  | op_destroy_ue_harqs (is_dl : bool) (ue : nat)
  | op_repo_slot_indication (is_dl : bool) (sl_tx : slot_point)
  | op_set_pending_retx (is_dl : bool) (i : nat)
  | op_cancel_retxs (is_dl : bool) (i : nat)
  | op_slot_indication (sl_tx : slot_point)
  | op_add_ue (ue crnti nof_dl_harq_procs nof_ul_harq_procs : nat)
  | op_destroy_ue (ue : nat)
  | op_new_dl_tx (ue pdsch_slot k1 max_harq_nof_retxs bit_idx : nat)
  | op_new_ul_tx (ue pusch_slot max_harq_nof_retxs : nat)
  | op_dl_ack_info (i : nat) (ack_value : mac_harq_ack_report_status)
      (pucch_snr : option snr_t)
  | op_ul_crc_info (i : nat) (ack_flag : bool).

Definition repo_of (is_dl : bool) (m : cell_harq_manager) : cell_harq_repository :=
  if is_dl then dl m else ul m.

Definition set_repo (is_dl : bool) (r : cell_harq_repository)
    (m : cell_harq_manager) : cell_harq_manager :=
  if is_dl then set_dl r m else set_ul r m.

Definition exec (m : cell_harq_manager) (o : op) : option cell_harq_manager :=
  match o with
  | op_reserve_ue_harqs d ue n =>
      r ← reserve_ue_harqs (repo_of d m) ue n; Some (set_repo d r m)
  | op_alloc_harq d ue sl_tx sl_ack max_retxs =>
      '(_, r) ← alloc_harq (repo_of d m) ue sl_tx sl_ack max_retxs;
      Some (set_repo d r m)
  | op_handle_ack d i a =>
      r ← handle_ack (repo_of d m) i a; Some (set_repo d r m)
  | op_dealloc_harq d i =>
      r ← dealloc_harq (repo_of d m) i; Some (set_repo d r m)
  | op_destroy_ue_harqs d ue =>
      r ← destroy_ue_harqs (repo_of d m) ue; Some (set_repo d r m)
  | op_repo_slot_indication d sl_tx =>
      r ← harq_utils.slot_indication (repo_of d m) sl_tx; Some (set_repo d r m)
  | op_set_pending_retx d i =>
      r ← set_pending_retx (repo_of d m) i; Some (set_repo d r m)
  | op_cancel_retxs d i =>
      r ← cancel_retxs (repo_of d m) i; Some (set_repo d r m)
  | op_slot_indication sl_tx => slot_indication m sl_tx
  | op_add_ue ue crnti ndl nul => add_ue m ue crnti ndl nul
  | op_destroy_ue ue => destroy_ue m ue
  | op_new_dl_tx ue pdsch_slot k1 max_retxs bit_idx =>
      snd <$> new_dl_tx m ue pdsch_slot k1 max_retxs bit_idx
  | op_new_ul_tx ue pusch_slot max_retxs =>
      snd <$> new_ul_tx m ue pusch_slot max_retxs
  | op_dl_ack_info i a s => snd <$> dl_ack_info m i a s
  | op_ul_crc_info i a => snd <$> ul_crc_info m i a
  end.

(** The manager after the calls [ops], or [None] when one of them fails an
    assertion or leaves the bounds of a vector. *)
Definition run (ops : list op) (m : cell_harq_manager) : option cell_harq_manager :=
  for_each exec ops m.

End manager.

(** ** Invariants of a repository

    Each invariant relates the pool [harqs] to one of the other members. *)

(** Records that are in use. *)
Definition in_use (h : harq_process) : Prop := status h ≠ empty.

#[global] Instance in_use_dec h : Decision (in_use h).
Proof. unfold in_use. apply _. Defined.

(** Records in use that belong to terminal [u]. *)
Definition owned_by (u : nat) (h : harq_process) : Prop :=
  status h ≠ empty ∧ ue_idx h = u.

#[global] Instance owned_by_dec u h : Decision (owned_by u h).
Proof. unfold owned_by. apply _. Defined.

(** Number of non-empty records of the pool. *)
Definition nof_in_use (r : cell_harq_repository) : nat :=
  length (filter in_use (harqs r)).

(** Number of non-empty records of terminal [u]. *)
Definition nof_owned (r : cell_harq_repository) (u : nat) : nat :=
  length (filter (owned_by u) (harqs r)).

(** The bucket of the timeout wheel a record belongs to, if any. *)
Definition wheel_slot (h : harq_process) : option nat :=
  if decide (status h = waiting_ack)
  then Some (slot_ack_timeout h mod RING_SIZE) else None.

(** The terminal and process id a record is held under, if any. *)
Definition owner_key (h : harq_process) : option (nat * nat) :=
  if decide (status h = empty) then None else Some (ue_idx h, h_id h).

(** The free list holds distinct empty records, and every record is either in
    use or on the free list. *)
Definition pool_ok (hs : list harq_process) (f : list nat) : Prop :=
  NoDup f ∧
  (∀ i, i ∈ f → ∃ h, hs !! i = Some h ∧ status h = empty) ∧
  length f + length (filter in_use hs) = length hs.

(** A record in use names a terminal of [ues] and a process id within the
    bounds of its index. *)
Definition owner_ok (hs : list harq_process) (us : list ue_harq_entity_impl)
    : Prop :=
  ∀ i h, hs !! i = Some h → status h ≠ empty →
    ∃ e, us !! ue_idx h = Some e ∧ h_id h < length (ue_harqs e).

(** Bucket [k] of the wheel holds, once each, the records waiting for an
    acknowledgment whose deadline falls on [k]. *)
Definition wheel_ok (hs : list harq_process) (w : list (list nat)) : Prop :=
  length w = RING_SIZE ∧
  ∀ k b, w !! k = Some b →
    NoDup b ∧ ∀ i, i ∈ b ↔ ∃ h, hs !! i = Some h ∧ wheel_slot h = Some k.

(** The pending list holds, once each, the records pending a
    retransmission. *)
Definition pending_ok (hs : list harq_process) (p : list nat) : Prop :=
  NoDup p ∧ ∀ i, i ∈ p ↔ ∃ h, hs !! i = Some h ∧ status h = pending_retx.

Definition repo_inv (r : cell_harq_repository) : Prop :=
  pool_ok (harqs r) (free_harqs r) ∧
  owner_ok (harqs r) (ues r) ∧
  wheel_ok (harqs r) (harq_timeout_wheel r) ∧
  pending_ok (harqs r) (harq_pending_retx_list r).

(** The index of a terminal and its free process ids, against the budget
    [B u] reserved for terminal [u]. *)
Definition index_ok (hs : list harq_process) (us : list ue_harq_entity_impl)
    (B : nat → nat) : Prop :=
  ∀ u e, us !! u = Some e →
    NoDup (free_harq_ids e) ∧
    (∀ k i, ue_harqs e !! k = Some (Some i) ↔
            ∃ h, hs !! i = Some h ∧ owner_key h = Some (u, k)) ∧
    (∀ k i, k ∈ free_harq_ids e → ue_harqs e !! k ≠ Some (Some i)) ∧
    length (free_harq_ids e) + length (filter (owned_by u) hs) = B u.

Definition ue_inv (r : cell_harq_repository) (B : nat → nat) : Prop :=
  index_ok (harqs r) (ues r) B.

(** Membership of a record in the timeout wheel. *)
Definition in_timeout_wheel (r : cell_harq_repository) (i : nat) : Prop :=
  ∃ b, b ∈ harq_timeout_wheel r ∧ i ∈ b.

(** Membership of a record in the list of pending retransmissions. *)
Definition in_pending_retx_list (r : cell_harq_repository) (i : nat) : Prop :=
  i ∈ harq_pending_retx_list r.

(** The repository that [dealloc_harq] leaves when [harqs[i]] is the record
    [h], in use, of terminal entry [e]. *)
Definition dealloc_result (r : cell_harq_repository) (i : nat)
    (h : harq_process) (e : ue_harq_entity_impl) : cell_harq_repository := {|
  IsDl := IsDl r; max_ack_wait_in_slots := max_ack_wait_in_slots r;
  harqs := <[i := set_status empty h]> (harqs r);
  free_harqs := free_harqs r ++ [i];
  ues := <[ue_idx h := {| free_harq_ids := free_harq_ids e ++ [h_id h];
                          ue_harqs := <[h_id h := None]> (ue_harqs e) |}]> (ues r);
  harq_timeout_wheel :=
    if decide (status h = waiting_ack)
    then wheel_at (pop i) (slot_ack_timeout h) (harq_timeout_wheel r)
    else harq_timeout_wheel r;
  harq_pending_retx_list :=
    if decide (status h = waiting_ack)
    then harq_pending_retx_list r
    else pop i (harq_pending_retx_list r);
  timeout_notifier := timeout_notifier r |}.

(** The repository that [alloc_harq] leaves when it hands out the record
    [harqs[i]], which was [h], under the process id [hid] of terminal entry
    [e]. *)
Definition alloc_result (r : cell_harq_repository) (ue : nat)
    (sl_tx sl_ack : slot_point) (max_retxs i hid : nat) (h : harq_process)
    (e : ue_harq_entity_impl) : cell_harq_repository := {|
  IsDl := IsDl r; max_ack_wait_in_slots := max_ack_wait_in_slots r;
  harqs := <[i := set_alloc_params ue hid sl_tx sl_ack
                    (sl_ack + max_ack_wait_in_slots r) max_retxs h]> (harqs r);
  free_harqs := removelast (free_harqs r);
  ues := <[ue := {| free_harq_ids := removelast (free_harq_ids e);
                    ue_harqs := <[hid := Some i]> (ue_harqs e) |}]> (ues r);
  harq_timeout_wheel :=
    wheel_at (push_front i) (sl_ack + max_ack_wait_in_slots r)
      (harq_timeout_wheel r);
  harq_pending_retx_list := harq_pending_retx_list r;
  timeout_notifier := timeout_notifier r |}.

(** Both repositories of a manager satisfy the invariants. *)
Definition mgr_inv (m : cell_harq_manager) : Prop :=
  repo_inv (dl m) ∧ repo_inv (ul m).

(** ** Budgets

    The budget of a terminal in a direction is the number of process ids of
    its latest reservation ([reserve_ue_harqs], [add_ue]); removing the
    terminal ([destroy_ue_harqs], [destroy_ue]) ends the reservation. *)
Definition set_budget (d : bool) (u n : nat) (B : bool → nat → nat)
    : bool → nat → nat :=
  λ d' u', if decide (d' = d ∧ u' = u) then n else B d' u'.

Definition budget_after (o : op) (B : bool → nat → nat) : bool → nat → nat :=
  match o with
  | op_reserve_ue_harqs d ue n => set_budget d ue n B
  | op_add_ue ue _ ndl nul => set_budget false ue nul (set_budget true ue ndl B)
  | op_destroy_ue_harqs d ue => set_budget d ue 0 B
  | op_destroy_ue ue => set_budget false ue 0 (set_budget true ue 0 B)
  | _ => B
  end.

(** The budgets after the calls [ops], none being reserved at the start. *)
Definition budget (ops : list op) : bool → nat → nat :=
  fold_left (λ B o, budget_after o B) ops (λ _ _, 0).

(** A reservation is fresh when the terminal holds no record in use at that
    time. *)
Definition fresh_reservation (m : cell_harq_manager) (o : op) : bool :=
  match o with
  | op_reserve_ue_harqs d ue _ => bool_decide (nof_owned (repo_of d m) ue = 0)
  | op_add_ue ue _ _ _ =>
      bool_decide (nof_owned (dl m) ue = 0) && bool_decide (nof_owned (ul m) ue = 0)
  | _ => true
  end.

(** Every reservation among the calls [ops], made from [m] on, is fresh. *)
Fixpoint fresh_reservations (SHORT_ACK_TIMEOUT_DTX : nat) (ops : list op)
    (m : cell_harq_manager) : bool :=
  match ops with
  | [] => true
  | o :: ops' =>
      fresh_reservation m o &&
      match exec SHORT_ACK_TIMEOUT_DTX m o with
      | Some m' => fresh_reservations SHORT_ACK_TIMEOUT_DTX ops' m'
      | None => true
      end
  end.

(** The index of both repositories, against the budgets [B]. *)
Definition mgr_ue_inv (m : cell_harq_manager) (B : bool → nat → nat) : Prop :=
  ue_inv (dl m) (B true) ∧ ue_inv (ul m) (B false).

(** Both pools of [m] have [n] records. *)
Definition capacity (m : cell_harq_manager) (n : nat) : Prop :=
  length (harqs (dl m)) = n ∧ length (harqs (ul m)) = n.

(** Every record of the pool satisfies [P]. *)
Definition all_records (P : harq_process → Prop) (r : cell_harq_repository)
    : Prop :=
  Forall P (harqs r).

(** ** Reports of one downlink record *)

(** The number of reports a record expects is raised by the caller through
    the process view, which the header declares; [cell_harq_manager.cpp] only
    resets it, in [new_dl_tx]. [expect_pucch_acks n i m] is the manager [m] in
    which the record [dl.harqs[i]] expects [n] reports. *)
Definition set_pucch_ack_to_receive (n : nat) (h : harq_process)
    : harq_process := {|
  ue_idx := ue_idx h; h_id := h_id h; status := status h;
  slot_tx := slot_tx h; slot_ack := slot_ack h;
  slot_ack_timeout := slot_ack_timeout h;
  nof_retxs := nof_retxs h; max_nof_harq_retxs := max_nof_harq_retxs h;
  ndi := ndi h; ack_on_timeout := ack_on_timeout h;
  retxs_cancelled := retxs_cancelled h;
  prev_tx_tbs_bytes := prev_tx_tbs_bytes h; harq_bit_idx := harq_bit_idx h;
  pucch_ack_to_receive := n;
  chosen_ack := chosen_ack h; last_pucch_snr := last_pucch_snr h |}.

Definition expect_pucch_acks (n i : nat) (m : cell_harq_manager)
    : cell_harq_manager :=
  match harqs (dl m) !! i with
  | Some h =>
      set_dl (set_harqs (<[i := set_pucch_ack_to_receive n h]> (harqs (dl m)))
                (dl m)) m
  | None => m
  end.

(** The [dl_ack_info] calls for the reports [reports], in turn, on the record
    [dl.harqs[i]]; the result lists what each call returned. *)
Fixpoint dl_ack_infos (SHORT_ACK_TIMEOUT_DTX : nat) (m : cell_harq_manager)
    (i : nat) (reports : list (mac_harq_ack_report_status * option snr_t))
    : option (list status_update * cell_harq_manager) :=
  match reports with
  | [] => Some ([], m)
  | (a, s) :: rest =>
      '(u, m1) ← dl_ack_info SHORT_ACK_TIMEOUT_DTX m i a s;
      '(us, m2) ← dl_ack_infos SHORT_ACK_TIMEOUT_DTX m1 i rest;
      Some (u :: us, m2)
  end.

(** The quality of one report ranks strictly below that of another; a
    report that carries no quality ranks below every report that carries
    one. *)
Definition quality_lt (x y : option snr_t) : Prop :=
  match x, y with
  | None, Some _ => True
  | Some p, Some q => (p < q)%Q
  | _, None => False
  end.

(** The quality of one report ranks at most as high as that of another. *)
Definition quality_le (x y : option snr_t) : Prop :=
  match x, y with
  | None, _ => True
  | Some p, Some q => (p <= q)%Q
  | Some _, None => False
  end.

(** In the words of the specification: report [k] is the one of highest
    quality among the reports that are not DTX, the earliest of them when
    several have that quality. *)
Definition best_report
    (reports : list (mac_harq_ack_report_status * option snr_t)) (k : nat)
    : Prop :=
  ∃ a (s : option snr_t), reports !! k = Some (a, s) ∧ a ≠ dtx ∧
    (∀ j a' (s' : option snr_t),
       j < k → reports !! j = Some (a', s') → a' ≠ dtx → quality_lt s' s) ∧
    (∀ j a' (s' : option snr_t),
       k < j → reports !! j = Some (a', s') → a' ≠ dtx → quality_le s' s).

(** At most one of the reports that are not DTX carries no quality. *)
Definition one_without_quality
    (reports : list (mac_harq_ack_report_status * option snr_t)) : Prop :=
  ∀ j k a a', reports !! j = Some (a, None) → reports !! k = Some (a', None) →
              a ≠ dtx → a' ≠ dtx → j = k.

(** The chosen report and its quality after one more report, as
    [dl_ack_info] updates them. *)
Definition merge_report (st rep : mac_harq_ack_report_status * option snr_t)
    : mac_harq_ack_report_status * option snr_t :=
  if bool_decide (rep.1 ≠ dtx) &&
     match st.2 with
     | None => true
     | Some last =>
         match rep.2 with
         | Some s => snr_lt last s
         | None => false
         end
     end
  then rep else st.

(** ** Timeouts *)

(** The [on_harq_timeout] call that [handle_harq_ack_timeout] makes for the
    record [harqs[i]] of [r]. *)
Definition timeout_report (r : cell_harq_repository) (i : nat)
    : list (nat * bool * bool) :=
  match harqs r !! i with
  | Some h => [(ue_idx h, IsDl r, ack_on_timeout h)]
  | None => []
  end.

(** ** Lookups of the handle of a terminal *)

(** The loop shared by [find_ue_harq_in_state], [find_dl_harq] and
    [find_ul_harq]: the first entry of the index of a terminal whose record
    passes [test]; [Some None] is [INVALID_HARQ_REF_INDEX] resp.
    [std::nullopt]. *)
Fixpoint first_harq (r : cell_harq_repository) (test : harq_process → bool)
    (l : list (option nat)) : option (option nat) :=
  match l with
  | [] => Some None
  | None :: l' => first_harq r test l'
  | Some h_ref_idx :: l' =>
      h ← harqs r !! h_ref_idx;
      if test h then Some (Some h_ref_idx) else first_harq r test l'
  end.

(** [cell_harq_repository::find_ue_harq_in_state] *)
Definition find_ue_harq_in_state (r : cell_harq_repository) (ue : nat)
    (state : harq_state_t) : option (option nat) :=
  e ← ues r !! ue;
  first_harq r (λ h, bool_decide (status h = state)) (ue_harqs e).

(** [unique_ue_harq_entity::find_pending_dl_retx]; the view it returns is the
    pool index. *)
Definition find_pending_dl_retx (m : cell_harq_manager) (ue_index : nat)
    : option (option nat) :=
  find_ue_harq_in_state (dl m) ue_index pending_retx.

(** [unique_ue_harq_entity::find_pending_ul_retx] *)
Definition find_pending_ul_retx (m : cell_harq_manager) (ue_index : nat)
    : option (option nat) :=
  find_ue_harq_in_state (ul m) ue_index pending_retx.

(** [unique_ue_harq_entity::find_dl_harq_waiting_ack] *)
Definition find_dl_harq_waiting_ack (m : cell_harq_manager) (ue_index : nat)
    : option (option nat) :=
  find_ue_harq_in_state (dl m) ue_index waiting_ack.

(** [unique_ue_harq_entity::find_ul_harq_waiting_ack] *)
Definition find_ul_harq_waiting_ack (m : cell_harq_manager) (ue_index : nat)
    : option (option nat) :=
  find_ue_harq_in_state (ul m) ue_index waiting_ack.

(** The test of [find_dl_harq]. *)
Definition dl_harq_matches (uci_slot : slot_point) (bit_idx : nat)
    (h : harq_process) : bool :=
  bool_decide (status h = waiting_ack) && bool_decide (slot_ack h = uci_slot) &&
  bool_decide (harq_bit_idx h = bit_idx).

(** The test of [find_ul_harq]. *)
Definition ul_harq_matches (pusch_slot : slot_point) (h : harq_process) : bool :=
  bool_decide (status h = waiting_ack) && bool_decide (slot_tx h = pusch_slot).

(** [unique_ue_harq_entity::find_dl_harq] *)
Definition find_dl_harq (m : cell_harq_manager) (ue_index : nat)
    (uci_slot : slot_point) (bit_idx : nat) : option (option nat) :=
  e ← ues (dl m) !! ue_index;
  first_harq (dl m) (dl_harq_matches uci_slot bit_idx) (ue_harqs e).

(** [unique_ue_harq_entity::find_ul_harq] *)
Definition find_ul_harq (m : cell_harq_manager) (ue_index : nat)
    (pusch_slot : slot_point) : option (option nat) :=
  e ← ues (ul m) !! ue_index;
  first_harq (ul m) (ul_harq_matches pusch_slot) (ue_harqs e).

(** [unique_ue_harq_entity]: [bound] tells whether [cell_harq_mgr] points to
    the manager ([false] is [nullptr]). *)
Record unique_ue_harq_entity := {
  bound : bool;
  ue_index : nat
}.

(** [unique_ue_harq_entity::reset] *)
Definition reset (m : cell_harq_manager) (hd : unique_ue_harq_entity)
    : option (cell_harq_manager * unique_ue_harq_entity) :=
  if bound hd then
    m' ← destroy_ue m (ue_index hd);
    Some (m', {| bound := false; ue_index := ue_index hd |})
  else Some (m, hd).

(** The destructor [unique_ue_harq_entity::~unique_ue_harq_entity] *)
Definition destructor (m : cell_harq_manager) (hd : unique_ue_harq_entity)
    : option cell_harq_manager :=
  if bound hd then destroy_ue m (ue_index hd) else Some m.

(** ** Process ids within the index *)

(** The index of every terminal has [n] places, and its free process ids
    are below [n]. *)
Definition ids_in_range (n : nat) (r : cell_harq_repository) : Prop :=
  ∀ u e, ues r !! u = Some e →
    length (ue_harqs e) = n ∧ Forall (λ k, k < n) (free_harq_ids e).

(** A reservation asks for at most [n] process ids. *)
Definition reservation_in_range (n : nat) (o : op) : bool :=
  match o with
  | op_reserve_ue_harqs _ _ nof_harqs => bool_decide (nof_harqs ≤ n)
  | op_add_ue _ _ nof_dl_harq_procs nof_ul_harq_procs =>
      bool_decide (nof_dl_harq_procs ≤ n) && bool_decide (nof_ul_harq_procs ≤ n)
  | _ => true
  end.

(** ** Successive allocations *)

(** [k] calls of [alloc_harq] for terminal [ue], in turn; the result lists
    what each call returned. *)
Fixpoint alloc_harqs (r : cell_harq_repository) (ue : nat)
    (sl_tx sl_ack : slot_point) (max_retxs k : nat)
    : option (list (option nat) * cell_harq_repository) :=
  match k with
  | 0 => Some ([], r)
  | S k' =>
      '(res, r1) ← alloc_harq r ue sl_tx sl_ack max_retxs;
      '(rs, r2) ← alloc_harqs r1 ue sl_tx sl_ack max_retxs k';
      Some (res :: rs, r2)
  end.

(** ** Calls of the timeout notifier *)

(** The call is a slot indication, to the manager or to one repository. *)
Definition indicates_slot (o : op) : bool :=
  match o with
  | op_slot_indication _ | op_repo_slot_indication _ _ => true
  | _ => false
  end.

(** [r'] has the parameters of [r] and the notifier has not been called in
    between. *)
Definition quiet (r r' : cell_harq_repository) : Prop :=
  max_ack_wait_in_slots r' = max_ack_wait_in_slots r ∧ IsDl r' = IsDl r ∧
  timeout_notifier r' = timeout_notifier r.

(** What a call adds to the calls of the notifier of a repository: nothing,
    unless it is a slot indication on a repository whose
    [max_ack_wait_in_slots] is not 1, and then calls that carry the direction
    of the repository. *)
Definition adds_timeouts (slot : bool) (r r' : cell_harq_repository) : Prop :=
  max_ack_wait_in_slots r' = max_ack_wait_in_slots r ∧ IsDl r' = IsDl r ∧
  ∃ l, timeout_notifier r' = timeout_notifier r ++ l ∧
       (slot = false ∨ max_ack_wait_in_slots r = 1 → l = []) ∧
       ∀ ue is_dl a, (ue, is_dl, a) ∈ l → is_dl = IsDl r.

(** ** Lists *)

Lemma length_filter_insert {A} (P : A → Prop) `{!∀ x, Decision (P x)}
    (l : list A) (i : nat) (x y : A) :
  l !! i = Some y →
  length (filter P (<[i:=x]> l)) + (if decide (P y) then 1 else 0)
  = length (filter P l) + (if decide (P x) then 1 else 0).
Proof.
  revert i. induction l as [|a l IH]; intros [|i] Hi; simplify_eq/=.
  - rewrite !filter_cons. repeat case_decide; simpl; lia.
  - specialize (IH _ Hi). rewrite !filter_cons.
    destruct (decide (P a)); simpl; lia.
Qed.

Lemma length_filter_insert_same {A} (P : A → Prop) `{!∀ x, Decision (P x)}
    (l : list A) (i : nat) (x y : A) :
  l !! i = Some y → (P x ↔ P y) →
  length (filter P (<[i:=x]> l)) = length (filter P l).
Proof.
  intros Hi HP. pose proof (length_filter_insert P l i x y Hi) as E.
  repeat case_decide; tauto || lia.
Qed.

Lemma last_Some_snoc {A} (l : list A) (x : A) :
  list.last l = Some x → l = removelast l ++ [x].
Proof.
  destruct l as [|a l] using rev_ind; [done|].
  rewrite last_snoc. intros [= ->]. by rewrite removelast_last.
Qed.

Lemma elem_of_snoc_l {A} (l : list A) (x y : A) : x ∈ l → x ∈ l ++ [y].
Proof. intros. apply elem_of_app. by left. Qed.

Lemma elem_of_snoc_r {A} (l : list A) (x : A) : x ∈ l ++ [x].
Proof. apply elem_of_app. right. apply list_elem_of_here. Qed.

Lemma elem_of_pop (i j : nat) (l : list nat) : j ∈ pop i l ↔ j ≠ i ∧ j ∈ l.
Proof. unfold pop. by rewrite list_elem_of_filter. Qed.

(** ** The pool and its free list *)

Lemma pool_ok_keep hs f i h h' :
  pool_ok hs f → hs !! i = Some h →
  (status h' = empty ↔ status h = empty) →
  pool_ok (<[i:=h']> hs) f.
Proof.
  intros (Hnd & Hfree & Hlen) Hi Hst. split_and!; [done| |].
  - intros j Hj. destruct (Hfree j Hj) as (x & Hx & Hxe).
    destruct (decide (j = i)) as [->|Hne].
    + exists h'. rewrite list_lookup_insert_eq by (by eapply lookup_lt_Some).
      split; [done|]. apply Hst. by simplify_eq.
    + exists x. by rewrite list_lookup_insert_ne.
  - rewrite length_insert.
    rewrite (length_filter_insert_same in_use hs i h' h); [done..|].
    unfold in_use. tauto.
Qed.

Lemma pool_ok_alloc hs f i h' :
  pool_ok hs f → list.last f = Some i → status h' ≠ empty →
  pool_ok (<[i:=h']> hs) (removelast f).
Proof.
  intros (Hnd & Hfree & Hlen) Hlast Hst.
  apply last_Some_snoc in Hlast. set (f' := removelast f) in *.
  rewrite Hlast in Hnd, Hfree, Hlen. clearbody f'.
  apply list.NoDup_app in Hnd as (Hnd & Hdisj & _).
  destruct (Hfree i) as (h & Hi & He); [apply elem_of_snoc_r|].
  split_and!; [done| |].
  - intros j Hj. destruct (Hfree j) as (x & Hx & Hxe); [by apply elem_of_snoc_l|].
    exists x. split; [|done]. rewrite list_lookup_insert_ne; [done|].
    intros ->. apply (Hdisj j Hj). apply list_elem_of_here.
  - rewrite length_insert. rewrite length_app in Hlen. simpl in Hlen.
    pose proof (length_filter_insert in_use hs i h' h Hi) as E.
    rewrite decide_False in E by (unfold in_use; tauto).
    rewrite decide_True in E by done. lia.
Qed.

Lemma pool_ok_dealloc hs f i h h' :
  pool_ok hs f → hs !! i = Some h → status h ≠ empty → status h' = empty →
  pool_ok (<[i:=h']> hs) (f ++ [i]).
Proof.
  intros (Hnd & Hfree & Hlen) Hi Hst Hst'.
  assert (i ∉ f) as Hnotin.
  { intros Hin. destruct (Hfree i Hin) as (x & Hx & Hxe). by simplify_eq. }
  split_and!.
  - apply list.NoDup_app. split_and!; [done| |apply NoDup_singleton].
    intros j Hj Hj'. apply list_elem_of_singleton in Hj'. by subst.
  - intros j Hj. apply elem_of_app in Hj as [Hj|Hj].
    + destruct (Hfree j Hj) as (x & Hx & Hxe). exists x. split; [|done].
      rewrite list_lookup_insert_ne; [done|]. by intros ->.
    + apply list_elem_of_singleton in Hj as ->. exists h'.
      by rewrite list_lookup_insert_eq by (by eapply lookup_lt_Some).
  - rewrite length_insert, length_app. simpl.
    pose proof (length_filter_insert in_use hs i h' h Hi) as E.
    rewrite decide_True in E by done.
    rewrite decide_False in E by (unfold in_use; tauto). lia.
Qed.

Lemma insert_exists_iff (Q : harq_process → Prop) (hs : list harq_process)
    (i j : nat) (h h' : harq_process) :
  hs !! i = Some h →
  (∃ x, <[i:=h']> hs !! j = Some x ∧ Q x) ↔
  (if decide (j = i) then Q h' else ∃ x, hs !! j = Some x ∧ Q x).
Proof.
  intros Hi. case_decide as Hj.
  - subst j. rewrite list_lookup_insert_eq by (by eapply lookup_lt_Some).
    split; [by intros (x & [= ->] & HQ)|by eauto].
  - by rewrite list_lookup_insert_ne.
Qed.

(** ** The timeout wheel *)

Lemma wheel_ok_keep hs w i h h' :
  wheel_ok hs w → hs !! i = Some h → wheel_slot h' = wheel_slot h →
  wheel_ok (<[i:=h']> hs) w.
Proof.
  intros (Hlen & Hw) Hi Hslot. split; [done|]. intros k b Hb.
  destruct (Hw k b Hb) as (Hnd & Hmem). split; [done|]. intros j.
  rewrite (insert_exists_iff (λ x, wheel_slot x = Some k) hs i j h h' Hi).
  rewrite Hmem. case_decide; [subst j|done].
  rewrite Hslot. split; [|by eauto]. intros (x & Hx & Hxs). by simplify_eq.
Qed.

Lemma wheel_ok_push hs w i h h' t :
  wheel_ok hs w → hs !! i = Some h →
  wheel_slot h = None → wheel_slot h' = Some (t mod RING_SIZE) →
  wheel_ok (<[i:=h']> hs) (wheel_at (push_front i) t w).
Proof.
  intros (Hlen & Hw) Hi Hnone Hsome. unfold wheel_at. rewrite Hlen.
  split; [by rewrite length_alter|]. intros k b Hb.
  rewrite list_lookup_alter in Hb.
  assert (∀ b0, w !! k = Some b0 → i ∉ b0) as Hfresh.
  { intros b0 Hb0 Hin. apply (Hw k b0 Hb0) in Hin as (x & Hx & Hxs).
    by simplify_eq. }
  case_decide as Hk.
  - subst k. destruct (w !! (t mod RING_SIZE)) as [b0|] eqn:Hb0; simplify_eq/=.
    destruct (Hw _ b0 Hb0) as (Hnd & Hmem). unfold push_front. split.
    + apply list.NoDup_cons. split; [by eapply Hfresh|done].
    + intros j.
      rewrite (insert_exists_iff (λ x, wheel_slot x = Some (t mod RING_SIZE))
                 hs i j h h' Hi).
      rewrite elem_of_cons, Hmem. case_decide; [by subst; tauto|].
      split; [by intros [?|?]|by right].
  - destruct (Hw k b Hb) as (Hnd & Hmem). split; [done|]. intros j.
    rewrite (insert_exists_iff (λ x, wheel_slot x = Some k) hs i j h h' Hi).
    case_decide; [subst j|by apply Hmem].
    split; [by intros ?%(Hfresh b Hb)|]. rewrite Hsome. by intros [= ?].
Qed.

Lemma wheel_ok_pop hs w i h h' t :
  wheel_ok hs w → hs !! i = Some h →
  wheel_slot h = Some (t mod RING_SIZE) → wheel_slot h' = None →
  wheel_ok (<[i:=h']> hs) (wheel_at (pop i) t w).
Proof.
  intros (Hlen & Hw) Hi Hsome Hnone. unfold wheel_at. rewrite Hlen.
  split; [by rewrite length_alter|]. intros k b Hb.
  rewrite list_lookup_alter in Hb. case_decide as Hk.
  - subst k. destruct (w !! (t mod RING_SIZE)) as [b0|] eqn:Hb0; simplify_eq/=.
    destruct (Hw _ b0 Hb0) as (Hnd & Hmem). split.
    + by apply list.NoDup_filter.
    + intros j.
      rewrite (insert_exists_iff (λ x, wheel_slot x = Some (t mod RING_SIZE))
                 hs i j h h' Hi).
      rewrite elem_of_pop, Hmem. case_decide; [|tauto].
      split; [tauto|]. rewrite Hnone. by intros [=].
  - destruct (Hw k b Hb) as (Hnd & Hmem). split; [done|]. intros j.
    rewrite (insert_exists_iff (λ x, wheel_slot x = Some k) hs i j h h' Hi).
    case_decide; [subst j|by apply Hmem]. rewrite Hmem, Hnone.
    split; [|by intros [=]]. intros (x & Hx & Hxs). by simplify_eq.
Qed.

(** ** The list of pending retransmissions *)

Lemma pending_ok_keep hs p i h h' :
  pending_ok hs p → hs !! i = Some h →
  (status h' = pending_retx ↔ status h = pending_retx) →
  pending_ok (<[i:=h']> hs) p.
Proof.
  intros (Hnd & Hmem) Hi Hst. split; [done|]. intros j.
  rewrite (insert_exists_iff (λ x, status x = pending_retx) hs i j h h' Hi).
  rewrite Hmem. case_decide; [subst j|done]. rewrite Hst.
  split; [|by eauto]. intros (x & Hx & Hxs). by simplify_eq.
Qed.

Lemma pending_ok_push hs p i h h' :
  pending_ok hs p → hs !! i = Some h →
  status h ≠ pending_retx → status h' = pending_retx →
  pending_ok (<[i:=h']> hs) (push_front i p).
Proof.
  intros (Hnd & Hmem) Hi Hst Hst'. unfold push_front.
  assert (i ∉ p) as Hfresh.
  { intros (x & Hx & Hxs)%Hmem. by simplify_eq. }
  split; [by apply list.NoDup_cons|]. intros j.
  rewrite (insert_exists_iff (λ x, status x = pending_retx) hs i j h h' Hi).
  rewrite elem_of_cons, Hmem. case_decide; [by subst; tauto|].
  split; [by intros [?|?]|by right].
Qed.

Lemma pending_ok_pop hs p i h h' :
  pending_ok hs p → hs !! i = Some h → status h' ≠ pending_retx →
  pending_ok (<[i:=h']> hs) (pop i p).
Proof.
  intros (Hnd & Hmem) Hi Hst'. split; [by apply list.NoDup_filter|]. intros j.
  rewrite (insert_exists_iff (λ x, status x = pending_retx) hs i j h h' Hi).
  rewrite elem_of_pop, Hmem. case_decide; tauto.
Qed.

(** ** Owners *)

Lemma owner_ok_insert hs us i h' :
  owner_ok hs us →
  (status h' ≠ empty →
   ∃ e, us !! ue_idx h' = Some e ∧ h_id h' < length (ue_harqs e)) →
  owner_ok (<[i:=h']> hs) us.
Proof.
  intros Ho Hnew j x Hj Hx. destruct (decide (j = i)) as [->|Hne].
  - apply list_lookup_insert_Some in Hj as [(_ & <- & _)|(? & _)]; [|done].
    by apply Hnew.
  - rewrite list_lookup_insert_ne in Hj by done. by eapply Ho.
Qed.

Lemma owner_ok_ues hs us u e e' :
  owner_ok hs us → us !! u = Some e →
  length (ue_harqs e') = length (ue_harqs e) →
  owner_ok hs (<[u:=e']> us).
Proof.
  intros Ho Hu Hlen j x Hj Hx. destruct (Ho j x Hj Hx) as (e0 & He0 & Hlt).
  destruct (decide (ue_idx x = u)) as [Heq|Hne].
  - exists e'. rewrite Heq.
    rewrite list_lookup_insert_eq by (by eapply lookup_lt_Some).
    split; [done|]. rewrite Hlen. congruence.
  - exists e0. by rewrite list_lookup_insert_ne.
Qed.

(** ** [dealloc_harq] *)

Lemma dealloc_harq_empty r i h :
  harqs r !! i = Some h → status h = empty → dealloc_harq r i = Some r.
Proof. intros Hi He. unfold dealloc_harq. rewrite Hi. simpl. by rewrite decide_True. Qed.

Lemma dealloc_harq_in_use r i h :
  owner_ok (harqs r) (ues r) → harqs r !! i = Some h → status h ≠ empty →
  ∃ e, ues r !! ue_idx h = Some e ∧ h_id h < length (ue_harqs e) ∧
       dealloc_harq r i = Some (dealloc_result r i h e).
Proof.
  intros Ho Hi Hst. destruct (Ho i h Hi Hst) as (e & He & Hlt).
  exists e. split_and!; [done..|]. unfold dealloc_harq. rewrite Hi. simpl.
  rewrite decide_False by done. rewrite He. simpl.
  rewrite decide_True by done. unfold dealloc_result.
  destruct r; simpl. by case_decide.
Qed.

Lemma dealloc_result_inv r i h e :
  repo_inv r → harqs r !! i = Some h → status h ≠ empty →
  ues r !! ue_idx h = Some e →
  repo_inv (dealloc_result r i h e).
Proof.
  intros (Hpool & Ho & Hw & Hp) Hi Hst He. unfold repo_inv. simpl.
  split_and!.
  - by eapply pool_ok_dealloc.
  - eapply owner_ok_ues; [|done|by simpl; rewrite length_insert].
    by apply owner_ok_insert.
  - case_decide as Hwait.
    + eapply wheel_ok_pop; [done..| |].
      * unfold wheel_slot. by rewrite decide_True.
      * done.
    + eapply wheel_ok_keep; [done..|]. unfold wheel_slot. simpl.
      by rewrite decide_False.
  - case_decide as Hwait.
    + eapply pending_ok_keep; [done..|]. simpl. rewrite Hwait. done.
    + by eapply pending_ok_pop.
Qed.

Lemma dealloc_harq_inv r i :
  repo_inv r → i < length (harqs r) →
  ∃ r', dealloc_harq r i = Some r' ∧ repo_inv r'.
Proof.
  intros Hinv Hlt. destruct (lookup_lt_is_Some_2 _ _ Hlt) as [h Hi].
  destruct (decide (status h = empty)) as [He|Hne].
  - exists r. by erewrite dealloc_harq_empty.
  - destruct (dealloc_harq_in_use r i h) as (e & He & _ & ->);
      [apply Hinv|done..|].
    eexists. split; [done|]. by apply dealloc_result_inv.
Qed.

(** ** [alloc_harq] *)

Lemma alloc_harq_exhausted r ue sl_tx sl_ack max_retxs e :
  ues r !! ue = Some e →
  free_harqs r = [] ∨ free_harq_ids e = [] →
  alloc_harq r ue sl_tx sl_ack max_retxs = Some (None, r).
Proof.
  intros He Hempty. unfold alloc_harq. rewrite He. simpl.
  destruct Hempty as [-> | ->]; simpl; [done|].
  by destruct (list.last (free_harqs r)).
Qed.

Lemma alloc_harq_available r ue sl_tx sl_ack max_retxs e i hid h :
  ues r !! ue = Some e →
  list.last (free_harqs r) = Some i → list.last (free_harq_ids e) = Some hid →
  hid < length (ue_harqs e) → harqs r !! i = Some h →
  alloc_harq r ue sl_tx sl_ack max_retxs
  = Some (Some i, alloc_result r ue sl_tx sl_ack max_retxs i hid h e).
Proof.
  intros He Hf Hid Hlt Hi. unfold alloc_harq. rewrite He. simpl.
  rewrite Hf, Hid. rewrite decide_True by done. by rewrite Hi.
Qed.

Lemma alloc_harq_Some r ue sl_tx sl_ack max_retxs res r' :
  alloc_harq r ue sl_tx sl_ack max_retxs = Some (res, r') →
  ∃ e, ues r !! ue = Some e ∧
    ((res = None ∧ r' = r ∧ (free_harqs r = [] ∨ free_harq_ids e = [])) ∨
     (∃ i hid h, res = Some i ∧
        list.last (free_harqs r) = Some i ∧
        list.last (free_harq_ids e) = Some hid ∧
        hid < length (ue_harqs e) ∧ harqs r !! i = Some h ∧
        r' = alloc_result r ue sl_tx sl_ack max_retxs i hid h e)).
Proof.
  unfold alloc_harq. intros H.
  destruct (ues r !! ue) as [e|] eqn:He; simplify_eq/=. exists e.
  split; [done|].
  destruct (list.last (free_harqs r)) as [i|] eqn:Hf.
  - destruct (list.last (free_harq_ids e)) as [hid|] eqn:Hid.
    + case_decide as Hlt; [|done].
      destruct (harqs r !! i) as [h|] eqn:Hi; simplify_eq/=.
      right. exists i, hid, h. by split_and!.
    + simplify_eq. left. split_and!; [done..|]. right.
      by apply last_None.
  - simplify_eq. left. split_and!; [done..|]. left. by apply last_None.
Qed.

Lemma alloc_result_inv r ue sl_tx sl_ack max_retxs i hid h e :
  repo_inv r → ues r !! ue = Some e →
  list.last (free_harqs r) = Some i →
  hid < length (ue_harqs e) → harqs r !! i = Some h →
  repo_inv (alloc_result r ue sl_tx sl_ack max_retxs i hid h e).
Proof.
  intros (Hpool & Ho & Hw & Hp) He Hf Hlt Hi.
  assert (status h = empty) as Hempty.
  { destruct Hpool as (_ & Hfree & _). destruct (Hfree i) as (x & Hx & Hxe).
    - rewrite (last_Some_snoc _ _ Hf). apply elem_of_snoc_r.
    - by simplify_eq. }
  unfold repo_inv. simpl. split_and!.
  - by apply pool_ok_alloc.
  - eapply owner_ok_ues; [|done|by simpl; rewrite length_insert].
    apply owner_ok_insert; [done|]. simpl. intros _. by exists e.
  - eapply wheel_ok_push; [done..| |].
    + unfold wheel_slot. by rewrite Hempty.
    + done.
  - eapply pending_ok_keep; [done..|]. simpl. by rewrite Hempty.
Qed.

Lemma alloc_harq_inv r ue sl_tx sl_ack max_retxs res r' :
  repo_inv r → alloc_harq r ue sl_tx sl_ack max_retxs = Some (res, r') →
  repo_inv r'.
Proof.
  intros Hinv (e & He & [(_ & -> & _)|(i & hid & h & _ & Hf & _ & Hlt & Hi & ->)])%alloc_harq_Some;
    [done|].
  by apply alloc_result_inv.
Qed.

Lemma dealloc_harq_preserves r i r' :
  repo_inv r → dealloc_harq r i = Some r' → repo_inv r'.
Proof.
  intros Hinv Hd. destruct (harqs r !! i) as [h|] eqn:Hi.
  - apply lookup_lt_Some in Hi.
    destruct (dealloc_harq_inv r i Hinv Hi) as (r'' & Hd' & Hinv'').
    by simplify_eq.
  - unfold dealloc_harq in Hd. by rewrite Hi in Hd.
Qed.

(** ** Updates of a record that keep its place in every list *)

Lemma repo_inv_update r i h h' :
  repo_inv r → harqs r !! i = Some h →
  status h' = status h → slot_ack_timeout h' = slot_ack_timeout h →
  ue_idx h' = ue_idx h → h_id h' = h_id h →
  repo_inv (set_harqs (<[i:=h']> (harqs r)) r).
Proof.
  intros (Hpool & Ho & Hw & Hp) Hi Hst Hto Hue Hid. unfold repo_inv. simpl.
  split_and!.
  - eapply pool_ok_keep; [done..|]. by rewrite Hst.
  - apply owner_ok_insert; [done|]. rewrite Hst, Hue, Hid. by apply (Ho i h).
  - eapply wheel_ok_keep; [done..|]. unfold wheel_slot. by rewrite Hst, Hto.
  - eapply pending_ok_keep; [done..|]. by rewrite Hst.
Qed.

(** ** [set_pending_retx], [handle_ack], [cancel_retxs] *)

Lemma set_pending_retx_preserves r i r' :
  repo_inv r → set_pending_retx r i = Some r' → repo_inv r'.
Proof.
  intros (Hpool & Ho & Hw & Hp) Hs. unfold set_pending_retx in Hs.
  destruct (harqs r !! i) as [h|] eqn:Hi; simplify_eq/=.
  destruct (status h) eqn:Hst; simplify_eq/=; [done|].
  unfold repo_inv. simpl. split_and!.
  - eapply pool_ok_keep; [done..|]. simpl. by rewrite Hst.
  - apply owner_ok_insert; [done|]. simpl. intros _. apply (Ho i h Hi).
    by rewrite Hst.
  - eapply wheel_ok_pop; [done..| |].
    + unfold wheel_slot. by rewrite Hst.
    + done.
  - eapply pending_ok_push; [done..| |done]. by rewrite Hst.
Qed.

Lemma handle_ack_preserves r i a r' :
  repo_inv r → handle_ack r i a = Some r' → repo_inv r'.
Proof.
  intros Hinv Hh. unfold handle_ack in Hh.
  destruct (harqs r !! i) as [h|]; simplify_eq/=.
  destruct (_ || _); [by eapply dealloc_harq_preserves|
                       by eapply set_pending_retx_preserves].
Qed.

Lemma cancel_retxs_preserves r i r' :
  repo_inv r → cancel_retxs r i = Some r' → repo_inv r'.
Proof.
  intros Hinv Hc. unfold cancel_retxs in Hc.
  destruct (harqs r !! i) as [h|] eqn:Hi; simplify_eq/=.
  case_decide; simplify_eq; [done|]. by eapply repo_inv_update.
Qed.

(** ** Loops *)

Lemma for_each_preserves {S A} (I : S → Prop) (f : S → A → option S)
    (l : list A) (s s' : S) :
  (∀ s x s', I s → f s x = Some s' → I s') →
  I s → for_each f l s = Some s' → I s'.
Proof.
  intros Hf. revert s. induction l as [|x l IH]; intros s Hs Hrun;
    simplify_eq/=; [done|].
  destruct (f s x) as [s1|] eqn:Hx; simplify_eq/=. eauto.
Qed.

Lemma for_each_app {S A} (f : S → A → option S) (l1 l2 : list A) (s : S) :
  for_each f (l1 ++ l2) s = s1 ← for_each f l1 s; for_each f l2 s1.
Proof.
  revert s. induction l1 as [|x l1 IH]; intros s; simpl; [done|].
  destruct (f s x); simpl; [by apply IH|done].
Qed.

(** ** Timeouts *)

Lemma handle_harq_ack_timeout_preserves r i r' :
  repo_inv r → handle_harq_ack_timeout r i = Some r' → repo_inv r'.
Proof.
  intros Hinv Hh. unfold handle_harq_ack_timeout in Hh.
  destruct (harqs r !! i) as [h|]; simplify_eq/=.
  case_decide; [|done]. eapply dealloc_harq_preserves; [|done].
  by case_decide.
Qed.

Lemma slot_indication_preserves r sl_tx r' :
  repo_inv r → harq_utils.slot_indication r sl_tx = Some r' → repo_inv r'.
Proof.
  intros Hinv Hs. unfold harq_utils.slot_indication in Hs.
  destruct (harq_timeout_wheel r !! _) as [b|]; simplify_eq/=.
  eapply (for_each_preserves repo_inv); [|done..].
  intros ???. apply handle_harq_ack_timeout_preserves.
Qed.

(** ** Admission and removal of a terminal *)

Lemma reserve_ue_harqs_preserves r ue n r' :
  repo_inv r → reserve_ue_harqs r ue n = Some r' → repo_inv r'.
Proof.
  intros (Hpool & Ho & Hw & Hp) Hr. unfold reserve_ue_harqs in Hr.
  destruct (ues r !! ue) as [e|] eqn:He; simplify_eq/=.
  unfold repo_inv. simpl. split_and!; [done| |done..].
  by eapply owner_ok_ues.
Qed.

Lemma destroy_ue_harqs_step_preserves ue r k r' :
  repo_inv r → destroy_ue_harqs_step ue r k = Some r' → repo_inv r'.
Proof.
  intros Hinv Hd. unfold destroy_ue_harqs_step in Hd.
  destruct (ues r !! ue) as [e|]; simplify_eq/=.
  destruct (ue_harqs e !! k) as [[i|]|]; simplify_eq/=; [|done].
  by eapply dealloc_harq_preserves.
Qed.

Lemma destroy_ue_harqs_preserves r ue r' :
  repo_inv r → destroy_ue_harqs r ue = Some r' → repo_inv r'.
Proof.
  intros Hinv Hd. unfold destroy_ue_harqs in Hd.
  destruct (ues r !! ue) as [e|]; simplify_eq/=.
  destruct (for_each _ _ r) as [r1|] eqn:Hloop; simplify_eq/=.
  destruct (ues r1 !! ue) as [e1|] eqn:He1; simplify_eq/=.
  assert (repo_inv r1) as (Hpool & Ho & Hw & Hp).
  { eapply (for_each_preserves repo_inv); [|done..].
    intros ???. apply destroy_ue_harqs_step_preserves. }
  unfold repo_inv. simpl. split_and!; [done| |done..].
  by eapply owner_ok_ues.
Qed.

(** ** The constructor *)

Lemma cell_harq_repository_init_inv MAX d max_ues W :
  repo_inv (cell_harq_repository_init MAX d max_ues W).
Proof.
  unfold repo_inv, cell_harq_repository_init.
  cbn [harqs free_harqs ues harq_timeout_wheel harq_pending_retx_list].
  split_and!.
  - split_and!.
    + rewrite reverse_Permutation. apply NoDup_seq.
    + intros i Hi. exists harq_process_default. split; [|done].
      apply lookup_replicate. split; [done|].
      apply elem_of_reverse, elem_of_seq in Hi. lia.
    + rewrite length_reverse, length_seq.
      assert (filter in_use (replicate (MAX * max_ues) harq_process_default) = [])
        as ->; [|rewrite length_replicate; simpl; lia].
      induction (MAX * max_ues) as [|n IH]; [done|]. simpl.
      rewrite filter_cons, decide_False; [done|]. unfold in_use. simpl. tauto.
  - intros i h [-> _]%lookup_replicate. done.
  - split; [by rewrite length_replicate|].
    intros k b [-> _]%lookup_replicate. split; [apply NoDup_nil_2|].
    intros i. split; [by intros ?%not_elem_of_nil|].
    by intros (h & [-> _]%lookup_replicate & ?).
  - split; [apply NoDup_nil_2|].
    intros i. split; [by intros ?%not_elem_of_nil|].
    by intros (h & [-> _]%lookup_replicate & ?).
Qed.

(** ** The manager *)

Lemma mgr_inv_repo_of d m : mgr_inv m → repo_inv (repo_of d m).
Proof. intros [??]. by destruct d. Qed.

Lemma mgr_inv_set_repo d r m : mgr_inv m → repo_inv r → mgr_inv (set_repo d r m).
Proof. intros [??] ?. by destruct d. Qed.

Lemma new_dl_tx_preserves m ue pdsch_slot k1 max_retxs bit_idx res m' :
  mgr_inv m → new_dl_tx m ue pdsch_slot k1 max_retxs bit_idx = Some (res, m') →
  mgr_inv m'.
Proof.
  intros [Hdl Hul] Hn. unfold new_dl_tx in Hn.
  destruct (alloc_harq _ _ _ _ _) as [[res0 dl']|] eqn:Ha; simplify_eq/=.
  apply alloc_harq_inv in Ha; [|done].
  destruct res0 as [i|]; simplify_eq/=; [|done].
  destruct (harqs dl' !! i) as [h|] eqn:Hi; simplify_eq/=.
  split; [|done]. by eapply repo_inv_update.
Qed.

Lemma new_ul_tx_preserves m ue pusch_slot max_retxs res m' :
  mgr_inv m → new_ul_tx m ue pusch_slot max_retxs = Some (res, m') →
  mgr_inv m'.
Proof.
  intros [Hdl Hul] Hn. unfold new_ul_tx in Hn.
  destruct (alloc_harq _ _ _ _ _) as [[res0 ul']|] eqn:Ha; simplify_eq/=.
  apply alloc_harq_inv in Ha; [|done].
  destruct res0 as [i|]; simplify_eq/=; [|done].
  destruct (harqs ul' !! i) as [h|] eqn:Hi; simplify_eq/=.
  split; [done|]. by eapply repo_inv_update.
Qed.

Lemma adopt_update_inv r i h a s :
  repo_inv r → harqs r !! i = Some h →
  repo_inv (set_harqs (<[i := if adopts h a s then set_chosen a s h else h]>
                         (harqs r)) r).
Proof.
  intros Hinv Hi. eapply repo_inv_update; [done|done|..];
    by destruct (adopts _ _ _).
Qed.

Lemma await_next_pucch_inv r i h cur :
  repo_inv r → harqs r !! i = Some h → status h = waiting_ack →
  repo_inv
    (set_harq_timeout_wheel
       (wheel_at (push_front i) cur
          (wheel_at (pop i) (slot_ack_timeout h) (harq_timeout_wheel r)))
       (set_harqs (<[i := await_next_pucch cur h]> (harqs r)) r)).
Proof.
  intros (Hpool & Ho & Hw & Hp) Hi Hst. unfold repo_inv. simpl. split_and!.
  - eapply pool_ok_keep; [done..|]. simpl. done.
  - apply owner_ok_insert; [done|]. simpl. intros _. apply (Ho i h Hi).
    by rewrite Hst.
  - rewrite <-(list_insert_insert_eq (harqs r) i _ (set_status empty h)).
    eapply wheel_ok_push.
    + eapply wheel_ok_pop; [done..| |].
      * unfold wheel_slot. by rewrite Hst.
      * done.
    + by rewrite list_lookup_insert_eq by (by eapply lookup_lt_Some).
    + done.
    + unfold wheel_slot. simpl. by rewrite Hst.
  - eapply pending_ok_keep; [done..|]. simpl. done.
Qed.

Section manager_invariants.
Variable SHORT_ACK_TIMEOUT_DTX : nat.

Lemma dl_ack_info_preserves m i a s res m' :
  mgr_inv m → dl_ack_info SHORT_ACK_TIMEOUT_DTX m i a s = Some (res, m') →
  mgr_inv m'.
Proof.
  intros [Hdl Hul] Hd. unfold dl_ack_info in Hd.
  destruct (harqs (dl m) !! i) as [h|] eqn:Hi; simplify_eq/=.
  case_decide as Hst; simplify_eq; [done|].
  pose proof (adopt_update_inv (dl m) i h a s Hdl Hi) as Hdl1.
  set (h1 := if adopts h a s then set_chosen a s h else h) in *.
  assert (status h1 = waiting_ack) as Hst1.
  { unfold h1. by destruct (adopts _ _ _). }
  case_decide as Hlast.
  - destruct (handle_ack _ _ _) as [dl2|] eqn:Hh; simplify_eq/=.
    split; [|done]. by eapply handle_ack_preserves.
  - destruct (last_sl_tx m) as [cur|]; simplify_eq/=. split; [|done].
    pose proof (await_next_pucch_inv _ i h1 (cur + SHORT_ACK_TIMEOUT_DTX) Hdl1)
      as Hinv.
    apply Hinv; [|done]. simpl.
    by rewrite list_lookup_insert_eq by (by eapply lookup_lt_Some).
Qed.

Lemma ul_crc_info_preserves m i a res m' :
  mgr_inv m → ul_crc_info m i a = Some (res, m') → mgr_inv m'.
Proof.
  intros [Hdl Hul] Hu. unfold ul_crc_info in Hu.
  destruct (harqs (ul m) !! i) as [h|] eqn:Hi; simplify_eq/=.
  case_decide as Hst; simplify_eq; [done|].
  destruct (handle_ack _ _ _) as [ul'|] eqn:Hh; simplify_eq/=.
  destruct (harqs ul' !! i); simplify_eq/=.
  split; [done|]. by eapply handle_ack_preserves.
Qed.

Lemma exec_preserves m o m' :
  mgr_inv m → exec SHORT_ACK_TIMEOUT_DTX m o = Some m' → mgr_inv m'.
Proof.
  intros Hinv He. pose proof Hinv as [Hdl Hul].
  destruct o; simpl in He.
  - destruct (reserve_ue_harqs _ _ _) as [r|] eqn:E; simplify_eq/=.
    apply mgr_inv_set_repo; [done|].
    eapply reserve_ue_harqs_preserves; [by apply mgr_inv_repo_of|done].
  - destruct (alloc_harq _ _ _ _ _) as [[res r]|] eqn:E; simplify_eq/=.
    apply mgr_inv_set_repo; [done|].
    eapply alloc_harq_inv; [by apply mgr_inv_repo_of|done].
  - destruct (handle_ack _ _ _) as [r|] eqn:E; simplify_eq/=.
    apply mgr_inv_set_repo; [done|].
    eapply handle_ack_preserves; [by apply mgr_inv_repo_of|done].
  - destruct (dealloc_harq _ _) as [r|] eqn:E; simplify_eq/=.
    apply mgr_inv_set_repo; [done|].
    eapply dealloc_harq_preserves; [by apply mgr_inv_repo_of|done].
  - destruct (destroy_ue_harqs _ _) as [r|] eqn:E; simplify_eq/=.
    apply mgr_inv_set_repo; [done|].
    eapply destroy_ue_harqs_preserves; [by apply mgr_inv_repo_of|done].
  - destruct (harq_utils.slot_indication _ _) as [r|] eqn:E; simplify_eq/=.
    apply mgr_inv_set_repo; [done|].
    eapply slot_indication_preserves; [by apply mgr_inv_repo_of|done].
  - destruct (set_pending_retx _ _) as [r|] eqn:E; simplify_eq/=.
    apply mgr_inv_set_repo; [done|].
    eapply set_pending_retx_preserves; [by apply mgr_inv_repo_of|done].
  - destruct (cancel_retxs _ _) as [r|] eqn:E; simplify_eq/=.
    apply mgr_inv_set_repo; [done|].
    eapply cancel_retxs_preserves; [by apply mgr_inv_repo_of|done].
  - unfold slot_indication in He.
    destruct (harq_utils.slot_indication (dl m) _) as [dl'|] eqn:E1; simplify_eq/=.
    destruct (harq_utils.slot_indication (ul m) _) as [ul'|] eqn:E2; simplify_eq/=.
    split; [exact (slot_indication_preserves _ _ _ Hdl E1)|exact (slot_indication_preserves _ _ _ Hul E2)].
  - unfold add_ue in He. repeat case_decide; simplify_eq.
    destruct (contains m ue) as [[]|]; simplify_eq/=.
    destruct (reserve_ue_harqs (dl m) _ _) as [dl'|] eqn:E1; simplify_eq/=.
    destruct (reserve_ue_harqs (ul m) _ _) as [ul'|] eqn:E2; simplify_eq/=.
    split; [exact (reserve_ue_harqs_preserves _ _ _ _ Hdl E1)|exact (reserve_ue_harqs_preserves _ _ _ _ Hul E2)].
  - unfold destroy_ue in He.
    destruct (destroy_ue_harqs (dl m) _) as [dl'|] eqn:E1; simplify_eq/=.
    destruct (destroy_ue_harqs (ul m) _) as [ul'|] eqn:E2; simplify_eq/=.
    split; [exact (destroy_ue_harqs_preserves _ _ _ Hdl E1)|exact (destroy_ue_harqs_preserves _ _ _ Hul E2)].
  - destruct (new_dl_tx _ _ _ _ _ _) as [[res m1]|] eqn:E; simplify_eq/=.
    by eapply new_dl_tx_preserves.
  - destruct (new_ul_tx _ _ _ _) as [[res m1]|] eqn:E; simplify_eq/=.
    by eapply new_ul_tx_preserves.
  - destruct (dl_ack_info _ _ _ _ _) as [[res m1]|] eqn:E; simplify_eq/=.
    by eapply dl_ack_info_preserves.
  - destruct (ul_crc_info _ _ _) as [[res m1]|] eqn:E; simplify_eq/=.
    by eapply ul_crc_info_preserves.
Qed.

Lemma run_preserves ops m m' :
  mgr_inv m → run SHORT_ACK_TIMEOUT_DTX ops m = Some m' → mgr_inv m'.
Proof.
  unfold run. apply (for_each_preserves mgr_inv). intros ???.
  apply exec_preserves.
Qed.

Lemma reachable_inv MAX max_ues W ops m :
  run SHORT_ACK_TIMEOUT_DTX ops (cell_harq_manager_init MAX max_ues W) = Some m →
  mgr_inv m.
Proof.
  apply run_preserves. split; apply cell_harq_repository_init_inv.
Qed.

End manager_invariants.

(** ** Membership in the wheel and in the pending list *)

Lemma in_timeout_wheel_iff r i h :
  repo_inv r → harqs r !! i = Some h →
  in_timeout_wheel r i ↔ status h = waiting_ack.
Proof.
  intros (_ & _ & (Hlen & Hw) & _) Hi. unfold in_timeout_wheel. split.
  - intros (b & (k & Hk)%list_elem_of_lookup & Hin).
    apply (Hw k b Hk) in Hin as (x & Hx & Hxs). simplify_eq.
    unfold wheel_slot in Hxs. by case_decide.
  - intros Hst.
    assert (slot_ack_timeout h mod RING_SIZE < length (harq_timeout_wheel r))
      as Hlt.
    { rewrite Hlen. by apply Nat.mod_upper_bound. }
    apply lookup_lt_is_Some_2 in Hlt as [b Hb]. exists b. split.
    + by eapply list_elem_of_lookup_2.
    + apply (Hw _ b Hb). exists h. split; [done|]. unfold wheel_slot.
      by rewrite decide_True.
Qed.

Lemma in_pending_retx_list_iff r i h :
  repo_inv r → harqs r !! i = Some h →
  in_pending_retx_list r i ↔ status h = pending_retx.
Proof.
  intros (_ & _ & _ & (_ & Hp)) Hi. unfold in_pending_retx_list.
  rewrite Hp. split; [|by eauto]. intros (x & Hx & Hxs). by simplify_eq.
Qed.

(** ** The index of a terminal *)

Lemma owner_key_Some h u k :
  owner_key h = Some (u, k) ↔ status h ≠ empty ∧ ue_idx h = u ∧ h_id h = k.
Proof.
  unfold owner_key. case_decide as He; split.
  - done.
  - by intros (? & _).
  - by intros [= <- <-].
  - by intros (_ & <- & <-).
Qed.

Lemma owner_key_None h : owner_key h = None ↔ status h = empty.
Proof. unfold owner_key. by case_decide. Qed.

Lemma owned_by_key u h : owned_by u h ↔ ∃ k, owner_key h = Some (u, k).
Proof.
  unfold owned_by. split.
  - intros [??]. exists (h_id h). by apply owner_key_Some.
  - intros (k & (? & ? & _)%owner_key_Some). done.
Qed.

Lemma filter_nil_length {A} (P : A → Prop) `{!∀ x, Decision (P x)} (l : list A) :
  (∀ i x, l !! i = Some x → ¬ P x) → length (filter P l) = 0.
Proof.
  intros Hall. induction l as [|a l IH]; [done|].
  rewrite filter_cons, decide_False by (by apply (Hall 0)).
  apply IH. intros i x Hx. by apply (Hall (S i)).
Qed.

Lemma filter_length_0 {A} (P : A → Prop) `{!∀ x, Decision (P x)} (l : list A)
    (i : nat) (x : A) :
  length (filter P l) = 0 → l !! i = Some x → ¬ P x.
Proof.
  intros Hlen Hi HP. apply length_zero_iff_nil in Hlen.
  assert (x ∈ filter P l) as Hin.
  { apply list_elem_of_filter. split; [done|]. by eapply list_elem_of_lookup_2. }
  rewrite Hlen in Hin. by apply not_elem_of_nil in Hin.
Qed.

Lemma index_ok_ext hs us B B' :
  index_ok hs us B → (∀ u, B u = B' u) → index_ok hs us B'.
Proof.
  intros H Heq u e He. destruct (H u e He) as (?&?&?&?).
  split_and!; [done..|]. by rewrite <-Heq.
Qed.

Lemma index_ok_keep hs us B i h h' :
  index_ok hs us B → hs !! i = Some h → owner_key h' = owner_key h →
  index_ok (<[i:=h']> hs) us B.
Proof.
  intros H Hi Hkey u e He. destruct (H u e He) as (Hnd & Hent & Hfree & Hcnt).
  split_and!; [done| |done|].
  - intros k j.
    rewrite (insert_exists_iff (λ x, owner_key x = Some (u, k)) hs i j h h' Hi).
    rewrite Hent. case_decide; [subst j|done]. rewrite Hkey.
    split; [|by eauto]. intros (x & Hx & Hxs). by simplify_eq.
  - rewrite (length_filter_insert_same (owned_by u) hs i h' h); [done..|].
    by rewrite !owned_by_key, Hkey.
Qed.

Lemma index_ok_alloc hs us B u e i k h h' :
  index_ok hs us B → us !! u = Some e →
  list.last (free_harq_ids e) = Some k → k < length (ue_harqs e) →
  hs !! i = Some h → owner_key h = None → owner_key h' = Some (u, k) →
  index_ok (<[i:=h']> hs)
    (<[u := {| free_harq_ids := removelast (free_harq_ids e);
               ue_harqs := <[k := Some i]> (ue_harqs e) |}]> us) B.
Proof.
  intros H He Hlast Hk Hi Hkey Hkey' u' e' He'.
  destruct (decide (u' = u)) as [->|Hne].
  - rewrite list_lookup_insert_eq in He' by (by eapply lookup_lt_Some).
    simplify_eq. simpl. destruct (H u e He) as (Hnd & Hent & Hfree & Hcnt).
    apply last_Some_snoc in Hlast. set (f' := removelast (free_harq_ids e)) in *.
    rewrite Hlast in Hnd, Hfree, Hcnt. clearbody f'.
    apply list.NoDup_app in Hnd as (Hnd & Hdisj & _).
    assert (k ∉ f') as Hkf. { intros Hin. apply (Hdisj k Hin). apply list_elem_of_here. }
    split_and!; [done| | |].
    + intros k' j.
      rewrite (insert_exists_iff (λ x, owner_key x = Some (u, k')) hs i j h h' Hi).
      destruct (decide (k' = k)) as [->|Hkk].
      * rewrite list_lookup_insert_eq by done. case_decide; [by subst|].
        split; [by intros [= ?]|]. intros Hx%Hent. exfalso.
        eapply (Hfree k); [apply elem_of_snoc_r|done].
      * rewrite list_lookup_insert_ne by done. rewrite Hent.
        case_decide; [subst j|done]. rewrite Hkey'.
        split; [|by intros [= ?]]. intros (x & Hx & Hxs). by simplify_eq.
    + intros k' j Hin. rewrite list_lookup_insert_ne by (by intros ->).
      apply Hfree. by apply elem_of_snoc_l.
    + rewrite length_app in Hcnt. simpl in Hcnt.
      pose proof (length_filter_insert (owned_by u) hs i h' h Hi) as E.
      rewrite decide_False in E
        by (rewrite owned_by_key; intros (? & ?); congruence).
      rewrite decide_True in E by (rewrite owned_by_key; eauto). lia.
  - rewrite list_lookup_insert_ne in He' by done.
    destruct (H u' e' He') as (Hnd & Hent & Hfree & Hcnt).
    split_and!; [done| |done|].
    + intros k' j.
      rewrite (insert_exists_iff (λ x, owner_key x = Some (u', k')) hs i j h h' Hi).
      rewrite Hent. case_decide; [subst j|done]. rewrite Hkey'.
      split; [|by intros [= ? ?]]. intros (x & Hx & Hxs). by simplify_eq.
    + rewrite (length_filter_insert_same (owned_by u') hs i h' h); [done..|].
      rewrite !owned_by_key, Hkey, Hkey'. split; intros (? & ?); congruence.
Qed.

Lemma index_ok_dealloc hs us B u e i k h h' :
  index_ok hs us B → us !! u = Some e →
  hs !! i = Some h → owner_key h = Some (u, k) → owner_key h' = None →
  index_ok (<[i:=h']> hs)
    (<[u := {| free_harq_ids := free_harq_ids e ++ [k];
               ue_harqs := <[k := None]> (ue_harqs e) |}]> us) B.
Proof.
  intros H He Hi Hkey Hkey' u' e' He'.
  destruct (decide (u' = u)) as [->|Hne].
  - rewrite list_lookup_insert_eq in He' by (by eapply lookup_lt_Some).
    simplify_eq. simpl. destruct (H u e He) as (Hnd & Hent & Hfree & Hcnt).
    assert (ue_harqs e !! k = Some (Some i)) as Hki by (apply Hent; eauto).
    assert (k < length (ue_harqs e)) as Hk by (by eapply lookup_lt_Some).
    assert (k ∉ free_harq_ids e) as Hkf by (intros Hin; by eapply Hfree).
    split_and!.
    + apply list.NoDup_app. split_and!; [done| |apply NoDup_singleton].
      intros x Hx ->%list_elem_of_singleton. done.
    + intros k' j.
      rewrite (insert_exists_iff (λ x, owner_key x = Some (u, k')) hs i j h h' Hi).
      destruct (decide (k' = k)) as [->|Hkk].
      * rewrite list_lookup_insert_eq by done. case_decide; [by rewrite Hkey'|].
        split; [done|]. intros Hx%Hent. by simplify_eq.
      * rewrite list_lookup_insert_ne by done. rewrite Hent.
        case_decide; [subst j|done]. rewrite Hkey'.
        split; [|done]. intros (x & Hx & Hxs). by simplify_eq.
    + intros k' j Hin. destruct (decide (k' = k)) as [->|Hkk].
      * by rewrite list_lookup_insert_eq by done.
      * rewrite list_lookup_insert_ne by done. apply Hfree.
        apply elem_of_app in Hin as [Hin|Hin%list_elem_of_singleton]; done.
    + rewrite length_app. simpl.
      pose proof (length_filter_insert (owned_by u) hs i h' h Hi) as E.
      rewrite decide_True in E by (rewrite owned_by_key; eauto).
      rewrite decide_False in E
        by (rewrite owned_by_key; intros (? & ?); congruence). lia.
  - rewrite list_lookup_insert_ne in He' by done.
    destruct (H u' e' He') as (Hnd & Hent & Hfree & Hcnt).
    split_and!; [done| |done|].
    + intros k' j.
      rewrite (insert_exists_iff (λ x, owner_key x = Some (u', k')) hs i j h h' Hi).
      rewrite Hent. case_decide; [subst j|done]. rewrite Hkey'.
      split; [|done]. intros (x & Hx & Hxs). by simplify_eq.
    + rewrite (length_filter_insert_same (owned_by u') hs i h' h); [done..|].
      rewrite !owned_by_key, Hkey, Hkey'. split; intros (? & ?); congruence.
Qed.

Lemma index_ok_reserve hs us B u e n :
  index_ok hs us B → us !! u = Some e →
  length (filter (owned_by u) hs) = 0 →
  index_ok hs
    (<[u := {| free_harq_ids := reverse (seq 0 n); ue_harqs := ue_harqs e |}]> us)
    (λ u', if decide (u' = u) then n else B u').
Proof.
  intros H He Hnone u' e' He'. destruct (decide (u' = u)) as [->|Hne].
  - rewrite list_lookup_insert_eq in He' by (by eapply lookup_lt_Some).
    simplify_eq. simpl. destruct (H u e He) as (Hnd & Hent & Hfree & Hcnt).
    split_and!; [|done| |].
    + rewrite reverse_Permutation. apply NoDup_seq.
    + intros k i _ (h & Hh & Hkey)%Hent.
      apply (filter_length_0 _ _ _ _ Hnone Hh). apply owned_by_key. eauto.
    + rewrite length_reverse, length_seq. lia.
  - rewrite list_lookup_insert_ne in He' by done. by apply H.
Qed.

Lemma index_ok_clear hs us B u e :
  index_ok hs us B → us !! u = Some e →
  (∀ k i, ue_harqs e !! k ≠ Some (Some i)) →
  index_ok hs (<[u := {| free_harq_ids := []; ue_harqs := ue_harqs e |}]> us)
    (λ u', if decide (u' = u) then 0 else B u').
Proof.
  intros H He Hnone u' e' He'. destruct (decide (u' = u)) as [->|Hne].
  - rewrite list_lookup_insert_eq in He' by (by eapply lookup_lt_Some).
    simplify_eq. simpl. destruct (H u e He) as (Hnd & Hent & Hfree & Hcnt).
    split_and!; [apply NoDup_nil_2|done|by intros ?? ?%not_elem_of_nil|].
    apply filter_nil_length. intros i h Hh (k & Hkey)%owned_by_key.
    apply (Hnone k i). apply Hent. eauto.
  - rewrite list_lookup_insert_ne in He' by done. by apply H.
Qed.

(** ** The index under the operations of a repository *)

Lemma pool_free_is_empty hs f i h :
  pool_ok hs f → list.last f = Some i → hs !! i = Some h → status h = empty.
Proof.
  intros (_ & Hfree & _) Hlast Hi. destruct (Hfree i) as (x & Hx & Hxe).
  - rewrite (last_Some_snoc _ _ Hlast). apply elem_of_snoc_r.
  - by simplify_eq.
Qed.

Lemma ue_inv_update r B i h h' :
  ue_inv r B → harqs r !! i = Some h →
  status h' = status h → ue_idx h' = ue_idx h → h_id h' = h_id h →
  ue_inv (set_harqs (<[i:=h']> (harqs r)) r) B.
Proof.
  intros Hu Hi Hst Hue Hid. unfold ue_inv. simpl.
  eapply index_ok_keep; [done..|]. unfold owner_key. by rewrite Hst, Hue, Hid.
Qed.

Lemma dealloc_harq_ue_inv r B i r' :
  repo_inv r → ue_inv r B → dealloc_harq r i = Some r' → ue_inv r' B.
Proof.
  intros Hinv Hu Hd. destruct (harqs r !! i) as [h|] eqn:Hi;
    [|unfold dealloc_harq in Hd; by rewrite Hi in Hd].
  destruct (decide (status h = empty)) as [He|Hne].
  - rewrite (dealloc_harq_empty r i h) in Hd by done. by simplify_eq.
  - destruct (dealloc_harq_in_use r i h) as (e & He & _ & Heq);
      [apply Hinv|done..|].
    rewrite Heq in Hd. simplify_eq. unfold ue_inv. simpl.
    eapply index_ok_dealloc; [done..| |done]. by apply owner_key_Some.
Qed.

Lemma alloc_harq_ue_inv r B ue sl_tx sl_ack max_retxs res r' :
  repo_inv r → ue_inv r B →
  alloc_harq r ue sl_tx sl_ack max_retxs = Some (res, r') → ue_inv r' B.
Proof.
  intros (Hpool & _) Hu
    (e & He & [(_ & -> & _)|(i & hid & h & _ & Hf & Hid & Hlt & Hi & ->)])%alloc_harq_Some;
    [done|].
  unfold ue_inv. simpl. eapply index_ok_alloc; [done..| |].
  - apply owner_key_None. by eapply pool_free_is_empty.
  - by apply owner_key_Some.
Qed.

Lemma set_pending_retx_ue_inv r B i r' :
  ue_inv r B → set_pending_retx r i = Some r' → ue_inv r' B.
Proof.
  intros Hu Hs. unfold set_pending_retx in Hs.
  destruct (harqs r !! i) as [h|] eqn:Hi; simplify_eq/=.
  destruct (status h) eqn:Hst; simplify_eq/=; [done|].
  unfold ue_inv. simpl. eapply index_ok_keep; [done..|].
  unfold owner_key. simpl. by rewrite Hst.
Qed.

Lemma handle_ack_ue_inv r B i a r' :
  repo_inv r → ue_inv r B → handle_ack r i a = Some r' → ue_inv r' B.
Proof.
  intros Hinv Hu Hh. unfold handle_ack in Hh.
  destruct (harqs r !! i) as [h|]; simplify_eq/=.
  destruct (_ || _); [by eapply dealloc_harq_ue_inv|
                       by eapply set_pending_retx_ue_inv].
Qed.

Lemma cancel_retxs_ue_inv r B i r' :
  ue_inv r B → cancel_retxs r i = Some r' → ue_inv r' B.
Proof.
  intros Hu Hc. unfold cancel_retxs in Hc.
  destruct (harqs r !! i) as [h|] eqn:Hi; simplify_eq/=.
  case_decide; simplify_eq; [done|]. by eapply ue_inv_update.
Qed.

Lemma handle_harq_ack_timeout_ue_inv r B i r' :
  repo_inv r → ue_inv r B → handle_harq_ack_timeout r i = Some r' →
  ue_inv r' B.
Proof.
  intros Hinv Hu Hh. unfold handle_harq_ack_timeout in Hh.
  destruct (harqs r !! i) as [h|]; simplify_eq/=.
  case_decide; [|done]. eapply dealloc_harq_ue_inv; [| |done]; by case_decide.
Qed.

Lemma slot_indication_ue_inv r B sl_tx r' :
  repo_inv r → ue_inv r B → harq_utils.slot_indication r sl_tx = Some r' →
  ue_inv r' B.
Proof.
  intros Hinv Hu Hs. unfold harq_utils.slot_indication in Hs.
  destruct (harq_timeout_wheel r !! _) as [b|]; simplify_eq/=.
  eapply (for_each_preserves (λ r, repo_inv r ∧ ue_inv r B)); [|done..].
  intros r0 x r1 [??] ?. split;
    [by eapply handle_harq_ack_timeout_preserves|
     by eapply handle_harq_ack_timeout_ue_inv].
Qed.

Lemma reserve_ue_harqs_ue_inv r B ue n r' :
  ue_inv r B → nof_owned r ue = 0 → reserve_ue_harqs r ue n = Some r' →
  ue_inv r' (λ u, if decide (u = ue) then n else B u).
Proof.
  intros Hu Hnone Hr. unfold reserve_ue_harqs in Hr.
  destruct (ues r !! ue) as [e|] eqn:He; simplify_eq/=.
  unfold ue_inv. simpl. by apply index_ok_reserve.
Qed.

Lemma destroy_ue_harqs_loop r B ue n r1 e0 :
  repo_inv r → ue_inv r B → ues r !! ue = Some e0 →
  for_each (destroy_ue_harqs_step ue) (seq 0 n) r = Some r1 →
  repo_inv r1 ∧ ue_inv r1 B ∧
  ∃ e1, ues r1 !! ue = Some e1 ∧
        length (ue_harqs e1) = length (ue_harqs e0) ∧
        ∀ k i, k < n → ue_harqs e1 !! k ≠ Some (Some i).
Proof.
  intros Hinv Hu He0. revert r1. induction n as [|n IH]; intros r2 Hrun.
  - simpl in Hrun. simplify_eq. split_and!; [done..|]. exists e0.
    split_and!; [done..|]. intros ???. lia.
  - rewrite seq_S, for_each_app in Hrun. simpl in Hrun.
    destruct (for_each _ (seq 0 n) r) as [r1|] eqn:Hloop; simplify_eq/=.
    destruct (IH r1 eq_refl) as (Hinv1 & Hu1 & e1 & He1 & Hlen1 & Hdone).
    destruct (destroy_ue_harqs_step ue r1 n) as [r2'|] eqn:Hstep; simplify_eq/=.
    unfold destroy_ue_harqs_step in Hstep. rewrite He1 in Hstep. simpl in Hstep.
    destruct (ue_harqs e1 !! n) as [[i|]|] eqn:Hn; simplify_eq/=.
    + destruct (Hu1 ue e1 He1) as (_ & Hent & _ & _).
      apply Hent in Hn as (h & Hi & (Hst & Hue & Hid)%owner_key_Some).
      destruct (dealloc_harq_in_use r1 i h) as (e & He & _ & Heq);
        [apply Hinv1|done..|].
      rewrite Heq in Hstep. injection Hstep as <-.
      assert (e = e1) as -> by (rewrite Hue in He; congruence).
      split_and!.
      * apply dealloc_result_inv; [done..|]. by rewrite Hue.
      * eapply dealloc_harq_ue_inv; [exact Hinv1|exact Hu1|done].
      * simpl. rewrite Hue. eexists. split.
        { by rewrite list_lookup_insert_eq by (by eapply lookup_lt_Some). }
        simpl. rewrite length_insert. split; [done|]. intros k j Hk.
        destruct (decide (k = h_id h)) as [->|Hne].
        -- rewrite list_lookup_insert_eq; [done|].
           destruct Hinv1 as (_ & Ho & _).
           destruct (Ho i h Hi Hst) as (e' & He' & Hlt). rewrite Hue in He'.
           congruence.
        -- rewrite list_lookup_insert_ne by done. apply Hdone. lia.
    + split_and!; [done..|]. exists e1. split_and!; [done..|].
      intros k j Hk. destruct (decide (k = n)) as [->|Hne].
      * by rewrite Hn.
      * apply Hdone. lia.
Qed.

Lemma destroy_ue_harqs_ue_inv r B ue r' :
  repo_inv r → ue_inv r B → destroy_ue_harqs r ue = Some r' →
  ue_inv r' (λ u, if decide (u = ue) then 0 else B u).
Proof.
  intros Hinv Hu Hd. unfold destroy_ue_harqs in Hd.
  destruct (ues r !! ue) as [e0|] eqn:He0; simplify_eq/=.
  destruct (for_each _ _ r) as [r1|] eqn:Hloop; simplify_eq/=.
  destruct (destroy_ue_harqs_loop r B ue _ r1 e0 Hinv Hu He0 Hloop)
    as (Hinv1 & Hu1 & e1 & He1 & Hlen1 & Hdone).
  rewrite He1 in Hd. simplify_eq/=. unfold ue_inv. simpl.
  apply index_ok_clear; [done..|]. intros k i.
  destruct (decide (k < length (ue_harqs e0))) as [Hk|Hk].
  - by apply Hdone.
  - rewrite lookup_ge_None_2; [done|]. lia.
Qed.

(** ** The size of the pool *)

Lemma dealloc_harq_length r i r' :
  dealloc_harq r i = Some r' → length (harqs r') = length (harqs r).
Proof.
  unfold dealloc_harq. intros Hd.
  destruct (harqs r !! i) as [h|]; simplify_eq/=.
  case_decide; simplify_eq; [done|].
  destruct (ues r !! ue_idx h) as [e|]; simplify_eq/=.
  case_decide; simplify_eq. simpl. rewrite length_insert. by case_decide.
Qed.

Lemma alloc_harq_length r ue sl_tx sl_ack max_retxs res r' :
  alloc_harq r ue sl_tx sl_ack max_retxs = Some (res, r') →
  length (harqs r') = length (harqs r).
Proof.
  intros (e & He & [(_ & -> & _)|(i & hid & h & _ & _ & _ & _ & _ & ->)])%alloc_harq_Some;
    [done|].
  simpl. by rewrite length_insert.
Qed.

Lemma set_pending_retx_length r i r' :
  set_pending_retx r i = Some r' → length (harqs r') = length (harqs r).
Proof.
  unfold set_pending_retx. intros Hs.
  destruct (harqs r !! i) as [h|]; simplify_eq/=.
  destruct (status h); simplify_eq/=; [done|]. by rewrite length_insert.
Qed.

Lemma handle_ack_length r i a r' :
  handle_ack r i a = Some r' → length (harqs r') = length (harqs r).
Proof.
  unfold handle_ack. intros Hh.
  destruct (harqs r !! i) as [h|]; simplify_eq/=.
  destruct (_ || _); [by eapply dealloc_harq_length|
                       by eapply set_pending_retx_length].
Qed.

Lemma cancel_retxs_length r i r' :
  cancel_retxs r i = Some r' → length (harqs r') = length (harqs r).
Proof.
  unfold cancel_retxs. intros Hc.
  destruct (harqs r !! i) as [h|]; simplify_eq/=.
  case_decide; simplify_eq; [done|]. simpl. by rewrite length_insert.
Qed.

Lemma handle_harq_ack_timeout_length r i r' :
  handle_harq_ack_timeout r i = Some r' → length (harqs r') = length (harqs r).
Proof.
  unfold handle_harq_ack_timeout. intros Hh.
  destruct (harqs r !! i) as [h|]; simplify_eq/=.
  case_decide; [|done]. apply dealloc_harq_length in Hh. by case_decide.
Qed.

Lemma slot_indication_length r sl_tx r' :
  harq_utils.slot_indication r sl_tx = Some r' →
  length (harqs r') = length (harqs r).
Proof.
  unfold harq_utils.slot_indication. intros Hs.
  destruct (harq_timeout_wheel r !! _) as [b|]; simplify_eq/=.
  eapply (for_each_preserves (λ r0, length (harqs r0) = length (harqs r)));
    [|done..].
  intros r0 x r1 <- ?. by eapply handle_harq_ack_timeout_length.
Qed.

Lemma reserve_ue_harqs_length r ue n r' :
  reserve_ue_harqs r ue n = Some r' → length (harqs r') = length (harqs r).
Proof.
  unfold reserve_ue_harqs. intros Hr.
  by destruct (ues r !! ue) as [e|]; simplify_eq/=.
Qed.

Lemma destroy_ue_harqs_length r ue r' :
  destroy_ue_harqs r ue = Some r' → length (harqs r') = length (harqs r).
Proof.
  unfold destroy_ue_harqs. intros Hd.
  destruct (ues r !! ue) as [e|]; simplify_eq/=.
  destruct (for_each _ _ r) as [r1|] eqn:Hloop; simplify_eq/=.
  destruct (ues r1 !! ue) as [e1|]; simplify_eq/=.
  eapply (for_each_preserves (λ r0, length (harqs r0) = length (harqs r)));
    [|done..].
  intros r0 k r2 <- Hstep. unfold destroy_ue_harqs_step in Hstep.
  destruct (ues r0 !! ue) as [e0|]; simplify_eq/=.
  destruct (ue_harqs e0 !! k) as [[i|]|]; simplify_eq/=; [|done].
  by eapply dealloc_harq_length.
Qed.

Lemma capacity_set_repo d r m n :
  capacity m n → length (harqs r) = length (harqs (repo_of d m)) →
  capacity (set_repo d r m) n.
Proof. intros [??] ?. destruct d; split; simpl in *; congruence. Qed.

Section manager_capacity.
Variable SHORT_ACK_TIMEOUT_DTX : nat.

Lemma exec_capacity m o m' n :
  capacity m n → exec SHORT_ACK_TIMEOUT_DTX m o = Some m' → capacity m' n.
Proof.
  intros Hcap He. pose proof Hcap as [Hdl Hul]. destruct o; simpl in He.
  - destruct (reserve_ue_harqs _ _ _) as [r|] eqn:E; simplify_eq/=.
    apply capacity_set_repo; [done|]. by eapply reserve_ue_harqs_length.
  - destruct (alloc_harq _ _ _ _ _) as [[res r]|] eqn:E; simplify_eq/=.
    apply capacity_set_repo; [done|]. by eapply alloc_harq_length.
  - destruct (handle_ack _ _ _) as [r|] eqn:E; simplify_eq/=.
    apply capacity_set_repo; [done|]. by eapply handle_ack_length.
  - destruct (dealloc_harq _ _) as [r|] eqn:E; simplify_eq/=.
    apply capacity_set_repo; [done|]. by eapply dealloc_harq_length.
  - destruct (destroy_ue_harqs _ _) as [r|] eqn:E; simplify_eq/=.
    apply capacity_set_repo; [done|]. by eapply destroy_ue_harqs_length.
  - destruct (harq_utils.slot_indication _ _) as [r|] eqn:E; simplify_eq/=.
    apply capacity_set_repo; [done|]. by eapply slot_indication_length.
  - destruct (set_pending_retx _ _) as [r|] eqn:E; simplify_eq/=.
    apply capacity_set_repo; [done|]. by eapply set_pending_retx_length.
  - destruct (cancel_retxs _ _) as [r|] eqn:E; simplify_eq/=.
    apply capacity_set_repo; [done|]. by eapply cancel_retxs_length.
  - unfold slot_indication in He.
    destruct (harq_utils.slot_indication (dl m) _) as [dl'|] eqn:E1; simplify_eq/=.
    destruct (harq_utils.slot_indication (ul m) _) as [ul'|] eqn:E2; simplify_eq/=.
    apply slot_indication_length in E1, E2. split; simpl; congruence.
  - unfold add_ue in He. repeat case_decide; simplify_eq.
    destruct (contains m ue) as [[]|]; simplify_eq/=.
    destruct (reserve_ue_harqs (dl m) _ _) as [dl'|] eqn:E1; simplify_eq/=.
    destruct (reserve_ue_harqs (ul m) _ _) as [ul'|] eqn:E2; simplify_eq/=.
    apply reserve_ue_harqs_length in E1, E2. split; simpl; congruence.
  - unfold destroy_ue in He.
    destruct (destroy_ue_harqs (dl m) _) as [dl'|] eqn:E1; simplify_eq/=.
    destruct (destroy_ue_harqs (ul m) _) as [ul'|] eqn:E2; simplify_eq/=.
    apply destroy_ue_harqs_length in E1, E2. split; simpl; congruence.
  - destruct (new_dl_tx _ _ _ _ _ _) as [[res m1]|] eqn:E; simplify_eq/=.
    unfold new_dl_tx in E.
    destruct (alloc_harq _ _ _ _ _) as [[res0 dl']|] eqn:Ha; simplify_eq/=.
    apply alloc_harq_length in Ha.
    destruct res0 as [i|]; simplify_eq/=; [|done].
    destruct (harqs dl' !! i) as [h|]; simplify_eq/=.
    split; simpl; [rewrite length_insert; congruence|done].
  - destruct (new_ul_tx _ _ _ _) as [[res m1]|] eqn:E; simplify_eq/=.
    unfold new_ul_tx in E.
    destruct (alloc_harq _ _ _ _ _) as [[res0 ul']|] eqn:Ha; simplify_eq/=.
    apply alloc_harq_length in Ha.
    destruct res0 as [i|]; simplify_eq/=; [|done].
    destruct (harqs ul' !! i) as [h|]; simplify_eq/=.
    split; simpl; [done|rewrite length_insert; congruence].
  - destruct (dl_ack_info _ _ _ _ _) as [[res m1]|] eqn:E; simplify_eq/=.
    unfold dl_ack_info in E.
    destruct (harqs (dl m) !! i) as [h|]; simplify_eq/=.
    case_decide; simplify_eq; [done|]. case_decide.
    + destruct (handle_ack _ _ _) as [dl2|] eqn:Hh; simplify_eq/=.
      apply handle_ack_length in Hh. simpl in Hh. rewrite length_insert in Hh.
      split; simpl; [congruence|done].
    + destruct (last_sl_tx m); simplify_eq/=.
      split; simpl; [by rewrite !length_insert|done].
  - destruct (ul_crc_info _ _ _) as [[res m1]|] eqn:E; simplify_eq/=.
    unfold ul_crc_info in E.
    destruct (harqs (ul m) !! i) as [h|]; simplify_eq/=.
    case_decide; simplify_eq; [done|].
    destruct (handle_ack _ _ _) as [ul'|] eqn:Hh; simplify_eq/=.
    destruct (harqs ul' !! i); simplify_eq/=.
    apply handle_ack_length in Hh. split; simpl; [done|congruence].
Qed.

Lemma run_capacity ops m m' n :
  capacity m n → run SHORT_ACK_TIMEOUT_DTX ops m = Some m' → capacity m' n.
Proof.
  unfold run. apply (for_each_preserves (λ m, capacity m n)). intros ???.
  apply exec_capacity.
Qed.

End manager_capacity.

Lemma cell_harq_manager_init_capacity MAX max_ues W :
  capacity (cell_harq_manager_init MAX max_ues W) (MAX * max_ues).
Proof. split; simpl; by rewrite length_replicate. Qed.

(** ** Budgets along a sequence of calls *)

Lemma set_budget_same d u n B u' :
  set_budget d u n B d u' = if decide (u' = u) then n else B d u'.
Proof.
  unfold set_budget. destruct (decide (u' = u)) as [->|Hne].
  - by rewrite decide_True.
  - rewrite decide_False; [done|]. by intros [_ ?].
Qed.

Lemma set_budget_other d d' u n B u' :
  d' ≠ d → set_budget d u n B d' u' = B d' u'.
Proof. intros Hne. unfold set_budget. rewrite decide_False; [done|]. by intros [? _]. Qed.

Lemma mgr_ue_inv_repo_of d m B : mgr_ue_inv m B → ue_inv (repo_of d m) (B d).
Proof. intros [??]. by destruct d. Qed.

Lemma mgr_ue_inv_set_repo d r m B :
  mgr_ue_inv m B → ue_inv r (B d) → mgr_ue_inv (set_repo d r m) B.
Proof. intros [??] ?. by destruct d. Qed.

Lemma mgr_ue_inv_set_budget d r m B ue n :
  mgr_ue_inv m B → ue_inv r (λ u, if decide (u = ue) then n else B d u) →
  mgr_ue_inv (set_repo d r m) (set_budget d ue n B).
Proof.
  intros [Hdl Hul] Hr. destruct d; split; simpl.
  - eapply index_ok_ext; [exact Hr|]. intros u. by rewrite set_budget_same.
  - eapply index_ok_ext; [exact Hul|]. intros u. by rewrite set_budget_other.
  - eapply index_ok_ext; [exact Hdl|]. intros u. by rewrite set_budget_other.
  - eapply index_ok_ext; [exact Hr|]. intros u. by rewrite set_budget_same.
Qed.

Section manager_budgets.
Variable SHORT_ACK_TIMEOUT_DTX : nat.

Lemma exec_ue_inv m o m' B :
  mgr_inv m → mgr_ue_inv m B → fresh_reservation m o = true →
  exec SHORT_ACK_TIMEOUT_DTX m o = Some m' →
  mgr_ue_inv m' (budget_after o B).
Proof.
  intros Hinv Hu Hfresh He. pose proof Hinv as [Hdl Hul].
  pose proof Hu as [Hudl Huul]. destruct o; simpl in He, Hfresh |- *.
  - destruct (reserve_ue_harqs _ _ _) as [r|] eqn:E; simplify_eq/=.
    apply mgr_ue_inv_set_budget; [done|].
    eapply reserve_ue_harqs_ue_inv; [by apply mgr_ue_inv_repo_of| |done].
    by apply bool_decide_eq_true in Hfresh.
  - destruct (alloc_harq _ _ _ _ _) as [[res r]|] eqn:E; simplify_eq/=.
    apply mgr_ue_inv_set_repo; [done|].
    eapply alloc_harq_ue_inv;
      [by apply mgr_inv_repo_of|by apply mgr_ue_inv_repo_of|done].
  - destruct (handle_ack _ _ _) as [r|] eqn:E; simplify_eq/=.
    apply mgr_ue_inv_set_repo; [done|].
    eapply handle_ack_ue_inv;
      [by apply mgr_inv_repo_of|by apply mgr_ue_inv_repo_of|done].
  - destruct (dealloc_harq _ _) as [r|] eqn:E; simplify_eq/=.
    apply mgr_ue_inv_set_repo; [done|].
    eapply dealloc_harq_ue_inv;
      [by apply mgr_inv_repo_of|by apply mgr_ue_inv_repo_of|done].
  - destruct (destroy_ue_harqs _ _) as [r|] eqn:E; simplify_eq/=.
    apply mgr_ue_inv_set_budget; [done|].
    eapply destroy_ue_harqs_ue_inv;
      [by apply mgr_inv_repo_of|by apply mgr_ue_inv_repo_of|done].
  - destruct (harq_utils.slot_indication _ _) as [r|] eqn:E; simplify_eq/=.
    apply mgr_ue_inv_set_repo; [done|].
    eapply slot_indication_ue_inv;
      [by apply mgr_inv_repo_of|by apply mgr_ue_inv_repo_of|done].
  - destruct (set_pending_retx _ _) as [r|] eqn:E; simplify_eq/=.
    apply mgr_ue_inv_set_repo; [done|].
    eapply set_pending_retx_ue_inv; [by apply mgr_ue_inv_repo_of|done].
  - destruct (cancel_retxs _ _) as [r|] eqn:E; simplify_eq/=.
    apply mgr_ue_inv_set_repo; [done|].
    eapply cancel_retxs_ue_inv; [by apply mgr_ue_inv_repo_of|done].
  - unfold slot_indication in He.
    destruct (harq_utils.slot_indication (dl m) _) as [dl'|] eqn:E1; simplify_eq/=.
    destruct (harq_utils.slot_indication (ul m) _) as [ul'|] eqn:E2; simplify_eq/=.
    split; simpl; [exact (slot_indication_ue_inv _ _ _ _ Hdl Hudl E1)|
                   exact (slot_indication_ue_inv _ _ _ _ Hul Huul E2)].
  - apply andb_true_iff in Hfresh as [Hf1%bool_decide_eq_true Hf2%bool_decide_eq_true].
    unfold add_ue in He. repeat case_decide; simplify_eq.
    destruct (contains m ue) as [[]|]; simplify_eq/=.
    destruct (reserve_ue_harqs (dl m) _ _) as [dl'|] eqn:E1; simplify_eq/=.
    destruct (reserve_ue_harqs (ul m) _ _) as [ul'|] eqn:E2; simplify_eq/=.
    change ({| last_sl_tx := last_sl_tx m; dl := dl'; ul := ul' |})
      with (set_repo false ul' (set_repo true dl' m)).
    apply mgr_ue_inv_set_budget.
    + apply (mgr_ue_inv_set_budget true); [done|].
      by eapply reserve_ue_harqs_ue_inv.
    + eapply index_ok_ext; [by eapply reserve_ue_harqs_ue_inv|].
      intros u. simpl. by rewrite set_budget_other.
  - unfold destroy_ue in He.
    destruct (destroy_ue_harqs (dl m) _) as [dl'|] eqn:E1; simplify_eq/=.
    destruct (destroy_ue_harqs (ul m) _) as [ul'|] eqn:E2; simplify_eq/=.
    change ({| last_sl_tx := last_sl_tx m; dl := dl'; ul := ul' |})
      with (set_repo false ul' (set_repo true dl' m)).
    apply mgr_ue_inv_set_budget.
    + apply (mgr_ue_inv_set_budget true); [done|].
      exact (destroy_ue_harqs_ue_inv _ _ _ _ Hdl Hudl E1).
    + eapply index_ok_ext; [exact (destroy_ue_harqs_ue_inv _ _ _ _ Hul Huul E2)|].
      intros u. simpl. by rewrite set_budget_other.
  - destruct (new_dl_tx _ _ _ _ _ _) as [[res m1]|] eqn:E; simplify_eq/=.
    unfold new_dl_tx in E.
    destruct (alloc_harq _ _ _ _ _) as [[res0 dl']|] eqn:Ha; simplify_eq/=.
    apply alloc_harq_ue_inv with (B := B true) in Ha; [|done..].
    destruct res0 as [i|]; simplify_eq/=; [|done].
    destruct (harqs dl' !! i) as [h|] eqn:Hi; simplify_eq/=.
    split; [|done]. by eapply ue_inv_update.
  - destruct (new_ul_tx _ _ _ _) as [[res m1]|] eqn:E; simplify_eq/=.
    unfold new_ul_tx in E.
    destruct (alloc_harq _ _ _ _ _) as [[res0 ul']|] eqn:Ha; simplify_eq/=.
    apply alloc_harq_ue_inv with (B := B false) in Ha; [|done..].
    destruct res0 as [i|]; simplify_eq/=; [|done].
    destruct (harqs ul' !! i) as [h|] eqn:Hi; simplify_eq/=.
    split; [done|]. by eapply ue_inv_update.
  - destruct (dl_ack_info _ _ _ _ _) as [[res m1]|] eqn:E; simplify_eq/=.
    unfold dl_ack_info in E.
    destruct (harqs (dl m) !! i) as [h|] eqn:Hi; simplify_eq/=.
    case_decide as Hst; simplify_eq; [done|].
    pose proof (adopt_update_inv (dl m) i h ack_value pucch_snr Hdl Hi) as Hdl1.
    assert (ue_inv (set_harqs
              (<[i := if adopts h ack_value pucch_snr
                       then set_chosen ack_value pucch_snr h else h]>
                 (harqs (dl m))) (dl m)) (B true)) as Hu1.
    { eapply ue_inv_update; [done..| | |]; by destruct (adopts _ _ _). }
    set (h1 := if adopts h ack_value pucch_snr
               then set_chosen ack_value pucch_snr h else h) in *.
    case_decide.
    + destruct (handle_ack _ _ _) as [dl2|] eqn:Hh; simplify_eq/=.
      split; [|done]. by eapply handle_ack_ue_inv.
    + destruct (last_sl_tx m); simplify_eq/=. split; [|done].
      unfold ue_inv. simpl. rewrite list_insert_insert_eq.
      eapply index_ok_keep; [done..|]. unfold owner_key. simpl.
      unfold h1. by destruct (adopts _ _ _).
  - destruct (ul_crc_info _ _ _) as [[res m1]|] eqn:E; simplify_eq/=.
    unfold ul_crc_info in E.
    destruct (harqs (ul m) !! i) as [h|] eqn:Hi; simplify_eq/=.
    case_decide; simplify_eq; [done|].
    destruct (handle_ack _ _ _) as [ul'|] eqn:Hh; simplify_eq/=.
    destruct (harqs ul' !! i); simplify_eq/=.
    split; [done|]. by eapply handle_ack_ue_inv.
Qed.

Lemma run_ue_inv ops m m' B :
  mgr_inv m → mgr_ue_inv m B →
  fresh_reservations SHORT_ACK_TIMEOUT_DTX ops m = true →
  run SHORT_ACK_TIMEOUT_DTX ops m = Some m' →
  mgr_ue_inv m' (fold_left (λ B o, budget_after o B) ops B).
Proof.
  revert m B. induction ops as [|o ops IH]; intros m B Hinv Hu Hfresh Hrun.
  - unfold run in Hrun. by simplify_eq/=.
  - unfold run in Hrun. simpl in Hrun, Hfresh.
    apply andb_true_iff in Hfresh as [Hf Hfs].
    destruct (exec SHORT_ACK_TIMEOUT_DTX m o) as [m1|] eqn:He; simplify_eq/=.
    apply (IH m1); [by eapply exec_preserves|by eapply exec_ue_inv|done..].
Qed.

End manager_budgets.

Lemma cell_harq_repository_init_ue_inv MAX d max_ues W :
  ue_inv (cell_harq_repository_init MAX d max_ues W) (λ _, 0).
Proof.
  unfold ue_inv, cell_harq_repository_init. cbn [harqs ues].
  intros u e [-> _]%lookup_replicate. simpl. split_and!.
  - apply NoDup_nil_2.
  - intros k i. split.
    + by intros [? _]%lookup_replicate.
    + by intros (h & [-> _]%lookup_replicate & ?).
  - by intros k i ?%not_elem_of_nil.
  - apply filter_nil_length. intros i h [-> _]%lookup_replicate [? _]. done.
Qed.

(** * The claims *)

(** ** Pool conservation *)

Lemma nof_owned_unknown_ue r u :
  owner_ok (harqs r) (ues r) → ues r !! u = None → nof_owned r u = 0.
Proof.
  intros Ho Hu. apply filter_nil_length. intros i h Hi [Hst Hue].
  destruct (Ho i h Hi Hst) as (e & He & _). congruence.
Qed.

(** C1, as amended. After every sequence of calls on a manager built by the
    constructor, in either repository, the size of the free list plus the
    number of non-empty records equals the capacity of the pool
    ([MAX_NOF_HARQS * max_ues]); and when every reservation of process ids in
    the sequence is made for a terminal that holds no non-empty record at
    that time, the number of non-empty records of a terminal never exceeds
    the budget reserved for it. *)
Theorem pool_conservation (SHORT MAX max_ues W : nat) (ops : list op)
    (m : cell_harq_manager) (d : bool) :
  run SHORT ops (cell_harq_manager_init MAX max_ues W) = Some m →
  length (free_harqs (repo_of d m)) + nof_in_use (repo_of d m) = MAX * max_ues ∧
  (fresh_reservations SHORT ops (cell_harq_manager_init MAX max_ues W) = true →
   ∀ u, nof_owned (repo_of d m) u ≤ budget ops d u).
Proof.
  intros Hrun. pose proof (reachable_inv _ _ _ _ _ _ Hrun) as Hinv.
  split.
  - pose proof (run_capacity _ _ _ _ _
                  (cell_harq_manager_init_capacity MAX max_ues W) Hrun) as Hcap.
    apply (mgr_inv_repo_of d) in Hinv as ((_ & _ & Hlen) & _).
    unfold nof_in_use. rewrite Hlen. destruct Hcap. by destruct d.
  - intros Hfresh u.
    assert (mgr_ue_inv m (budget ops)) as Hu.
    { eapply (run_ue_inv SHORT ops _ m (λ _ _, 0)); [| |done..].
      - split; apply cell_harq_repository_init_inv.
      - split; apply cell_harq_repository_init_ue_inv. }
    apply (mgr_ue_inv_repo_of d) in Hu.
    apply (mgr_inv_repo_of d) in Hinv as (_ & Ho & _).
    destruct (ues (repo_of d m) !! u) as [e|] eqn:He.
    + destruct (Hu u e He) as (_ & _ & _ & Hcnt). unfold nof_owned. lia.
    + rewrite nof_owned_unknown_ue by done. lia.
Qed.

Lemma pool_conservation_witness :
  let ops := [op_add_ue 0 17 2 2; op_slot_indication 100;
              op_new_dl_tx 0 100 4 4 0; op_new_dl_tx 0 101 4 4 1;
              op_new_dl_tx 0 102 4 4 0; op_dl_ack_info 0 nack None;
              op_slot_indication 113; op_destroy_ue 0] in
  ∃ m, run 8 ops (cell_harq_manager_init 16 2 8) = Some m ∧
       length (free_harqs (dl m)) + nof_in_use (dl m) = 16 * 2 ∧
       ∀ u, nof_owned (dl m) u ≤ budget ops true u.
Proof.
  intros ops.
  destruct (run 8 ops (cell_harq_manager_init 16 2 8)) as [m|] eqn:Hrun;
    [|by vm_compute in Hrun].
  exists m. split; [done|].
  destruct (pool_conservation 8 16 2 8 ops m true Hrun) as [Hcons Hbudget].
  split; [exact Hcons|]. apply Hbudget. by vm_compute.
Defined.

(** C1, as stated, fails: a second reservation for a terminal whose only
    process id is in use lets the terminal hold two non-empty records against
    a budget of one. The calls of the second trace go through [add_ue], whose
    assertion lets the second admission pass. *)
Lemma pool_budget_exceeded :
  let ops := [op_reserve_ue_harqs true 0 1; op_alloc_harq true 0 100 104 4;
              op_reserve_ue_harqs true 0 1; op_alloc_harq true 0 100 104 4] in
  let ops' := [op_add_ue 0 17 1 1; op_new_dl_tx 0 100 4 4 0;
               op_add_ue 0 17 1 1; op_new_dl_tx 0 100 4 4 0] in
  (∃ m, run 8 ops (cell_harq_manager_init 16 2 8) = Some m ∧
        nof_owned (dl m) 0 = 2 ∧ budget ops true 0 = 1) ∧
  (∃ m, run 8 ops' (cell_harq_manager_init 16 2 8) = Some m ∧
        nof_owned (dl m) 0 = 2 ∧ budget ops' true 0 = 1).
Proof.
  intros ops ops'. split.
  - destruct (run 8 ops (cell_harq_manager_init 16 2 8)) as [m|] eqn:Hrun;
      [|by vm_compute in Hrun].
    exists m. split; [done|]. vm_compute in Hrun. injection Hrun as <-.
    by vm_compute.
  - destruct (run 8 ops' (cell_harq_manager_init 16 2 8)) as [m|] eqn:Hrun;
      [|by vm_compute in Hrun].
    exists m. split; [done|]. vm_compute in Hrun. injection Hrun as <-.
    by vm_compute.
Qed.

(** ** Exclusive membership *)

(** C2. In every repository state reached by a sequence of calls, a record
    waiting for an acknowledgment is in the timeout wheel and not in the
    pending list, a record pending a retransmission is in the pending list
    and not in the wheel, and an empty record is in neither. *)
Theorem exclusive_membership (SHORT MAX max_ues W : nat) (ops : list op)
    (m : cell_harq_manager) (d : bool) (i : nat) (h : harq_process) :
  run SHORT ops (cell_harq_manager_init MAX max_ues W) = Some m →
  harqs (repo_of d m) !! i = Some h →
  match status h with
  | waiting_ack =>
      in_timeout_wheel (repo_of d m) i ∧ ¬ in_pending_retx_list (repo_of d m) i
  | pending_retx =>
      in_pending_retx_list (repo_of d m) i ∧ ¬ in_timeout_wheel (repo_of d m) i
  | empty =>
      ¬ in_timeout_wheel (repo_of d m) i ∧ ¬ in_pending_retx_list (repo_of d m) i
  end.
Proof.
  intros Hrun Hi. pose proof (reachable_inv _ _ _ _ _ _ Hrun) as Hinv.
  apply (mgr_inv_repo_of d) in Hinv.
  pose proof (in_timeout_wheel_iff _ i h Hinv Hi) as Hw.
  pose proof (in_pending_retx_list_iff _ i h Hinv Hi) as Hp.
  destruct (status h); split; rewrite ?Hw, ?Hp; done.
Qed.

Lemma exclusive_membership_witness :
  let ops := [op_add_ue 0 17 2 2; op_slot_indication 100;
              op_new_dl_tx 0 100 4 4 0; op_new_dl_tx 0 101 4 4 1;
              op_dl_ack_info 0 nack None] in
  ∃ m h,
    run 8 ops (cell_harq_manager_init 16 2 8) = Some m ∧
    harqs (dl m) !! 0 = Some h ∧
    match status h with
    | waiting_ack => in_timeout_wheel (dl m) 0 ∧ ¬ in_pending_retx_list (dl m) 0
    | pending_retx => in_pending_retx_list (dl m) 0 ∧ ¬ in_timeout_wheel (dl m) 0
    | empty => ¬ in_timeout_wheel (dl m) 0 ∧ ¬ in_pending_retx_list (dl m) 0
    end.
Proof.
  intros ops.
  destruct (run 8 ops (cell_harq_manager_init 16 2 8)) as [m|] eqn:Hrun;
    [|by vm_compute in Hrun].
  destruct (harqs (dl m) !! 0) as [h|] eqn:Hh;
    [|vm_compute in Hrun; injection Hrun as <-; by vm_compute in Hh].
  exists m, h. split_and!; [done..|].
  exact (exclusive_membership 8 16 2 8 ops m true 0 h Hrun Hh).
Defined.

(** ** Reports for a record that expects none *)

(** C6. A [dl_ack_info] or [ul_crc_info] call for a record that is not
    waiting for an acknowledgment returns the error result ([error], or [-1]
    for the uplink) and leaves the manager as it was. *)
Theorem inactive_harq_report_is_error (SHORT : nat) (m : cell_harq_manager)
    (i : nat) (h : harq_process) :
  status h ≠ waiting_ack →
  (harqs (dl m) !! i = Some h →
   ∀ a s, dl_ack_info SHORT m i a s = Some (error, m)) ∧
  (harqs (ul m) !! i = Some h →
   ∀ a, ul_crc_info m i a = Some ((-1)%Z, m)).
Proof.
  intros Hst. split; intros Hi *.
  - unfold dl_ack_info. rewrite Hi. simpl. by rewrite decide_True.
  - unfold ul_crc_info. rewrite Hi. simpl. by rewrite decide_True.
Qed.

Lemma inactive_harq_report_is_error_witness :
  let m := cell_harq_manager_init 16 2 8 in
  status harq_process_default ≠ waiting_ack ∧
  dl_ack_info 8 m 3 ack (Some (5#1)%Q) = Some (error, m) ∧
  ul_crc_info m 3 true = Some ((-1)%Z, m).
Proof.
  intros m. assert (status harq_process_default ≠ waiting_ack) as Hst by done.
  split; [exact Hst|].
  destruct (inactive_harq_report_is_error 8 m 3 harq_process_default Hst)
    as [Hdl Hul].
  split; [by apply Hdl|by apply Hul].
Defined.

(** ** Allocation when a free list is exhausted *)

(** C8. On a repository that satisfies the invariants, for a terminal of
    [ues] whose free process ids lie within its index, [alloc_harq] returns a
    result, which is empty exactly when the free list of the pool or the free
    process ids of the terminal are empty, and then the repository is
    unchanged; the same holds of [alloc_dl_harq] and [alloc_ul_harq] of the
    handle. *)
Theorem alloc_fails_iff_exhausted (m : cell_harq_manager) (d : bool)
    (ue : nat) (e : ue_harq_entity_impl) (sl_tx sl_ack k1 max_retxs bit_idx : nat) :
  mgr_inv m → ues (repo_of d m) !! ue = Some e →
  Forall (λ k, k < length (ue_harqs e)) (free_harq_ids e) →
  let exhausted := free_harqs (repo_of d m) = [] ∨ free_harq_ids e = [] in
  (∃ res r', alloc_harq (repo_of d m) ue sl_tx sl_ack max_retxs = Some (res, r') ∧
             (res = None ↔ exhausted) ∧ (res = None → r' = repo_of d m)) ∧
  (∃ res m', (if d then alloc_dl_harq m ue sl_tx k1 max_retxs bit_idx
              else alloc_ul_harq m ue sl_tx max_retxs) = Some (res, m') ∧
             (res = None ↔ exhausted) ∧ (res = None → m' = m)).
Proof.
  intros Hinv He Hrange exhausted.
  assert (∀ sl_ack', ∃ res r',
            alloc_harq (repo_of d m) ue sl_tx sl_ack' max_retxs = Some (res, r') ∧
            (res = None ↔ exhausted) ∧ (res = None → r' = repo_of d m) ∧
            (∀ i, res = Some i → i < length (harqs r'))) as Halloc.
  { intros sl_ack'.
    destruct (list.last (free_harqs (repo_of d m))) as [i|] eqn:Hf; cycle 1.
    { apply last_None in Hf. exists None, (repo_of d m).
      split_and!; [|by split; [left|]|done..].
      eapply alloc_harq_exhausted; [done|by left]. }
    destruct (list.last (free_harq_ids e)) as [hid|] eqn:Hid; cycle 1.
    { apply last_None in Hid. exists None, (repo_of d m).
      split_and!; [|by split; [right|]|done..].
      eapply alloc_harq_exhausted; [done|by right]. }
    apply (mgr_inv_repo_of d) in Hinv as ((_ & Hfree & _) & _).
    destruct (Hfree i) as (h & Hi & _).
    { rewrite (last_Some_snoc _ _ Hf). apply elem_of_snoc_r. }
    assert (hid < length (ue_harqs e)) as Hlt.
    { eapply (proj1 (list.Forall_forall _ _) Hrange).
      rewrite (last_Some_snoc _ _ Hid). apply elem_of_snoc_r. }
    eexists (Some i), _. split_and!.
    - by eapply alloc_harq_available.
    - split; [done|]. unfold exhausted. intros [Hnil|Hnil].
      + by rewrite Hnil in Hf.
      + by rewrite Hnil in Hid.
    - done.
    - intros ? [= <-]. simpl. rewrite length_insert. by eapply lookup_lt_Some. }
  split.
  - destruct (Halloc sl_ack) as (res & r' & Ha & Hres & Hsame & _). eauto.
  - destruct d; simpl in *.
    + destruct (Halloc (sl_tx + k1)) as (res & r' & Ha & Hres & Hsame & Hlt).
      unfold alloc_dl_harq, new_dl_tx. rewrite Ha. simpl.
      destruct res as [i|]; [|by exists None, m].
      destruct (lookup_lt_is_Some_2 _ _ (Hlt i eq_refl)) as [h Hh].
      rewrite Hh. simpl. eexists (Some i), _. split_and!; [done| |done].
      rewrite <-Hres. done.
    + destruct (Halloc sl_tx) as (res & r' & Ha & Hres & Hsame & Hlt).
      unfold alloc_ul_harq, new_ul_tx. rewrite Ha. simpl.
      destruct res as [i|]; [|by exists None, m].
      destruct (lookup_lt_is_Some_2 _ _ (Hlt i eq_refl)) as [h Hh].
      rewrite Hh. simpl. eexists (Some i), _. split_and!; [done| |done].
      rewrite <-Hres. done.
Qed.

Lemma alloc_fails_iff_exhausted_witness :
  let ops := [op_add_ue 0 17 1 1; op_slot_indication 100;
              op_new_dl_tx 0 100 4 4 0] in
  ∃ m e, run 8 ops (cell_harq_manager_init 16 2 8) = Some m ∧
         ues (dl m) !! 0 = Some e ∧ free_harq_ids e = [] ∧
         alloc_harq (dl m) 0 101 105 4 = Some (None, dl m) ∧
         alloc_dl_harq m 0 101 4 4 0 = Some (None, m).
Proof.
  intros ops.
  destruct (run 8 ops (cell_harq_manager_init 16 2 8)) as [m|] eqn:Hrun;
    [|by vm_compute in Hrun].
  destruct (ues (dl m) !! 0) as [e|] eqn:He;
    [|vm_compute in Hrun; injection Hrun as <-; by vm_compute in He].
  assert (free_harq_ids e = []) as Hnil.
  { vm_compute in Hrun. injection Hrun as <-. vm_compute in He.
    injection He as <-. reflexivity. }
  assert (Forall (λ k, k < length (ue_harqs e)) (free_harq_ids e)) as Hrange.
  { rewrite Hnil. apply Forall_nil_2. }
  destruct (alloc_fails_iff_exhausted m true 0 e 101 105 4 4 0
              (reachable_inv _ _ _ _ _ _ Hrun) He Hrange)
    as [(res & r' & Ha & Hres & Hsame) (res' & m' & Ha' & Hres' & Hsame')].
  exists m, e. split_and!; [done..| |].
  - assert (res = None) as -> by (apply Hres; by right).
    by rewrite (Hsame eq_refl) in Ha.
  - assert (res' = None) as -> by (apply Hres'; by right).
    by rewrite (Hsame' eq_refl) in Ha'.
Defined.

(** ** Admission of a terminal that is already admitted *)

Lemma add_ue_duplicate_detected m ue crnti ndl nul :
  contains m ue = Some true → add_ue m ue crnti ndl nul = None.
Proof. intros Hc. unfold add_ue. repeat case_decide; [|done..]. by rewrite Hc. Qed.

(** C9 fails on the code. The assertion of [add_ue] takes a terminal for
    admitted while it has a free downlink process id ([contains]); once the
    terminal has all its downlink process ids in use, a second [add_ue] with
    the same index passes the assertion. *)
Theorem add_ue_duplicate_undetected :
  let m0 := cell_harq_manager_init 16 2 8 in
  ∃ m1 m2 m3,
    add_ue m0 0 17 1 1 = Some m1 ∧
    new_dl_tx m1 0 100 4 4 0 = Some (Some 0, m2) ∧
    contains m2 0 = Some false ∧
    add_ue m2 0 17 1 1 = Some m3.
Proof.
  intros m0. eexists _, _, _. split_and!.
  - vm_compute; reflexivity.
  - vm_compute; reflexivity.
  - vm_compute; reflexivity.
  - vm_compute; reflexivity.
Qed.

(** ** The new-data indicator *)

Lemma dealloc_harq_ndi r i r' j :
  dealloc_harq r i = Some r' →
  ndi <$> harqs r' !! j = ndi <$> harqs r !! j.
Proof.
  unfold dealloc_harq. intros Hd.
  destruct (harqs r !! i) as [h|] eqn:Hi; simplify_eq/=.
  case_decide; simplify_eq; [done|].
  destruct (ues r !! ue_idx h) as [e|]; simplify_eq/=.
  case_decide; simplify_eq. simpl.
  assert (∀ hs, hs = harqs r →
            ndi <$> <[i:=set_status empty h]> hs !! j = ndi <$> harqs r !! j)
    as Hgen.
  { intros hs ->. destruct (decide (j = i)) as [->|Hne].
    - rewrite list_lookup_insert_eq by (by eapply lookup_lt_Some).
      by rewrite Hi.
    - by rewrite list_lookup_insert_ne. }
  apply Hgen. by case_decide.
Qed.

Lemma destroy_ue_harqs_ndi r ue r' j :
  destroy_ue_harqs r ue = Some r' →
  ndi <$> harqs r' !! j = ndi <$> harqs r !! j.
Proof.
  unfold destroy_ue_harqs. intros Hd.
  destruct (ues r !! ue) as [e|]; simplify_eq/=.
  destruct (for_each _ _ r) as [r1|] eqn:Hloop; simplify_eq/=.
  destruct (ues r1 !! ue) as [e1|]; simplify_eq/=.
  eapply (for_each_preserves
            (λ r0, ndi <$> harqs r0 !! j = ndi <$> harqs r !! j)); [|done..].
  intros r0 k r2 <- Hstep. unfold destroy_ue_harqs_step in Hstep.
  destruct (ues r0 !! ue) as [e0|]; simplify_eq/=.
  destruct (ue_harqs e0 !! k) as [[i|]|]; simplify_eq/=; [|done].
  by eapply dealloc_harq_ndi.
Qed.

(** C10. [alloc_harq] gives the record it hands out the negation of the
    new-data indicator stored in that pool record; [dealloc_harq] and
    [destroy_ue_harqs] leave the indicator of every pool record as it is; and
    two successive allocations of the same process id of the same terminal
    can come out with the same indicator. *)
Theorem ndi_follows_pool_record :
  (∀ r ue sl_tx sl_ack max_retxs i r',
     alloc_harq r ue sl_tx sl_ack max_retxs = Some (Some i, r') →
     ∃ h h', harqs r !! i = Some h ∧ harqs r' !! i = Some h' ∧
             ndi h' = negb (ndi h)) ∧
  (∀ r i r' j,
     dealloc_harq r i = Some r' →
     ndi <$> harqs r' !! j = ndi <$> harqs r !! j) ∧
  (∀ r ue r' j,
     destroy_ue_harqs r ue = Some r' →
     ndi <$> harqs r' !! j = ndi <$> harqs r !! j) ∧
  (let m0 := cell_harq_manager_init 16 2 8 in
   ∃ m1 m2 m3 m4 i1 i2 h1 h2,
     run 8 [op_add_ue 0 17 1 1; op_add_ue 1 18 2 2; op_slot_indication 100] m0
       = Some m1 ∧
     new_dl_tx m1 0 100 4 4 0 = Some (Some i1, m2) ∧
     harqs (dl m2) !! i1 = Some h1 ∧
     run 8 [op_new_dl_tx 1 100 4 4 1; op_dl_ack_info i1 ack None;
            op_new_dl_tx 1 101 4 4 0] m2 = Some m3 ∧
     new_dl_tx m3 0 102 4 4 0 = Some (Some i2, m4) ∧
     harqs (dl m4) !! i2 = Some h2 ∧
     ue_idx h1 = 0 ∧ h_id h1 = 0 ∧ ue_idx h2 = 0 ∧ h_id h2 = 0 ∧
     ndi h2 = ndi h1).
Proof.
  split_and!.
  - intros * (e & He & [(? & _)|(i0 & hid & h & [= <-] & _ & _ & _ & Hi & ->)])%alloc_harq_Some;
      [done|].
    exists h. eexists. split_and!; [done| |].
    + simpl. by rewrite list_lookup_insert_eq by (by eapply lookup_lt_Some).
    + done.
  - intros *. apply dealloc_harq_ndi.
  - intros *. apply destroy_ue_harqs_ndi.
  - intros m0. eexists _, _, _, _, _, _, _, _. split_and!.
    + vm_compute; reflexivity.
    + vm_compute; reflexivity.
    + vm_compute; reflexivity.
    + vm_compute; reflexivity.
    + vm_compute; reflexivity.
    + vm_compute; reflexivity.
    + vm_compute; reflexivity.
    + vm_compute; reflexivity.
    + vm_compute; reflexivity.
    + vm_compute; reflexivity.
    + vm_compute; reflexivity.
Qed.

Lemma ndi_follows_pool_record_witness :
  ∃ r r' h h',
    reserve_ue_harqs (cell_harq_repository_init 16 true 2 8) 0 1 = Some r ∧
    alloc_harq r 0 100 104 4 = Some (Some 0, r') ∧
    harqs r !! 0 = Some h ∧ harqs r' !! 0 = Some h' ∧ ndi h' = negb (ndi h).
Proof.
  destruct ndi_follows_pool_record as (Halloc & _).
  destruct (reserve_ue_harqs (cell_harq_repository_init 16 true 2 8) 0 1)
    as [r|] eqn:Hr; [|by vm_compute in Hr].
  destruct (alloc_harq r 0 100 104 4) as [[[i|] r']|] eqn:Ha;
    [|vm_compute in Hr; injection Hr as <-; by vm_compute in Ha..].
  assert (i = 0) as ->.
  { vm_compute in Hr. injection Hr as <-. vm_compute in Ha. congruence. }
  destruct (Halloc _ _ _ _ _ _ _ Ha) as (h & h' & Hh & Hh' & Hndi).
  by exists r, r', h, h'.
Defined.

(** ** Properties of the records that every call keeps *)

Section record_invariant.
Variable P : harq_process → Prop.
Hypothesis P_set_status : ∀ s h, P h → P (set_status s h).
Hypothesis P_set_alloc_params :
  ∀ ue hid sl_tx sl_ack timeout max_retxs h,
    P (set_alloc_params ue hid sl_tx sl_ack timeout max_retxs h).
Hypothesis P_set_retxs_cancelled : ∀ h, P h → P (set_retxs_cancelled h).
Hypothesis P_set_chosen : ∀ a s h, P h → P (set_chosen a s h).
Hypothesis P_await_next_pucch : ∀ t h, P h → P (await_next_pucch t h).
Hypothesis P_seed_dl_params : ∀ b h, P h → P (seed_dl_params b h).
Hypothesis P_seed_ul_params : ∀ h, P h → P (seed_ul_params h).
Variable SHORT_ACK_TIMEOUT_DTX : nat.

Local Abbreviation records_ok := (all_records P).

Lemma records_ok_insert r i h :
  records_ok r → P h → records_ok (set_harqs (<[i:=h]> (harqs r)) r).
Proof. intros Hr Hh. unfold all_records. simpl. by apply Forall_insert. Qed.

Lemma records_ok_lookup r i h : records_ok r → harqs r !! i = Some h → P h.
Proof. intros Hr Hi. by eapply Forall_lookup_1. Qed.

Lemma dealloc_harq_records r i r' :
  records_ok r → dealloc_harq r i = Some r' → records_ok r'.
Proof.
  unfold dealloc_harq. intros Hr Hd.
  destruct (harqs r !! i) as [h|] eqn:Hi; simplify_eq/=.
  case_decide; simplify_eq; [done|].
  destruct (ues r !! ue_idx h) as [e|]; simplify_eq/=.
  case_decide; simplify_eq. unfold all_records. simpl.
  assert (Forall P (<[i:=set_status empty h]> (harqs r))) as Hall.
  { apply Forall_insert; [done|]. apply P_set_status.
    by eapply records_ok_lookup. }
  by case_decide.
Qed.

Lemma alloc_harq_records r ue sl_tx sl_ack max_retxs res r' :
  records_ok r → alloc_harq r ue sl_tx sl_ack max_retxs = Some (res, r') →
  records_ok r'.
Proof.
  intros Hr (e & He & [(_ & -> & _)|(i & hid & h & _ & _ & _ & _ & _ & ->)])%alloc_harq_Some;
    [done|].
  unfold all_records. simpl. by apply Forall_insert.
Qed.

Lemma set_pending_retx_records r i r' :
  records_ok r → set_pending_retx r i = Some r' → records_ok r'.
Proof.
  unfold set_pending_retx. intros Hr Hs.
  destruct (harqs r !! i) as [h|] eqn:Hi; simplify_eq/=.
  destruct (status h); simplify_eq/=; [done|].
  unfold all_records. simpl. apply Forall_insert; [done|].
  apply P_set_status. by eapply records_ok_lookup.
Qed.

Lemma handle_ack_records r i a r' :
  records_ok r → handle_ack r i a = Some r' → records_ok r'.
Proof.
  unfold handle_ack. intros Hr Hh.
  destruct (harqs r !! i) as [h|]; simplify_eq/=.
  destruct (_ || _); [by eapply dealloc_harq_records|
                       by eapply set_pending_retx_records].
Qed.

Lemma cancel_retxs_records r i r' :
  records_ok r → cancel_retxs r i = Some r' → records_ok r'.
Proof.
  unfold cancel_retxs. intros Hr Hc.
  destruct (harqs r !! i) as [h|] eqn:Hi; simplify_eq/=.
  case_decide; simplify_eq; [done|]. apply records_ok_insert; [done|].
  apply P_set_retxs_cancelled. by eapply records_ok_lookup.
Qed.

Lemma slot_indication_records r sl_tx r' :
  records_ok r → harq_utils.slot_indication r sl_tx = Some r' → records_ok r'.
Proof.
  unfold harq_utils.slot_indication. intros Hr Hs.
  destruct (harq_timeout_wheel r !! _) as [b|]; simplify_eq/=.
  eapply (for_each_preserves records_ok); [|done..].
  intros r0 x r1 Hr0 Hh. unfold handle_harq_ack_timeout in Hh.
  destruct (harqs r0 !! x) as [h|]; simplify_eq/=.
  case_decide; [|done]. eapply dealloc_harq_records; [|done]. by case_decide.
Qed.

Lemma reserve_ue_harqs_records r ue n r' :
  records_ok r → reserve_ue_harqs r ue n = Some r' → records_ok r'.
Proof.
  unfold reserve_ue_harqs. intros Hr Hres.
  by destruct (ues r !! ue) as [e|]; simplify_eq/=.
Qed.

Lemma destroy_ue_harqs_records r ue r' :
  records_ok r → destroy_ue_harqs r ue = Some r' → records_ok r'.
Proof.
  unfold destroy_ue_harqs. intros Hr Hd.
  destruct (ues r !! ue) as [e|]; simplify_eq/=.
  destruct (for_each _ _ r) as [r1|] eqn:Hloop; simplify_eq/=.
  destruct (ues r1 !! ue) as [e1|]; simplify_eq/=.
  assert (records_ok r1) as Hr1; [|exact Hr1].
  eapply (for_each_preserves records_ok); [|done..].
  intros r0 k r2 Hr0 Hstep. unfold destroy_ue_harqs_step in Hstep.
  destruct (ues r0 !! ue) as [e0|]; simplify_eq/=.
  destruct (ue_harqs e0 !! k) as [[i|]|]; simplify_eq/=; [|done].
  by eapply dealloc_harq_records.
Qed.

Lemma exec_records m o m' :
  records_ok (dl m) ∧ records_ok (ul m) →
  exec SHORT_ACK_TIMEOUT_DTX m o = Some m' →
  records_ok (dl m') ∧ records_ok (ul m').
Proof.
  intros [Hdl Hul] He.
  assert (∀ d, records_ok (repo_of d m)) as Hd by (by intros []).
  assert (∀ d r, records_ok r →
            records_ok (dl (set_repo d r m)) ∧ records_ok (ul (set_repo d r m)))
    as Hset by (intros [] ??; split; simpl; done).
  destruct o; simpl in He.
  - destruct (reserve_ue_harqs _ _ _) as [r|] eqn:E; simplify_eq/=.
    apply Hset. eapply reserve_ue_harqs_records; [apply Hd|done].
  - destruct (alloc_harq _ _ _ _ _) as [[res r]|] eqn:E; simplify_eq/=.
    apply Hset. eapply alloc_harq_records; [apply Hd|done].
  - destruct (handle_ack _ _ _) as [r|] eqn:E; simplify_eq/=.
    apply Hset. eapply handle_ack_records; [apply Hd|done].
  - destruct (dealloc_harq _ _) as [r|] eqn:E; simplify_eq/=.
    apply Hset. eapply dealloc_harq_records; [apply Hd|done].
  - destruct (destroy_ue_harqs _ _) as [r|] eqn:E; simplify_eq/=.
    apply Hset. eapply destroy_ue_harqs_records; [apply Hd|done].
  - destruct (harq_utils.slot_indication _ _) as [r|] eqn:E; simplify_eq/=.
    apply Hset. eapply slot_indication_records; [apply Hd|done].
  - destruct (set_pending_retx _ _) as [r|] eqn:E; simplify_eq/=.
    apply Hset. eapply set_pending_retx_records; [apply Hd|done].
  - destruct (cancel_retxs _ _) as [r|] eqn:E; simplify_eq/=.
    apply Hset. eapply cancel_retxs_records; [apply Hd|done].
  - unfold slot_indication in He.
    destruct (harq_utils.slot_indication (dl m) _) as [dl'|] eqn:E1; simplify_eq/=.
    destruct (harq_utils.slot_indication (ul m) _) as [ul'|] eqn:E2; simplify_eq/=.
    split; [exact (slot_indication_records _ _ _ Hdl E1)|
            exact (slot_indication_records _ _ _ Hul E2)].
  - unfold add_ue in He. repeat case_decide; simplify_eq.
    destruct (contains m ue) as [[]|]; simplify_eq/=.
    destruct (reserve_ue_harqs (dl m) _ _) as [dl'|] eqn:E1; simplify_eq/=.
    destruct (reserve_ue_harqs (ul m) _ _) as [ul'|] eqn:E2; simplify_eq/=.
    split; [exact (reserve_ue_harqs_records _ _ _ _ Hdl E1)|
            exact (reserve_ue_harqs_records _ _ _ _ Hul E2)].
  - unfold destroy_ue in He.
    destruct (destroy_ue_harqs (dl m) _) as [dl'|] eqn:E1; simplify_eq/=.
    destruct (destroy_ue_harqs (ul m) _) as [ul'|] eqn:E2; simplify_eq/=.
    split; [exact (destroy_ue_harqs_records _ _ _ Hdl E1)|
            exact (destroy_ue_harqs_records _ _ _ Hul E2)].
  - destruct (new_dl_tx _ _ _ _ _ _) as [[res m1]|] eqn:E; simplify_eq/=.
    unfold new_dl_tx in E.
    destruct (alloc_harq _ _ _ _ _) as [[res0 dl']|] eqn:Ha; simplify_eq/=.
    apply alloc_harq_records in Ha; [|done].
    destruct res0 as [i|]; simplify_eq/=; [|done].
    destruct (harqs dl' !! i) as [h|] eqn:Hi; simplify_eq/=.
    split; [|done]. apply records_ok_insert; [done|].
    apply P_seed_dl_params. by eapply records_ok_lookup.
  - destruct (new_ul_tx _ _ _ _) as [[res m1]|] eqn:E; simplify_eq/=.
    unfold new_ul_tx in E.
    destruct (alloc_harq _ _ _ _ _) as [[res0 ul']|] eqn:Ha; simplify_eq/=.
    apply alloc_harq_records in Ha; [|done].
    destruct res0 as [i|]; simplify_eq/=; [|done].
    destruct (harqs ul' !! i) as [h|] eqn:Hi; simplify_eq/=.
    split; [done|]. apply records_ok_insert; [done|].
    apply P_seed_ul_params. by eapply records_ok_lookup.
  - destruct (dl_ack_info _ _ _ _ _) as [[res m1]|] eqn:E; simplify_eq/=.
    unfold dl_ack_info in E.
    destruct (harqs (dl m) !! i) as [h|] eqn:Hi; simplify_eq/=.
    case_decide as Hst; simplify_eq; [done|].
    assert (P (if adopts h ack_value pucch_snr
               then set_chosen ack_value pucch_snr h else h)) as Hh1.
    { pose proof (records_ok_lookup _ _ _ Hdl Hi).
      destruct (adopts _ _ _); [by apply P_set_chosen|done]. }
    case_decide.
    + destruct (handle_ack _ _ _) as [dl2|] eqn:Hh; simplify_eq/=.
      split; [|done]. eapply handle_ack_records; [|done].
      by apply records_ok_insert.
    + destruct (last_sl_tx m); simplify_eq/=. split; [|done].
      unfold all_records. simpl. apply Forall_insert.
      * by apply Forall_insert.
      * by apply P_await_next_pucch.
  - destruct (ul_crc_info _ _ _) as [[res m1]|] eqn:E; simplify_eq/=.
    unfold ul_crc_info in E.
    destruct (harqs (ul m) !! i) as [h|] eqn:Hi; simplify_eq/=.
    case_decide; simplify_eq; [done|].
    destruct (handle_ack _ _ _) as [ul'|] eqn:Hh; simplify_eq/=.
    destruct (harqs ul' !! i); simplify_eq/=.
    split; [done|]. by eapply handle_ack_records.
Qed.

Lemma run_records ops m m' :
  records_ok (dl m) ∧ records_ok (ul m) →
  run SHORT_ACK_TIMEOUT_DTX ops m = Some m' →
  records_ok (dl m') ∧ records_ok (ul m').
Proof.
  unfold run.
  apply (for_each_preserves (λ m, records_ok (dl m) ∧ records_ok (ul m))).
  intros ???. apply exec_records.
Qed.

End record_invariant.

(** ** Acknowledgments and the retry budget *)

Lemma retxs_within_budget (SHORT MAX max_ues W : nat) ops m d i h :
  run SHORT ops (cell_harq_manager_init MAX max_ues W) = Some m →
  harqs (repo_of d m) !! i = Some h →
  nof_retxs h ≤ max_nof_harq_retxs h.
Proof.
  intros Hrun Hi.
  assert (all_records (λ h, nof_retxs h ≤ max_nof_harq_retxs h) (dl m) ∧
          all_records (λ h, nof_retxs h ≤ max_nof_harq_retxs h) (ul m))
    as [Hdl Hul].
  { eapply (run_records (λ h, nof_retxs h ≤ max_nof_harq_retxs h));
      [..|exact Hrun]; simpl; try done; try lia.
    split; unfold all_records; simpl; apply Forall_replicate; simpl; lia. }
  destruct d; simpl in Hi;
    [exact (Forall_lookup_1 _ _ _ _ Hdl Hi)|exact (Forall_lookup_1 _ _ _ _ Hul Hi)].
Qed.

(** C4. For a record waiting for an acknowledgment, in a repository that
    satisfies the invariants: [handle_ack] with a positive acknowledgment, or
    with the retransmissions at their maximum, deallocates the record, whose
    status is then [empty]; with a negative acknowledgment below the maximum
    it takes the record out of its bucket of the timeout wheel, puts it at
    the head of the pending list and sets its status to [pending_retx],
    leaving its counts as they are, so that a record only becomes pending
    with its retransmissions strictly below the maximum. [handle_ack] keeps
    the retransmissions of every record within their maximum, whatever the
    counts are; and after every sequence of calls no record has more
    retransmissions than its maximum. *)
Theorem retry_budget_enforcement :
  (∀ r i h a,
     repo_inv r → harqs r !! i = Some h → status h = waiting_ack →
     (a = true ∨ max_nof_harq_retxs h ≤ nof_retxs h →
      ∃ r' h', handle_ack r i a = Some r' ∧ dealloc_harq r i = Some r' ∧
            harqs r' !! i = Some h' ∧ h' = set_status empty h ∧
            status h' = empty ∧
            nof_retxs h' = nof_retxs h ∧
            max_nof_harq_retxs h' = max_nof_harq_retxs h ∧
            free_harqs r' = free_harqs r ++ [i] ∧
            harq_pending_retx_list r' = harq_pending_retx_list r ∧
            ¬ in_timeout_wheel r' i ∧ ¬ in_pending_retx_list r' i) ∧
     (a = false → nof_retxs h < max_nof_harq_retxs h →
      ∃ r' h', handle_ack r i a = Some r' ∧
            harqs r' !! i = Some h' ∧ h' = set_status pending_retx h ∧
            status h' = pending_retx ∧
            nof_retxs h' = nof_retxs h ∧
            max_nof_harq_retxs h' = max_nof_harq_retxs h ∧
            nof_retxs h' < max_nof_harq_retxs h' ∧
            free_harqs r' = free_harqs r ∧
            harq_timeout_wheel r'
            = wheel_at (pop i) (slot_ack_timeout h) (harq_timeout_wheel r) ∧
            harq_pending_retx_list r'
            = push_front i (harq_pending_retx_list r) ∧
            in_pending_retx_list r' i ∧ ¬ in_timeout_wheel r' i) ∧
     (∀ r' h', handle_ack r i a = Some r' → harqs r' !! i = Some h' →
               status h' = pending_retx →
               a = false ∧ nof_retxs h' < max_nof_harq_retxs h')) ∧
  (∀ r i a r',
     all_records (λ h, nof_retxs h ≤ max_nof_harq_retxs h) r →
     handle_ack r i a = Some r' →
     all_records (λ h, nof_retxs h ≤ max_nof_harq_retxs h) r') ∧
  (∀ SHORT MAX max_ues W ops m d i h,
     run SHORT ops (cell_harq_manager_init MAX max_ues W) = Some m →
     harqs (repo_of d m) !! i = Some h →
     nof_retxs h ≤ max_nof_harq_retxs h).
Proof.
  split_and!; [| |apply retxs_within_budget].
  - intros r i h a Hinv Hi Hst.
    assert (i < length (harqs r)) as Hlt by (by eapply lookup_lt_Some).
    assert (a = true ∨ max_nof_harq_retxs h ≤ nof_retxs h →
            ∃ r', handle_ack r i a = Some r' ∧ dealloc_harq r i = Some r' ∧
              repo_inv r' ∧ harqs r' !! i = Some (set_status empty h) ∧
              free_harqs r' = free_harqs r ++ [i] ∧
              harq_pending_retx_list r' = harq_pending_retx_list r) as Hrel.
    { intros Hcond.
      assert (handle_ack r i a = dealloc_harq r i) as Heq.
      { unfold handle_ack. rewrite Hi. simpl.
        destruct Hcond as [-> | Hmax]; [done|].
        by rewrite bool_decide_eq_true_2, orb_true_r. }
      destruct (dealloc_harq_in_use r i h) as (e & He & _ & Hd);
        [apply Hinv|done|by rewrite Hst|].
      pose proof (dealloc_result_inv r i h e Hinv Hi) as Hinv'.
      rewrite Hst in Hinv'. specialize (Hinv' ltac:(done) He).
      eexists. split_and!; [by rewrite Heq|done|done| |done|].
      - simpl. by rewrite list_lookup_insert_eq.
      - simpl. by rewrite Hst. }
    assert (a = false → nof_retxs h < max_nof_harq_retxs h →
            ∃ r', handle_ack r i a = Some r' ∧ repo_inv r' ∧
              harqs r' !! i = Some (set_status pending_retx h) ∧
              free_harqs r' = free_harqs r ∧
              harq_timeout_wheel r'
              = wheel_at (pop i) (slot_ack_timeout h) (harq_timeout_wheel r) ∧
              harq_pending_retx_list r'
              = push_front i (harq_pending_retx_list r)) as Hpend.
    { intros -> Hbelow.
      assert (handle_ack r i false = set_pending_retx r i) as Heq.
      { unfold handle_ack. rewrite Hi. simpl.
        rewrite bool_decide_eq_false_2; [done|lia]. }
      destruct (set_pending_retx r i) as [r'|] eqn:Hs;
        [|unfold set_pending_retx in Hs; rewrite Hi in Hs; simpl in Hs;
          by rewrite Hst in Hs].
      pose proof (set_pending_retx_preserves r i r' Hinv Hs) as Hinv'.
      unfold set_pending_retx in Hs. rewrite Hi in Hs. simpl in Hs.
      rewrite Hst in Hs. injection Hs as <-.
      eexists. split_and!; [by rewrite Heq|done| |done..].
      simpl. by rewrite list_lookup_insert_eq. }
    split_and!.
    + intros Hcond.
      destruct (Hrel Hcond) as (r' & Hh & Hd & Hinv' & Hi' & Hf & Hp).
      exists r', (set_status empty h).
      split_and!; [done..| |].
      * by rewrite (in_timeout_wheel_iff _ _ _ Hinv' Hi').
      * by rewrite (in_pending_retx_list_iff _ _ _ Hinv' Hi').
    + intros Ha Hbelow.
      destruct (Hpend Ha Hbelow) as (r' & Hh & Hinv' & Hi' & Hf & Hw & Hp).
      exists r', (set_status pending_retx h).
      split_and!; [done..| |].
      * by rewrite (in_pending_retx_list_iff _ _ _ Hinv' Hi').
      * by rewrite (in_timeout_wheel_iff _ _ _ Hinv' Hi').
    + intros r' h' Hh Hi' Hpending.
      destruct (decide (a = true ∨ max_nof_harq_retxs h ≤ nof_retxs h))
        as [Hcond|Hcond].
      * destruct (Hrel Hcond) as (r1 & Hh1 & _ & _ & Hi1 & _).
        rewrite Hh in Hh1. injection Hh1 as <-.
        rewrite Hi' in Hi1. injection Hi1 as ->. done.
      * assert (a = false) as -> by (destruct a; [by destruct Hcond; left|done]).
        assert (nof_retxs h < max_nof_harq_retxs h) as Hbelow by lia.
        destruct (Hpend eq_refl Hbelow) as (r1 & Hh1 & _ & Hi1 & _).
        rewrite Hh in Hh1. injection Hh1 as <-.
        rewrite Hi' in Hi1. injection Hi1 as ->. done.
  - intros r i a r'.
    apply (handle_ack_records (λ h, nof_retxs h ≤ max_nof_harq_retxs h)).
    by intros s h.
Qed.

Lemma retry_budget_enforcement_witness :
  let ops := [op_add_ue 0 17 2 2; op_slot_indication 100;
              op_new_dl_tx 0 100 4 1 0] in
  ∃ m h r1 r2,
    run 8 ops (cell_harq_manager_init 16 2 8) = Some m ∧
    harqs (dl m) !! 0 = Some h ∧ status h = waiting_ack ∧
    nof_retxs h < max_nof_harq_retxs h ∧
    handle_ack (dl m) 0 true = Some r1 ∧
    status <$> harqs r1 !! 0 = Some empty ∧
    handle_ack (dl m) 0 false = Some r2 ∧
    status <$> harqs r2 !! 0 = Some pending_retx ∧
    harq_pending_retx_list r2 = 0 :: harq_pending_retx_list (dl m) ∧
    all_records (λ h, nof_retxs h ≤ max_nof_harq_retxs h) r2 ∧
    nof_retxs h ≤ max_nof_harq_retxs h.
Proof.
  intros ops. destruct retry_budget_enforcement as (Hack & Hkeep & Hbudget).
  destruct (run 8 ops (cell_harq_manager_init 16 2 8)) as [m|] eqn:Hrun;
    [|by vm_compute in Hrun].
  destruct (harqs (dl m) !! 0) as [h|] eqn:Hh;
    [|vm_compute in Hrun; injection Hrun as <-; by vm_compute in Hh].
  assert (status h = waiting_ack ∧ nof_retxs h < max_nof_harq_retxs h)
    as [Hst Hlt].
  { vm_compute in Hrun. injection Hrun as <-. vm_compute in Hh.
    injection Hh as <-. simpl. split; [done|lia]. }
  pose proof (reachable_inv _ _ _ _ _ _ Hrun) as [Hinv _].
  destruct (Hack (dl m) 0 h true Hinv Hh Hst) as (Hpos & _ & _).
  destruct (Hack (dl m) 0 h false Hinv Hh Hst) as (_ & Hneg & _).
  destruct (Hpos (or_introl eq_refl))
    as (r1 & h1 & Hr1 & _ & Hh1 & _ & Hst1 & _).
  destruct (Hneg eq_refl Hlt)
    as (r2 & h2 & Hr2 & Hh2 & _ & Hst2 & _ & _ & _ & _ & _ & Hp2 & _).
  assert (all_records (λ h, nof_retxs h ≤ max_nof_harq_retxs h) (dl m)) as Hall.
  { apply list.Forall_forall. intros x Hx.
    apply list_elem_of_lookup_1 in Hx as [j Hj].
    exact (Hbudget 8 16 2 8 ops m true j x Hrun Hj). }
  exists m, h, r1, r2.
  split_and!; [reflexivity|assumption|assumption|assumption|assumption|
               |assumption| |assumption| |].
  - rewrite Hh1. simpl. by rewrite Hst1.
  - rewrite Hh2. simpl. by rewrite Hst2.
  - exact (Hkeep (dl m) 0 false r2 Hall Hr2).
  - exact (Hbudget 8 16 2 8 ops m true 0 h Hrun Hh).
Defined.

(** ** A report that is not the last one expected *)

(** C7. A [dl_ack_info] call in slot [cur] for a record that waits for an
    acknowledgment and expects more than one report returns [no_update];
    the record then expects one report less, assumes on timeout what the
    chosen report says, and has the deadline [cur + SHORT_ACK_TIMEOUT_DTX];
    it has left the bucket of its former deadline and is in the bucket of the
    new one, and in no other. *)
Theorem nonfinal_ack_occasion (SHORT : nat) (m : cell_harq_manager) (i : nat)
    (h : harq_process) (a : mac_harq_ack_report_status) (s : option snr_t)
    (cur : slot_point) :
  mgr_inv m → harqs (dl m) !! i = Some h → status h = waiting_ack →
  1 < pucch_ack_to_receive h → last_sl_tx m = Some cur →
  let h1 := if adopts h a s then set_chosen a s h else h in
  let h' := await_next_pucch (cur + SHORT) h1 in
  ∃ m', dl_ack_info SHORT m i a s = Some (no_update, m') ∧
    harqs (dl m') = <[i := h']> (harqs (dl m)) ∧
    pucch_ack_to_receive h' = pucch_ack_to_receive h - 1 ∧
    ack_on_timeout h' = bool_decide (chosen_ack h1 = ack) ∧
    slot_ack_timeout h' = cur + SHORT ∧ status h' = waiting_ack ∧
    harq_timeout_wheel (dl m')
    = wheel_at (push_front i) (cur + SHORT)
        (wheel_at (pop i) (slot_ack_timeout h) (harq_timeout_wheel (dl m))) ∧
    (∀ k b, harq_timeout_wheel (dl m') !! k = Some b →
            i ∈ b ↔ k = (cur + SHORT) mod RING_SIZE) ∧
    free_harqs (dl m') = free_harqs (dl m) ∧
    harq_pending_retx_list (dl m') = harq_pending_retx_list (dl m) ∧
    ul m' = ul m ∧ last_sl_tx m' = last_sl_tx m.
Proof.
  intros Hinv Hi Hst Hmore Hcur h1 h'.
  assert (pucch_ack_to_receive h1 = pucch_ack_to_receive h ∧
          slot_ack_timeout h1 = slot_ack_timeout h ∧ status h1 = status h)
    as (Hcnt & Hto & Hst1) by (unfold h1; by destruct (adopts _ _ _)).
  destruct (dl_ack_info SHORT m i a s) as [[res m']|] eqn:Hd; cycle 1.
  { unfold dl_ack_info in Hd. rewrite Hi in Hd. simpl in Hd.
    rewrite decide_False in Hd by (by intros ?).
    fold h1 in Hd. rewrite decide_False in Hd by lia.
    by rewrite Hcur in Hd. }
  pose proof (dl_ack_info_preserves _ _ _ _ _ _ _ Hinv Hd) as [Hinv' _].
  unfold dl_ack_info in Hd. rewrite Hi in Hd. simpl in Hd.
  rewrite decide_False in Hd by (by intros ?).
  fold h1 in Hd. rewrite decide_False in Hd by lia.
  rewrite Hcur in Hd. simpl in Hd. injection Hd as <- <-.
  eexists. split; [done|]. simpl.
  split_and!; try done.
  { by rewrite list_insert_insert_eq. }
  { by rewrite <-Hcnt. }
  { by rewrite Hst1. }
  { by rewrite Hto. }
  intros k b Hb. destruct Hinv' as (_ & _ & (_ & Hw) & _).
  simpl in Hw. rewrite ?Hto in Hw. rewrite ?Hto in Hb.
  destruct (Hw k b Hb) as (_ & Hmem).
  rewrite Hmem, list_insert_insert_eq.
  rewrite list_lookup_insert_eq by (by eapply lookup_lt_Some).
  split.
  - intros (x & [= <-] & Hx). unfold wheel_slot in Hx. simpl in Hx.
    rewrite Hst1, Hst in Hx. simpl in Hx. by injection Hx as <-.
  - intros ->. exists h'. split; [done|]. unfold wheel_slot. simpl.
    by rewrite Hst1, Hst.
Qed.

Lemma expect_pucch_acks_inv n i m : mgr_inv m → mgr_inv (expect_pucch_acks n i m).
Proof.
  intros [Hdl Hul]. unfold expect_pucch_acks.
  destruct (harqs (dl m) !! i) as [h|] eqn:Hi; [|done].
  split; [|done]. by eapply repo_inv_update.
Qed.

Lemma nonfinal_ack_occasion_witness :
  let ops := [op_add_ue 0 17 2 2; op_slot_indication 100;
              op_new_dl_tx 0 100 4 4 0] in
  ∃ m0 h m',
    run 8 ops (cell_harq_manager_init 16 2 8) = Some m0 ∧
    harqs (dl (expect_pucch_acks 2 0 m0)) !! 0 = Some h ∧
    status h = waiting_ack ∧ pucch_ack_to_receive h = 2 ∧
    slot_ack_timeout h = 112 ∧
    dl_ack_info 8 (expect_pucch_acks 2 0 m0) 0 ack (Some (5#1)%Q)
    = Some (no_update, m') ∧
    harqs (dl m') !! 0
    = Some (await_next_pucch 108 (set_chosen ack (Some (5#1)%Q) h)).
Proof.
  intros ops.
  destruct (run 8 ops (cell_harq_manager_init 16 2 8)) as [m0|] eqn:Hrun;
    [|by vm_compute in Hrun].
  pose proof (expect_pucch_acks_inv 2 0 m0 (reachable_inv _ _ _ _ _ _ Hrun))
    as Hinv.
  destruct (harqs (dl (expect_pucch_acks 2 0 m0)) !! 0) as [h|] eqn:Hh;
    [|vm_compute in Hrun; injection Hrun as <-; by vm_compute in Hh].
  assert (status h = waiting_ack ∧ pucch_ack_to_receive h = 2 ∧
          slot_ack_timeout h = 112 ∧ last_pucch_snr h = None ∧
          last_sl_tx (expect_pucch_acks 2 0 m0) = Some 100)
    as (Hst & Hcnt & Hto & Hlast & Hcur).
  { vm_compute in Hrun. injection Hrun as <-. vm_compute in Hh.
    injection Hh as <-. by vm_compute. }
  destruct (nonfinal_ack_occasion 8 _ 0 h ack (Some (5#1)%Q) 100 Hinv Hh Hst)
    as (m' & Hd & Hharqs & _); [lia|done|].
  exists m0, h, m'. split_and!; [done..|].
  rewrite Hharqs. rewrite list_lookup_insert_eq by (by eapply lookup_lt_Some).
  unfold adopts. by rewrite Hlast.
Defined.

(** ** Merging the reports of a downlink record *)

Lemma snr_lt_spec (a b : snr_t) : snr_lt a b = true ↔ (a < b)%Q.
Proof.
  unfold snr_lt. rewrite negb_true_iff, <-not_true_iff_false, Qle_bool_iff.
  split; [apply Qnot_le_lt|apply Qlt_not_le].
Qed.

Lemma adopts_merge_report h a s :
  (if adopts h a s then set_chosen a s h else h)
  = set_chosen (merge_report (chosen_ack h, last_pucch_snr h) (a, s)).1
               (merge_report (chosen_ack h, last_pucch_snr h) (a, s)).2 h.
Proof.
  unfold adopts, merge_report. simpl.
  destruct (bool_decide (a ≠ dtx) && _); [done|]. by destruct h.
Qed.

Lemma handle_ack_waiting r i h a :
  repo_inv r → harqs r !! i = Some h → status h = waiting_ack →
  is_Some (handle_ack r i a).
Proof.
  intros Hinv Hi Hst. unfold handle_ack. rewrite Hi. simpl.
  destruct (_ || _).
  - destruct (dealloc_harq_inv r i Hinv) as (r' & -> & _); [|done].
    by eapply lookup_lt_Some.
  - unfold set_pending_retx. rewrite Hi. simpl. by rewrite Hst.
Qed.

Lemma dl_ack_infos_cons SHORT m i a s rest :
  dl_ack_infos SHORT m i ((a, s) :: rest)
  = '(u, m1) ← dl_ack_info SHORT m i a s;
    '(us, m2) ← dl_ack_infos SHORT m1 i rest;
    Some (u :: us, m2).
Proof. done. Qed.

Lemma dl_ack_infos_fold SHORT reports m i h cur :
  mgr_inv m → last_sl_tx m = Some cur → harqs (dl m) !! i = Some h →
  status h = waiting_ack → reports ≠ [] →
  pucch_ack_to_receive h = length reports →
  ∃ m', dl_ack_infos SHORT m i reports
        = Some (replicate (length reports - 1) no_update ++
                [if bool_decide
                      ((foldl merge_report (chosen_ack h, last_pucch_snr h)
                          reports).1 = ack)
                 then acked else nacked], m').
Proof.
  revert m h. induction reports as [|[a s] rest IH];
    intros m h Hinv Hcur Hi Hst Hne Hcnt; [done|].
  pose proof Hinv as [Hdl Hul].
  set (st := merge_report (chosen_ack h, last_pucch_snr h) (a, s)).
  set (h1 := set_chosen st.1 st.2 h).
  assert (repo_inv (set_harqs (<[i:=h1]> (harqs (dl m))) (dl m))) as Hdl1
    by (by eapply repo_inv_update).
  assert (<[i:=h1]> (harqs (dl m)) !! i = Some h1) as Hi1
    by (by rewrite list_lookup_insert_eq by (by eapply lookup_lt_Some)).
  rewrite dl_ack_infos_cons.
  destruct (decide (rest = [])) as [->|Hrest].
  - destruct (handle_ack_waiting _ i h1 (bool_decide (chosen_ack h1 = ack)) Hdl1)
      as [dl2 Hh]; [done..|].
    assert (dl_ack_info SHORT m i a s
            = Some (if bool_decide (st.1 = ack) then acked else nacked,
                    set_dl dl2 m)) as ->.
    { unfold dl_ack_info. rewrite Hi. simpl.
      rewrite decide_False by (by intros ?). rewrite adopts_merge_report.
      fold st h1. rewrite decide_True by (simpl in *; lia).
      by rewrite Hh. }
    simpl. by eexists.
  - set (m1 := set_dl
                 (set_harq_timeout_wheel
                    (wheel_at (push_front i) (cur + SHORT)
                       (wheel_at (pop i) (slot_ack_timeout h1)
                          (harq_timeout_wheel (dl m))))
                    (set_harqs
                       (<[i:=await_next_pucch (cur + SHORT) h1]>
                          (<[i:=h1]> (harqs (dl m))))
                       (set_harqs (<[i:=h1]> (harqs (dl m))) (dl m)))) m).
    assert (dl_ack_info SHORT m i a s = Some (no_update, m1)) as ->.
    { unfold dl_ack_info. rewrite Hi. simpl.
      rewrite decide_False by (by intros ?). rewrite adopts_merge_report.
      fold st h1. rewrite decide_False by (destruct rest; simpl in *; [done|lia]).
      by rewrite Hcur. }
    destruct (IH m1 (await_next_pucch (cur + SHORT) h1)) as (m' & Hrun);
      [|done| |done|done| |].
    + split; [|done]. unfold m1.
      by apply (await_next_pucch_inv _ i h1 (cur + SHORT) Hdl1).
    + simpl. rewrite list_insert_insert_eq.
      by rewrite list_lookup_insert_eq by (by eapply lookup_lt_Some).
    + simpl in *. lia.
    + cbn [mbind option_bind]. rewrite Hrun. simpl. exists m'.
      do 2 f_equal. destruct rest as [|rep rest]; [done|]. simpl.
      rewrite Nat.sub_0_r. fold st. by rewrite <-(surjective_pairing st).
Qed.

Lemma quality_lt_not_le (x y : option snr_t) :
  quality_lt x y → quality_le y x → False.
Proof.
  destruct x as [p|], y as [q|]; simpl; try done.
  intros H1 H2. by apply Qlt_not_le in H1.
Qed.

Lemma quality_lt_raise (x : option snr_t) (p q : snr_t) :
  quality_lt x (Some p) → (p < q)%Q → quality_lt x (Some q).
Proof.
  destruct x as [p'|]; simpl; [|done]. intros H1 H2. by eapply Qlt_trans.
Qed.

Lemma quality_le_raise (x : option snr_t) (p q : snr_t) :
  quality_le x (Some p) → (p < q)%Q → quality_lt x (Some q).
Proof.
  destruct x as [p'|]; simpl; [|done]. intros H1 H2. by eapply Qle_lt_trans.
Qed.

Lemma best_report_unique reports k k' :
  best_report reports k → best_report reports k' → k = k'.
Proof.
  intros (a & s & Hk & Ha & Hbefore & Hafter)
         (a' & s' & Hk' & Ha' & Hbefore' & Hafter').
  destruct (Nat.lt_trichotomy k k') as [Hlt|[Heq|Hlt]]; [|done|].
  - pose proof (Hbefore' k a s Hlt Hk Ha) as H1.
    pose proof (Hafter k' a' s' Hlt Hk' Ha') as H2.
    destruct (quality_lt_not_le _ _ H1 H2).
  - pose proof (Hbefore k' a' s' Hlt Hk' Ha') as H1.
    pose proof (Hafter' k a s Hlt Hk Ha) as H2.
    destruct (quality_lt_not_le _ _ H1 H2).
Qed.

Lemma one_without_quality_app reports rep :
  one_without_quality (reports ++ [rep]) → one_without_quality reports.
Proof.
  intros H j k a a' Hj Hk. apply (H j k a a'); by apply lookup_app_l_Some.
Qed.

Lemma foldl_merge_report_best reports :
  one_without_quality reports →
  (foldl merge_report (dtx, None) reports = (dtx, None) ∧
   ∀ j a (s : option snr_t), reports !! j = Some (a, s) → a = dtx) ∨
  (∃ k, reports !! k = Some (foldl merge_report (dtx, None) reports) ∧
        best_report reports k).
Proof.
  induction reports as [|[a s] reports IH] using rev_ind; intros Hone; simpl.
  { left. split; [done|]. by intros ???. }
  specialize (IH (one_without_quality_app _ _ Hone)).
  rewrite foldl_app. simpl.
  set (st := foldl merge_report (dtx, None) reports) in *.
  destruct (decide (a = dtx)) as [->|Ha].
  - assert (merge_report st (dtx, s) = st) as ->.
    { unfold merge_report. by simpl. }
    destruct IH as [(Hst & Hall)|(k & Hk & Hbest)].
    + left. split; [done|]. intros j a' s' Hj.
      apply lookup_app_Some in Hj as [Hj|(_ & Hj)]; [by eapply Hall|].
      apply list_lookup_singleton_Some in Hj as (_ & [= <- <-]). done.
    + right. exists k. split; [by apply lookup_app_l_Some|].
      destruct Hbest as (a0 & s0 & Hk0 & Ha0 & Hbefore & Hafter).
      exists a0, s0. split_and!; [by apply lookup_app_l_Some|done| |].
      * intros j a' s' Hjk Hj. apply Hbefore with j; [done|].
        apply lookup_app_Some in Hj as [Hj|(Hge & _)]; [done|].
        apply lookup_lt_Some in Hk0. lia.
      * intros j a' s' Hjk Hj Ha'.
        apply lookup_app_Some in Hj as [Hj|(_ & Hj)]; [by eapply Hafter|].
        apply list_lookup_singleton_Some in Hj as (_ & [= <- <-]). done.
  - assert ((reports ++ [(a, s)]) !! length reports = Some (a, s)) as Hnew.
    { rewrite lookup_app_r by done. by rewrite Nat.sub_diag. }
    assert (∀ j a' (s' : option snr_t), length reports < j →
              (reports ++ [(a, s)]) !! j = Some (a', s') → a' ≠ dtx →
              quality_le s' s) as Hlast.
    { intros j a' s' Hj Hlook. apply lookup_lt_Some in Hlook.
      rewrite length_app in Hlook. simpl in Hlook. lia. }
    destruct IH as [(Hst & Hall)|(k & Hk & Hbest)].
    + assert (merge_report st (a, s) = (a, s)) as ->.
      { rewrite Hst. unfold merge_report. simpl.
        by rewrite bool_decide_eq_true_2 by done. }
      right. exists (length reports).
      split; [done|]. exists a, s. split_and!; [done..| |done].
      intros j a' s' Hj Hlook Ha'.
      rewrite lookup_app_l in Hlook by done. by apply Hall in Hlook.
    + destruct Hbest as (a0 & s0 & Hk0 & Ha0 & Hbefore & Hafter).
      assert (st = (a0, s0)) as Hst by congruence.
      pose proof (lookup_lt_Some _ _ _ Hk0) as Hklt.
      assert (merge_report st (a, s) = (a, s) →
              (∀ j a' (s' : option snr_t), j < length reports →
                 reports !! j = Some (a', s') → a' ≠ dtx → quality_lt s' s) →
              ∃ k' : nat,
                (reports ++ [(a, s)]) !! k' = Some (merge_report st (a, s)) ∧
                best_report (reports ++ [(a, s)]) k') as Htake.
      { intros -> Hlower. exists (length reports). split; [done|].
        exists a, s. split_and!; [done..| |done].
        intros j a' s' Hj Hlook Ha'. rewrite lookup_app_l in Hlook by done.
        by apply (Hlower j a'). }
      assert (merge_report st (a, s) = st → quality_le s s0 →
              ∃ k' : nat,
                (reports ++ [(a, s)]) !! k' = Some (merge_report st (a, s)) ∧
                best_report (reports ++ [(a, s)]) k') as Hkeep.
      { intros -> Hle. exists k. split; [by apply lookup_app_l_Some|].
        exists a0, s0. split_and!; [by apply lookup_app_l_Some|done| |].
        - intros j a' s' Hjk Hj. apply Hbefore with j; [done|].
          apply lookup_app_Some in Hj as [Hj|(Hge & _)]; [done|lia].
        - intros j a' s' Hjk Hj Ha'.
          apply lookup_app_Some in Hj as [Hj|(_ & Hj)]; [by eapply Hafter|].
          apply list_lookup_singleton_Some in Hj as (_ & [= <- <-]). done. }
      right. destruct s0 as [p|].
      * destruct s as [q|].
        -- destruct (snr_lt p q) eqn:Hlt.
           ++ apply Htake.
              { unfold merge_report. rewrite Hst. simpl.
                by rewrite bool_decide_eq_true_2, Hlt by done. }
              apply snr_lt_spec in Hlt. intros j a' s' Hj Hlook Ha'.
              destruct (Nat.lt_trichotomy j k) as [Hjk|[->|Hjk]].
              ** eapply quality_lt_raise; [by eapply Hbefore|done].
              ** assert (s' = Some p) as -> by congruence. done.
              ** eapply quality_le_raise; [by eapply Hafter|done].
           ++ apply Hkeep.
              { unfold merge_report. rewrite Hst. simpl.
                by rewrite Hlt, andb_false_r. }
              apply not_true_iff_false in Hlt. rewrite snr_lt_spec in Hlt.
              simpl. by apply Qnot_lt_le.
        -- apply Hkeep; [|done].
           unfold merge_report. rewrite Hst. simpl. by rewrite andb_false_r.
      * apply Htake.
        { unfold merge_report. rewrite Hst. simpl.
          by rewrite bool_decide_eq_true_2 by done. }
        assert (∀ j a', j < length reports → reports !! j = Some (a', None) →
                        a' ≠ dtx → j = k) as Honly.
        { intros j a' Hj Hlook Ha'.
          apply (Hone j k a' a0); [by apply lookup_app_l_Some|
                                   by apply lookup_app_l_Some|done..]. }
        destruct s as [q|]; cycle 1.
        { assert (length reports = k) as Heq; [|lia].
          apply (Hone (length reports) k a a0);
            [done|by apply lookup_app_l_Some|done..]. }
        intros j a' s' Hj Hlook Ha'. destruct s' as [p'|]; [|done].
        exfalso. destruct (Nat.lt_trichotomy j k) as [Hjk|[->|Hjk]].
        -- by pose proof (Hbefore j a' (Some p') Hjk Hlook Ha').
        -- congruence.
        -- by pose proof (Hafter j a' (Some p') Hjk Hlook Ha').
Qed.

Lemma adopts_spec h a s :
  adopts h a s = true ↔
  a ≠ dtx ∧ (last_pucch_snr h = None ∨
             ∃ last q, last_pucch_snr h = Some last ∧ s = Some q ∧ (last < q)%Q).
Proof.
  unfold adopts. rewrite andb_true_iff, bool_decide_eq_true.
  destruct (last_pucch_snr h) as [last|]; [|by intuition auto].
  destruct s as [q|].
  - rewrite snr_lt_spec. split.
    + intros [? ?]. split; [done|]. right. by exists last, q.
    + intros [? [?|(l' & q' & [= <-] & [= <-] & ?)]]; done.
  - split; [by intros [_ ?]|]. by intros [_ [?|(? & ? & _ & ? & _)]].
Qed.

Lemma adopts_as_specified h a s :
  (chosen_ack h = dtx → last_pucch_snr h = None) →
  ¬ (chosen_ack h ≠ dtx ∧ last_pucch_snr h = None ∧ s = None) →
  adopts h a s = true ↔
  a ≠ dtx ∧ (chosen_ack h = dtx ∨ quality_lt (last_pucch_snr h) s).
Proof.
  intros Hnone Hslip. rewrite adopts_spec. split.
  - intros [Ha Hcase]. split; [done|].
    destruct Hcase as [Hlast|(last & q & Hlast & -> & Hlt)].
    + destruct (decide (chosen_ack h = dtx)) as [|Hres]; [by left|]. right.
      rewrite Hlast. destruct s as [q|]; [done|]. by destruct Hslip.
    + right. by rewrite Hlast.
  - intros [Ha Hcase]. split; [done|].
    destruct Hcase as [Hres|Hlt]; [left; by apply Hnone|].
    destruct (last_pucch_snr h) as [last|]; [|by left]. right.
    destruct s as [q|]; [|done]. by exists last, q.
Qed.

Lemma dealloc_harq_chosen r i r' h :
  dealloc_harq r i = Some r' → harqs r !! i = Some h →
  ∃ h', harqs r' !! i = Some h' ∧ chosen_ack h' = chosen_ack h ∧
        last_pucch_snr h' = last_pucch_snr h.
Proof.
  unfold dealloc_harq. intros Hd Hi. rewrite Hi in Hd. simpl in Hd.
  case_decide; simplify_eq; [by exists h|].
  destruct (ues r !! ue_idx h) as [e|]; simplify_eq/=.
  case_decide; simplify_eq. simpl. exists (set_status empty h).
  split; [|done].
  assert (∀ hs, hs = harqs r →
            <[i:=set_status empty h]> hs !! i = Some (set_status empty h))
    as Hgen.
  { intros hs ->. by rewrite list_lookup_insert_eq by (by eapply lookup_lt_Some). }
  apply Hgen. by case_decide.
Qed.

Lemma handle_ack_chosen r i a r' h :
  handle_ack r i a = Some r' → harqs r !! i = Some h →
  ∃ h', harqs r' !! i = Some h' ∧ chosen_ack h' = chosen_ack h ∧
        last_pucch_snr h' = last_pucch_snr h.
Proof.
  unfold handle_ack. intros Hh Hi. rewrite Hi in Hh. simpl in Hh.
  destruct (_ || _); [by eapply dealloc_harq_chosen|].
  unfold set_pending_retx in Hh. rewrite Hi in Hh. simpl in Hh.
  destruct (status h); simplify_eq/=; [by exists h|].
  exists (set_status pending_retx h). split; [|done].
  by rewrite list_lookup_insert_eq by (by eapply lookup_lt_Some).
Qed.

(** C5 is what the comment in [dl_ack_info] says ("if there was no previous
    HARQ-ACK decoded or the previous HARQ-ACK had lower SNR, this HARQ-ACK is
    chosen"), and the code follows it except where it takes the absence of a
    recorded quality for the absence of a recorded report.

    For a record on which no quality is recorded without a report,
    [dl_ack_info] never takes a DTX report, and, unless a report is recorded
    without quality and the new report has no quality either, it takes a
    report as the chosen one exactly when the report is not DTX and either
    no report is recorded or the quality of the report ranks strictly above
    the recorded one (no quality ranking below every quality). When a record
    that expects [n] reports, with none recorded yet, receives [n] reports,
    with or without qualities, every call but the last returns [no_update]
    and the last returns [acked] or [nacked]; when at most one report that is
    not DTX has no quality, it returns [acked] exactly when the report of
    highest quality among those that are not DTX, the earliest of them on a
    tie, is positive. On a record that expects two reports, a positive
    report of quality 5 followed by a negative one of quality 3 gives
    [no_update] and then [acked].

    On a record that expects two reports, a negative report without quality
    followed by a positive report without quality gives [no_update] and then
    [acked]: the second report is taken although a report is recorded and
    its quality is not higher, and the earliest of the two reports, which tie,
    is the negative one. *)
Theorem dl_codebook_merge :
  (∀ SHORT m i h a s res m',
     harqs (dl m) !! i = Some h → status h = waiting_ack →
     (chosen_ack h = dtx → last_pucch_snr h = None) →
     dl_ack_info SHORT m i a s = Some (res, m') →
     ∃ h', harqs (dl m') !! i = Some h' ∧
       (chosen_ack h', last_pucch_snr h')
       = (if adopts h a s then (a, s) else (chosen_ack h, last_pucch_snr h)) ∧
       (chosen_ack h' = dtx → last_pucch_snr h' = None) ∧
       (adopts h a s = true → a ≠ dtx) ∧
       (¬ (chosen_ack h ≠ dtx ∧ last_pucch_snr h = None ∧ s = None) →
        adopts h a s = true ↔
        a ≠ dtx ∧ (chosen_ack h = dtx ∨ quality_lt (last_pucch_snr h) s))) ∧
  (∀ SHORT m i h cur reports,
     mgr_inv m → last_sl_tx m = Some cur → harqs (dl m) !! i = Some h →
     status h = waiting_ack → chosen_ack h = dtx → last_pucch_snr h = None →
     reports ≠ [] → pucch_ack_to_receive h = length reports →
     ∃ final m',
       dl_ack_infos SHORT m i reports
       = Some (replicate (length reports - 1) no_update ++ [final], m') ∧
       (final = acked ∨ final = nacked) ∧
       (one_without_quality reports →
        final = acked ↔
        ∃ k s, best_report reports k ∧ reports !! k = Some (ack, s))) ∧
  (∃ m0 m',
     run 8 [op_add_ue 0 17 2 2; op_slot_indication 100; op_new_dl_tx 0 100 4 4 0]
       (cell_harq_manager_init 16 2 8) = Some m0 ∧
     dl_ack_infos 8 (expect_pucch_acks 2 0 m0) 0
       [(ack, Some (5#1)%Q); (nack, Some (3#1)%Q)]
     = Some ([no_update; acked], m')) ∧
  (∃ m0 m1 h1 m2,
     run 8 [op_add_ue 0 17 2 2; op_slot_indication 100; op_new_dl_tx 0 100 4 4 0]
       (cell_harq_manager_init 16 2 8) = Some m0 ∧
     dl_ack_info 8 (expect_pucch_acks 2 0 m0) 0 nack None = Some (no_update, m1) ∧
     harqs (dl m1) !! 0 = Some h1 ∧
     chosen_ack h1 = nack ∧ last_pucch_snr h1 = None ∧
     adopts h1 ack None = true ∧
     dl_ack_info 8 m1 0 ack None = Some (acked, m2) ∧
     dl_ack_infos 8 (expect_pucch_acks 2 0 m0) 0 [(nack, None); (ack, None)]
     = Some ([no_update; acked], m2) ∧
     best_report [(nack, None); (ack, None)] 0).
Proof.
  split_and!.
  - intros SHORT m i h a s res m' Hi Hst Hnone Hd.
    assert (∃ h', harqs (dl m') !! i = Some h' ∧
              chosen_ack h' = (if adopts h a s then a else chosen_ack h) ∧
              last_pucch_snr h' = (if adopts h a s then s else last_pucch_snr h))
      as (h' & Hh' & Hc & Hl).
    { unfold dl_ack_info in Hd. rewrite Hi in Hd. simpl in Hd.
      rewrite decide_False in Hd by (by intros ?).
      set (h1 := if adopts h a s then set_chosen a s h else h) in *.
      assert (chosen_ack h1 = (if adopts h a s then a else chosen_ack h) ∧
              last_pucch_snr h1 = (if adopts h a s then s else last_pucch_snr h))
        as [Hc1 Hl1] by (unfold h1; by destruct (adopts _ _ _)).
      assert (<[i:=h1]> (harqs (dl m)) !! i = Some h1) as Hi1
        by (by rewrite list_lookup_insert_eq by (by eapply lookup_lt_Some)).
      case_decide.
      - destruct (handle_ack _ _ _) as [dl2|] eqn:Hh; simplify_eq/=.
        destruct (handle_ack_chosen _ _ _ _ h1 Hh Hi1) as (h' & Hh' & Hc & Hl).
        exists h'. split_and!; [done|congruence..].
      - destruct (last_sl_tx m) as [cur|]; simplify_eq/=. eexists. split.
        + rewrite list_lookup_insert_eq; [done|].
          rewrite length_insert. by eapply lookup_lt_Some.
        + done. }
    assert (adopts h a s = true → a ≠ dtx) as Hnodtx.
    { intros Had. by apply adopts_spec in Had as [? _]. }
    exists h'. split_and!; [done| | |done|by apply adopts_as_specified].
    + rewrite Hc, Hl. by destruct (adopts _ _ _).
    + rewrite Hc, Hl. destruct (adopts h a s) eqn:Had; [|done].
      intros ->. by destruct (Hnodtx eq_refl).
  - intros SHORT m i h cur reports Hinv Hcur Hi Hst Hchosen Hlast Hne Hcnt.
    destruct (dl_ack_infos_fold SHORT reports m i h cur) as (m' & Hrun);
      [done..|].
    rewrite Hchosen, Hlast in Hrun. eexists _, m'. split; [exact Hrun|].
    split; [by case_bool_decide; [left|right]|].
    intros Hone.
    destruct (foldl_merge_report_best reports Hone)
      as [(Hst0 & Hall)|(k & Hk & Hbest)].
    + rewrite Hst0. simpl. split; [done|].
      intros (k & s & _ & Hk). by apply Hall in Hk.
    + case_bool_decide as Hack; split; try done.
      * intros _. exists k, (foldl merge_report (dtx, None) reports).2.
        split; [done|]. rewrite Hk. f_equal. rewrite <-Hack.
        apply surjective_pairing.
      * intros (k' & s' & Hbest' & Hk').
        rewrite (best_report_unique _ _ _ Hbest' Hbest) in Hk'.
        rewrite Hk in Hk'. injection Hk' as Hk'. by rewrite Hk' in Hack.
  - eexists _, _. split.
    + vm_compute; reflexivity.
    + vm_compute; reflexivity.
  - eexists _, _, _, _. split_and!.
    + vm_compute; reflexivity.
    + vm_compute; reflexivity.
    + vm_compute; reflexivity.
    + vm_compute; reflexivity.
    + vm_compute; reflexivity.
    + vm_compute; reflexivity.
    + vm_compute; reflexivity.
    + vm_compute; reflexivity.
    + exists nack, None. split_and!; [done..| |].
      * intros j a' s' Hj. lia.
      * intros [|[|j]] a' s' Hj Hlook Ha'; simpl in Hlook; [lia| |done].
        by injection Hlook as <- <-.
Qed.

Lemma dl_codebook_merge_witness :
  let ops := [op_add_ue 0 17 2 2; op_slot_indication 100;
              op_new_dl_tx 0 100 4 4 0] in
  let reports := [(ack, Some (5#1)%Q); (dtx, None)] in
  ∃ m0 h final m',
    run 8 ops (cell_harq_manager_init 16 2 8) = Some m0 ∧
    harqs (dl (expect_pucch_acks 2 0 m0)) !! 0 = Some h ∧
    status h = waiting_ack ∧ chosen_ack h = dtx ∧ last_pucch_snr h = None ∧
    pucch_ack_to_receive h = 2 ∧
    dl_ack_infos 8 (expect_pucch_acks 2 0 m0) 0 reports
    = Some ([no_update; final], m') ∧
    (final = acked ↔
     ∃ k s, best_report reports k ∧ reports !! k = Some (ack, s)) ∧
    (adopts h ack (Some (5#1)%Q) = true ↔
     ack ≠ dtx ∧ (chosen_ack h = dtx ∨
                  quality_lt (last_pucch_snr h) (Some (5#1)%Q))).
Proof.
  intros ops reports. destruct dl_codebook_merge as (Hstep & Hmerge & _).
  destruct (run 8 ops (cell_harq_manager_init 16 2 8)) as [m0|] eqn:Hrun;
    [|by vm_compute in Hrun].
  pose proof (expect_pucch_acks_inv 2 0 m0 (reachable_inv _ _ _ _ _ _ Hrun))
    as Hinv.
  destruct (harqs (dl (expect_pucch_acks 2 0 m0)) !! 0) as [h|] eqn:Hh;
    [|vm_compute in Hrun; injection Hrun as <-; by vm_compute in Hh].
  assert (status h = waiting_ack ∧ chosen_ack h = dtx ∧
          last_pucch_snr h = None ∧ pucch_ack_to_receive h = 2 ∧
          last_sl_tx (expect_pucch_acks 2 0 m0) = Some 100)
    as (Hst & Hc & Hl & Hcnt & Hcur).
  { vm_compute in Hrun. injection Hrun as <-. vm_compute in Hh.
    injection Hh as <-. by vm_compute. }
  destruct (Hmerge 8 _ 0 h 100 reports Hinv Hcur Hh Hst Hc Hl)
    as (final & m' & Hinfos & _ & Hfinal); [done..|].
  assert (one_without_quality reports) as Hone.
  { intros j k a a' Hj Hk Ha Ha'.
    destruct j as [|[|j]]; simpl in Hj; [done| |done]. by injection Hj as <-. }
  destruct (dl_ack_info 8 (expect_pucch_acks 2 0 m0) 0 ack (Some (5#1)%Q))
    as [[res m1]|] eqn:Hd;
    [|vm_compute in Hrun; injection Hrun as <-; by vm_compute in Hd].
  destruct (Hstep 8 _ 0 h ack (Some (5#1)%Q) res m1 Hh Hst (λ _, Hl) Hd)
    as (h1 & _ & _ & _ & _ & Hrule).
  exists m0, h, final, m'.
  split_and!; [reflexivity|assumption..|by apply Hfinal|].
  apply Hrule. intros (Hres & _). by rewrite Hc in Hres.
Defined.

(** ** Timeouts *)

Lemma handle_harq_ack_timeout_waiting r j h :
  repo_inv r → harqs r !! j = Some h → status h = waiting_ack →
  ∃ r', handle_harq_ack_timeout r j = Some r' ∧ repo_inv r' ∧
    harqs r' = <[j := set_status empty h]> (harqs r) ∧
    free_harqs r' = free_harqs r ++ [j] ∧
    timeout_notifier r'
    = timeout_notifier r ++
      (if decide (max_ack_wait_in_slots r ≠ 1) then timeout_report r j else []) ∧
    max_ack_wait_in_slots r' = max_ack_wait_in_slots r ∧ IsDl r' = IsDl r.
Proof.
  intros Hinv Hj Hst. unfold handle_harq_ack_timeout, timeout_report.
  rewrite Hj. simpl. rewrite decide_True by done.
  set (r1 := if decide (max_ack_wait_in_slots r ≠ 1)
             then on_harq_timeout (ue_idx h) (IsDl r) (ack_on_timeout h) r
             else r).
  assert (repo_inv r1 ∧ harqs r1 = harqs r ∧ free_harqs r1 = free_harqs r ∧
          max_ack_wait_in_slots r1 = max_ack_wait_in_slots r ∧
          IsDl r1 = IsDl r ∧
          timeout_notifier r1
          = timeout_notifier r ++
            (if decide (max_ack_wait_in_slots r ≠ 1)
             then [(ue_idx h, IsDl r, ack_on_timeout h)] else []))
    as (Hinv1 & Hhs & Hf & HW & Hd & Hlog).
  { unfold r1. case_decide; [done|]. by rewrite app_nil_r. }
  assert (harqs r1 !! j = Some h) as Hj1 by (by rewrite Hhs).
  destruct (dealloc_harq_in_use r1 j h) as (e & He & _ & ->);
    [apply Hinv1|done|by rewrite Hst|].
  eexists. split; [done|]. split_and!.
  - apply dealloc_result_inv; [done..|by rewrite Hst|done].
  - simpl. by rewrite Hhs.
  - simpl. by rewrite Hf.
  - by simpl.
  - by simpl.
  - by simpl.
Qed.

Lemma list_bind_ext_elem {A B} (f g : A → list B) (l : list A) :
  (∀ x, x ∈ l → f x = g x) → l ≫= f = l ≫= g.
Proof.
  induction l as [|x l IH]; intros Heq; [done|]. simpl.
  rewrite (Heq x) by apply list_elem_of_here. f_equal.
  apply IH. intros y Hy. apply Heq. by apply list_elem_of_further.
Qed.

Lemma timeouts_of_bucket l r :
  repo_inv r → NoDup l →
  (∀ j, j ∈ l → ∃ h, harqs r !! j = Some h ∧ status h = waiting_ack) →
  ∃ r', for_each handle_harq_ack_timeout l r = Some r' ∧ repo_inv r' ∧
    (∀ j, j ∉ l → harqs r' !! j = harqs r !! j) ∧
    (∀ j h, j ∈ l → harqs r !! j = Some h →
            harqs r' !! j = Some (set_status empty h)) ∧
    free_harqs r' = free_harqs r ++ l ∧
    timeout_notifier r'
    = timeout_notifier r ++
      (if decide (max_ack_wait_in_slots r ≠ 1)
       then l ≫= timeout_report r else []) ∧
    max_ack_wait_in_slots r' = max_ack_wait_in_slots r ∧ IsDl r' = IsDl r.
Proof.
  revert r. induction l as [|x l IH]; intros r Hinv Hnd Hwait.
  { exists r. simpl. split_and!; try done.
    - by intros j h ?%not_elem_of_nil.
    - by rewrite app_nil_r.
    - destruct (decide _); by rewrite app_nil_r. }
  apply list.NoDup_cons in Hnd as [Hx Hnd].
  destruct (Hwait x) as (hx & Hhx & Hstx); [apply list_elem_of_here|].
  destruct (handle_harq_ack_timeout_waiting r x hx Hinv Hhx Hstx)
    as (r1 & Hstep & Hinv1 & Hhs1 & Hf1 & Hlog1 & HW1 & Hd1).
  assert (∀ j, j ≠ x → harqs r1 !! j = harqs r !! j) as Hother.
  { intros j Hne. rewrite Hhs1. by rewrite list_lookup_insert_ne. }
  destruct (IH r1) as (r' & Hrun & Hinv' & Hout & Hin & Hf & Hlog & HW & Hd);
    [done..| |].
  { intros j Hj. rewrite Hother; [|by intros ->].
    apply Hwait. by apply list_elem_of_further. }
  exists r'. simpl. rewrite Hstep. simpl. split_and!; [done..| | | | | |].
  - intros j Hj. apply not_elem_of_cons in Hj as [Hne Hj].
    by rewrite Hout, Hother.
  - intros j h Hj Hh. apply elem_of_cons in Hj as [->|Hj].
    + rewrite Hout by done. rewrite Hhs1.
      rewrite list_lookup_insert_eq by (by eapply lookup_lt_Some). congruence.
    + apply Hin; [done|]. rewrite Hother; [done|]. by intros ->.
  - rewrite Hf, Hf1. by rewrite <-app_assoc.
  - rewrite Hlog, Hlog1, HW1.
    destruct (decide (max_ack_wait_in_slots r ≠ 1)); [|by rewrite !app_nil_r].
    rewrite <-app_assoc. f_equal. f_equal. apply list_bind_ext_elem.
    intros j Hj. unfold timeout_report. rewrite Hd1.
    rewrite Hother; [done|]. by intros ->.
  - congruence.
  - congruence.
Qed.

Lemma slot_indication_spec r sl_tx :
  repo_inv r →
  ∃ b r', harq_timeout_wheel r !! (sl_tx mod RING_SIZE) = Some b ∧ NoDup b ∧
    (∀ j, j ∈ b ↔ ∃ h, harqs r !! j = Some h ∧
                       wheel_slot h = Some (sl_tx mod RING_SIZE)) ∧
    harq_utils.slot_indication r sl_tx = Some r' ∧ repo_inv r' ∧
    (∀ j, j ∉ b → harqs r' !! j = harqs r !! j) ∧
    (∀ j h, j ∈ b → harqs r !! j = Some h →
            harqs r' !! j = Some (set_status empty h)) ∧
    free_harqs r' = free_harqs r ++ b ∧
    timeout_notifier r'
    = timeout_notifier r ++
      (if decide (max_ack_wait_in_slots r ≠ 1)
       then b ≫= timeout_report r else []) ∧
    max_ack_wait_in_slots r' = max_ack_wait_in_slots r ∧ IsDl r' = IsDl r.
Proof.
  intros Hinv. pose proof Hinv as (_ & _ & (Hlen & Hw) & _).
  assert (sl_tx mod RING_SIZE < length (harq_timeout_wheel r)) as Hlt.
  { rewrite Hlen. by apply Nat.mod_upper_bound. }
  apply lookup_lt_is_Some_2 in Hlt as [b Hb].
  destruct (Hw _ b Hb) as (Hnd & Hmem).
  destruct (timeouts_of_bucket b r Hinv Hnd)
    as (r' & Hrun & Hinv' & Hout & Hin & Hf & Hlog & HW & Hd).
  { intros j (h & Hh & Hslot)%Hmem. exists h. split; [done|].
    unfold wheel_slot in Hslot. by case_decide. }
  exists b, r'. split_and!; try done.
  unfold harq_utils.slot_indication. rewrite Hlen, Hb. done.
Qed.

Lemma slot_indications_keep sls r i h :
  repo_inv r → harqs r !! i = Some h → status h = waiting_ack →
  (∀ sl, sl ∈ sls → sl mod RING_SIZE ≠ slot_ack_timeout h mod RING_SIZE) →
  ∃ r', for_each harq_utils.slot_indication sls r = Some r' ∧ repo_inv r' ∧
        harqs r' !! i = Some h ∧
        max_ack_wait_in_slots r' = max_ack_wait_in_slots r ∧ IsDl r' = IsDl r.
Proof.
  revert r. induction sls as [|sl sls IH]; intros r Hinv Hi Hst Hsls.
  { by exists r. }
  destruct (slot_indication_spec r sl Hinv)
    as (b & r1 & _ & _ & Hmem & Hstep & Hinv1 & Hout & _ & _ & _ & HW1 & Hd1).
  assert (i ∉ b) as Hib.
  { intros (x & Hx & Hslot)%Hmem. simplify_eq. unfold wheel_slot in Hslot.
    rewrite decide_True in Hslot by done. injection Hslot as Hslot.
    eapply Hsls; [apply list_elem_of_here|done]. }
  destruct (IH r1) as (r' & Hrun & Hinv' & Hi' & HW & Hd);
    [done|by rewrite Hout|done| |].
  { intros sl' Hsl'. apply Hsls. by apply list_elem_of_further. }
  exists r'. simpl. rewrite Hstep. simpl. split_and!; [done..|congruence|congruence].
Qed.

Lemma slot_before_deadline (cur sl deadline : nat) :
  cur < sl → sl < deadline → deadline ≤ cur + RING_SIZE →
  sl mod RING_SIZE ≠ deadline mod RING_SIZE.
Proof.
  unfold RING_SIZE. intros H1 H2 H3 Heq.
  pose proof (Nat.div_mod_eq sl 40). pose proof (Nat.div_mod_eq deadline 40).
  lia.
Qed.

(** C3, as amended. A record is allocated, with acknowledgment slot [sl_ack],
    while the slot clock stands at [cur], and its deadline
    [sl_ack + max_ack_wait_in_slots] lies after [cur] and at most [RING_SIZE]
    slots after it. When [slot_indication] is then called for every slot in
    turn and nothing else happens to the record, the record stays as
    allocated up to the slot before the deadline; the call for the deadline
    deallocates it, appending to the free list the records of the bucket, in
    which the record is once, and calls the timeout notifier once for each
    record of the bucket, for this one with the flag [false] — unless
    [max_ack_wait_in_slots] is 1, when the notifier is not called. *)
Theorem timeout_liveness (r : cell_harq_repository)
    (ue : nat) (sl_tx sl_ack : slot_point) (max_retxs i : nat)
    (r1 : cell_harq_repository) (cur : slot_point) :
  repo_inv r →
  alloc_harq r ue sl_tx sl_ack max_retxs = Some (Some i, r1) →
  cur < sl_ack + max_ack_wait_in_slots r →
  sl_ack + max_ack_wait_in_slots r ≤ cur + RING_SIZE →
  let deadline := sl_ack + max_ack_wait_in_slots r in
  ∃ h r2 b r3,
    harqs r1 !! i = Some h ∧ status h = waiting_ack ∧
    slot_ack_timeout h = deadline ∧ ack_on_timeout h = false ∧
    (∀ n, n ≤ deadline - S cur →
       ∃ rn, for_each harq_utils.slot_indication (seq (S cur) n) r1 = Some rn ∧
             harqs rn !! i = Some h) ∧
    for_each harq_utils.slot_indication (seq (S cur) (deadline - S cur)) r1
    = Some r2 ∧
    harqs r2 !! i = Some h ∧
    harq_timeout_wheel r2 !! (deadline mod RING_SIZE) = Some b ∧
    NoDup b ∧ i ∈ b ∧
    harq_utils.slot_indication r2 deadline = Some r3 ∧
    harqs r3 !! i = Some (set_status empty h) ∧
    free_harqs r3 = free_harqs r2 ++ b ∧
    timeout_notifier r3
    = timeout_notifier r2 ++
      (if decide (max_ack_wait_in_slots r ≠ 1)
       then b ≫= timeout_report r2 else []) ∧
    timeout_report r2 i = [(ue, IsDl r, false)].
Proof.
  intros Hinv Halloc Hcur Hring deadline.
  pose proof (alloc_harq_inv _ _ _ _ _ _ _ Hinv Halloc) as Hinv1.
  apply alloc_harq_Some in Halloc
    as (e & He & [(? & _)|(i0 & hid & h0 & [= <-] & _ & _ & _ & Hi0 & ->)]);
    [done|].
  set (h := set_alloc_params ue hid sl_tx sl_ack deadline max_retxs h0).
  set (r1 := alloc_result r ue sl_tx sl_ack max_retxs i hid h0 e) in *.
  assert (harqs r1 !! i = Some h) as Hi.
  { simpl. by rewrite list_lookup_insert_eq by (by eapply lookup_lt_Some). }
  assert (∀ n, n ≤ deadline - S cur →
            ∃ rn, for_each harq_utils.slot_indication (seq (S cur) n) r1 = Some rn ∧
                  repo_inv rn ∧ harqs rn !! i = Some h ∧
                  max_ack_wait_in_slots rn = max_ack_wait_in_slots r ∧
                  IsDl rn = IsDl r) as Hkeep.
  { intros n Hn.
    destruct (slot_indications_keep (seq (S cur) n) r1 i h)
      as (rn & Hrn & Hinvn & Hin & HWn & Hdn); [done..| |by exists rn].
    intros sl [Hlo Hhi]%elem_of_seq. simpl.
    apply (slot_before_deadline cur); [lia| |done]. unfold deadline in *. lia. }
  destruct (Hkeep (deadline - S cur)) as (r2 & Hrun & Hinv2 & Hi2 & HW2 & Hd2);
    [done|].
  destruct (slot_indication_spec r2 deadline Hinv2)
    as (b & r3 & Hb & Hnd & Hmem & Hstep & _ & _ & Hin & Hf & Hlog & _ & _).
  assert (i ∈ b) as Hib.
  { apply Hmem. by exists h. }
  exists h, r2, b, r3. split_and!; try done.
  - intros n Hn. destruct (Hkeep n Hn) as (rn & Hrn & _ & Hin' & _). eauto.
  - by apply Hin.
  - by rewrite Hlog, HW2.
  - unfold timeout_report. by rewrite Hi2, Hd2.
Qed.

Lemma timeout_liveness_witness :
  let ops := [op_add_ue 0 17 2 2; op_slot_indication 100] in
  ∃ m r1 h r2 r3,
    run 8 ops (cell_harq_manager_init 16 2 8) = Some m ∧
    alloc_harq (dl m) 0 100 104 4 = Some (Some 0, r1) ∧
    harqs r1 !! 0 = Some h ∧ slot_ack_timeout h = 112 ∧
    for_each harq_utils.slot_indication (seq 101 11) r1 = Some r2 ∧
    harqs r2 !! 0 = Some h ∧
    harq_utils.slot_indication r2 112 = Some r3 ∧
    harqs r3 !! 0 = Some (set_status empty h) ∧
    length (free_harqs r3) = length (free_harqs (dl m)) ∧
    timeout_notifier r3 = timeout_notifier (dl m) ++ [(0, true, false)].
Proof.
  intros ops.
  destruct (run 8 ops (cell_harq_manager_init 16 2 8)) as [m|] eqn:Hrun;
    [|by vm_compute in Hrun].
  pose proof (reachable_inv _ _ _ _ _ _ Hrun) as [Hinv _].
  destruct (alloc_harq (dl m) 0 100 104 4) as [[[i|] r1]|] eqn:Ha;
    [|vm_compute in Hrun; injection Hrun as <-; by vm_compute in Ha..].
  assert (i = 0 ∧ max_ack_wait_in_slots (dl m) = 8 ∧ IsDl (dl m) = true)
    as (-> & HW & Hd).
  { vm_compute in Hrun. injection Hrun as <-. vm_compute in Ha.
    by injection Ha as <- _. }
  destruct (timeout_liveness (dl m) 0 100 104 4 0 r1 100 Hinv Ha)
    as (h & r2 & b & r3 & Hh & _ & Hto & _ & _ & Hr2 & Hh2 & Hb & _ & _ & Hr3 &
        Hh3 & Hf & Hlog & Hrep); [rewrite HW; unfold RING_SIZE; lia..|].
  rewrite HW in *. simpl in Hr2, Hb, Hr3.
  assert (b = [0] ∧ length (free_harqs r2) + 1 = length (free_harqs (dl m)) ∧
          timeout_notifier r2 = timeout_notifier (dl m)) as (-> & Hlen & Hlog2).
  { vm_compute in Hrun. injection Hrun as <-. vm_compute in Ha.
    injection Ha as <-. vm_compute in Hr2. injection Hr2 as <-.
    vm_compute in Hb. injection Hb as <-. by vm_compute. }
  exists m, r1, h, r2, r3. split_and!; try done.
  - rewrite Hf, length_app. simpl. lia.
  - rewrite Hlog, Hlog2. simpl. rewrite Hrep. by rewrite Hd, app_nil_r.
Defined.

(** C3, as stated, fails: with a wait of 8 slots and an acknowledgment
    expected 35 slots after the transmission, the deadline is slot 143, whose
    bucket is also that of slot 103; the record allocated at slot 100 is
    deallocated, and the notifier called, by the slot indication of slot
    103. *)
Lemma timeout_before_deadline :
  ∃ m2 h m3 h',
    run 8 [op_add_ue 0 17 1 1; op_slot_indication 100;
           op_new_dl_tx 0 100 35 4 0;
           op_slot_indication 101; op_slot_indication 102]
      (cell_harq_manager_init 16 2 8) = Some m2 ∧
    harqs (dl m2) !! 0 = Some h ∧ status h = waiting_ack ∧
    slot_ack h = 135 ∧ slot_ack_timeout h = 143 ∧
    max_ack_wait_in_slots (dl m2) = 8 ∧
    slot_indication m2 103 = Some m3 ∧
    harqs (dl m3) !! 0 = Some h' ∧ status h' = empty ∧
    timeout_notifier (dl m3) = [(0, true, false)].
Proof.
  eexists _, _, _, _. split_and!.
  - vm_compute; reflexivity.
  - vm_compute; reflexivity.
  - vm_compute; reflexivity.
  - vm_compute; reflexivity.
  - vm_compute; reflexivity.
  - vm_compute; reflexivity.
  - vm_compute; reflexivity.
  - vm_compute; reflexivity.
  - vm_compute; reflexivity.
  - vm_compute; reflexivity.
Qed.

(** * Further properties *)

(** ** Reachable states *)

Lemma reachable_ue_inv (SHORT MAX max_ues W : nat) ops m :
  run SHORT ops (cell_harq_manager_init MAX max_ues W) = Some m →
  fresh_reservations SHORT ops (cell_harq_manager_init MAX max_ues W) = true →
  mgr_ue_inv m (budget ops).
Proof.
  intros Hrun Hfresh.
  eapply (run_ue_inv SHORT ops _ m (λ _ _, 0)); [| |done..].
  - split; apply cell_harq_repository_init_inv.
  - split; apply cell_harq_repository_init_ue_inv.
Qed.

(** ** Lookups in the index of a terminal *)

Lemma first_harq_pos r test l :
  (∀ k i, l !! k = Some (Some i) → is_Some (harqs r !! i)) →
  ∃ res, first_harq r test l = Some res ∧
    match res with
    | Some i =>
        ∃ k h, l !! k = Some (Some i) ∧ harqs r !! i = Some h ∧ test h = true ∧
          ∀ k' j h', k' < k → l !! k' = Some (Some j) →
                     harqs r !! j = Some h' → test h' = false
    | None =>
        ∀ k j h', l !! k = Some (Some j) → harqs r !! j = Some h' →
                  test h' = false
    end.
Proof.
  induction l as [|[i|] l IH]; intros Hex.
  - exists None. split; [done|]. by intros ???.
  - destruct (Hex 0 i eq_refl) as [h Hh]. simpl. rewrite Hh. simpl.
    destruct (test h) eqn:Ht.
    + exists (Some i). split; [done|]. exists 0, h. split_and!; [done..|].
      intros ??? Hlt. lia.
    + destruct IH as (res & Hres & Hspec).
      { intros k j Hk. by apply (Hex (S k)). }
      exists res. split; [done|]. destruct res as [j|].
      * destruct Hspec as (k & hj & Hk & Hj & Htj & Hbefore).
        exists (S k), hj. split_and!; [done..|].
        intros [|k'] j' h' Hlt Hk' Hj'.
        -- simpl in Hk'. by simplify_eq.
        -- apply (Hbefore k' j'); [lia|done..].
      * intros [|k] j h' Hk Hj.
        -- simpl in Hk. by simplify_eq.
        -- by apply (Hspec k j).
  - destruct IH as (res & Hres & Hspec).
    { intros k j Hk. by apply (Hex (S k)). }
    exists res. split; [done|]. destruct res as [j|].
    + destruct Hspec as (k & hj & Hk & Hj & Htj & Hbefore).
      exists (S k), hj. split_and!; [done..|].
      intros [|k'] j' h' Hlt Hk' Hj'; [done|].
      apply (Hbefore k' j'); [lia|done..].
    + intros [|k] j h' Hk Hj; [done|]. by apply (Hspec k j).
Qed.

Lemma first_harq_index r B ue e test :
  ue_inv r B → ues r !! ue = Some e →
  ∃ res, first_harq r test (ue_harqs e) = Some res ∧
    match res with
    | Some i =>
        ∃ h, harqs r !! i = Some h ∧ owned_by ue h ∧ test h = true ∧
          ∀ j h', harqs r !! j = Some h' → owned_by ue h' → test h' = true →
                  h_id h ≤ h_id h'
    | None =>
        ∀ j h', harqs r !! j = Some h' → owned_by ue h' → test h' = false
    end.
Proof.
  intros Hu He. destruct (Hu ue e He) as (_ & Hent & _ & _).
  destruct (first_harq_pos r test (ue_harqs e)) as (res & Hres & Hspec).
  { intros k i (h & Hh & _)%Hent. by exists h. }
  exists res. split; [done|]. destruct res as [i|].
  - destruct Hspec as (k & h & Hk & Hh & Ht & Hbefore).
    pose proof (proj1 (Hent k i) Hk) as (h0 & Hh0 & Hkey).
    assert (h0 = h) as -> by congruence.
    apply owner_key_Some in Hkey as (Hst & Hue & Hid).
    exists h. split_and!; [done..|].
    intros j h' Hj [Hst' Hue'] Ht'.
    destruct (decide (h_id h ≤ h_id h')) as [|Hgt]; [done|].
    assert (ue_harqs e !! h_id h' = Some (Some j)) as Hk'.
    { apply Hent. exists h'. split; [done|]. by apply owner_key_Some. }
    rewrite (Hbefore (h_id h') j h') in Ht'; [done|lia|done..].
  - intros j h' Hj [Hst' Hue'].
    assert (ue_harqs e !! h_id h' = Some (Some j)) as Hk'.
    { apply Hent. exists h'. split; [done|]. by apply owner_key_Some. }
    by apply (Hspec (h_id h') j).
Qed.

(** X1. On a repository whose terminal indices satisfy the invariant,
    [find_ue_harq_in_state] returns for a terminal of [ues]; a record it
    returns is in the pool, belongs to the terminal, is in the state asked
    for and has the lowest process id among such records; it returns none
    exactly when the terminal has no record in use in that state. *)
Theorem find_ue_harq_in_state_lowest (r : cell_harq_repository)
    (B : nat → nat) (ue : nat) (e : ue_harq_entity_impl) (state : harq_state_t) :
  ue_inv r B → ues r !! ue = Some e →
  ∃ res, find_ue_harq_in_state r ue state = Some res ∧
    match res with
    | Some i =>
        ∃ h, harqs r !! i = Some h ∧ ue_idx h = ue ∧ status h = state ∧
          state ≠ empty ∧
          ∀ j h', harqs r !! j = Some h' → ue_idx h' = ue → status h' = state →
                  h_id h ≤ h_id h'
    | None =>
        ∀ j h', harqs r !! j = Some h' → owned_by ue h' → status h' ≠ state
    end.
Proof.
  intros Hu He. unfold find_ue_harq_in_state. rewrite He. simpl.
  destruct (first_harq_index r B ue e (λ h, bool_decide (status h = state)) Hu He)
    as (res & Hres & Hspec).
  exists res. split; [done|]. destruct res as [i|].
  - destruct Hspec as (h & Hh & [Hst Hue] & Ht & Hlow).
    apply bool_decide_eq_true in Ht.
    exists h. split_and!; [done..|congruence|].
    intros j h' Hj Hue' Hst'. apply (Hlow j h' Hj).
    + split; [congruence|done].
    + by apply bool_decide_eq_true.
  - intros j h' Hj Hown. specialize (Hspec j h' Hj Hown).
    by apply bool_decide_eq_false in Hspec.
Qed.

Lemma find_ue_harq_in_state_lowest_witness :
  let ops := [op_add_ue 0 17 2 2; op_slot_indication 100;
              op_new_dl_tx 0 100 4 4 0; op_new_dl_tx 0 100 4 4 1;
              op_dl_ack_info 1 nack None] in
  ∃ m, run 8 ops (cell_harq_manager_init 16 2 8) = Some m ∧
       find_ue_harq_in_state (dl m) 0 pending_retx = Some (Some 1) ∧
       find_ue_harq_in_state (dl m) 0 waiting_ack = Some (Some 0) ∧
       find_ue_harq_in_state (dl m) 0 empty = Some None ∧
       find_ue_harq_in_state (ul m) 0 waiting_ack = Some None.
Proof.
  intros ops.
  destruct (run 8 ops (cell_harq_manager_init 16 2 8)) as [m|] eqn:Hrun;
    [|by vm_compute in Hrun].
  assert (fresh_reservations 8 ops (cell_harq_manager_init 16 2 8) = true)
    as Hfresh by (vm_compute; reflexivity).
  destruct (reachable_ue_inv _ _ _ _ _ _ Hrun Hfresh) as [Hdl Hul].
  destruct (ues (dl m) !! 0) as [e|] eqn:He;
    [|vm_compute in Hrun; injection Hrun as <-; by vm_compute in He].
  destruct (find_ue_harq_in_state_lowest (dl m) _ 0 e pending_retx Hdl He)
    as (res & Hres & _).
  exists m. split_and!; [done|..].
  - rewrite Hres. vm_compute in Hrun. injection Hrun as <-.
    vm_compute in Hres. by injection Hres as <-.
  - vm_compute in Hrun. injection Hrun as <-. vm_compute; reflexivity.
  - vm_compute in Hrun. injection Hrun as <-. vm_compute; reflexivity.
  - vm_compute in Hrun. injection Hrun as <-. vm_compute; reflexivity.
Defined.

(** X2. With the invariants of both repositories, the lookups of the handle
    agree with the lists of the repository: [find_pending_dl_retx] and
    [find_pending_ul_retx] return a record of the list of pending
    retransmissions, and none exactly when no record of the terminal is on
    that list; [find_dl_harq_waiting_ack] and [find_ul_harq_waiting_ack]
    return a record of the timeout wheel, and none exactly when no record of
    the terminal is in the wheel. *)
Theorem handle_lookups_agree_with_lists (m : cell_harq_manager)
    (B : bool → nat → nat) (d : bool) (ue : nat) (e : ue_harq_entity_impl) :
  mgr_inv m → mgr_ue_inv m B → ues (repo_of d m) !! ue = Some e →
  (∃ res, (if d then find_pending_dl_retx m ue else find_pending_ul_retx m ue)
          = Some res ∧
     (∀ i, res = Some i →
           in_pending_retx_list (repo_of d m) i ∧
           ue_idx <$> harqs (repo_of d m) !! i = Some ue) ∧
     (res = None ↔
      ∀ i h, in_pending_retx_list (repo_of d m) i →
             harqs (repo_of d m) !! i = Some h → ue_idx h ≠ ue)) ∧
  (∃ res, (if d then find_dl_harq_waiting_ack m ue
           else find_ul_harq_waiting_ack m ue) = Some res ∧
     (∀ i, res = Some i →
           in_timeout_wheel (repo_of d m) i ∧
           ue_idx <$> harqs (repo_of d m) !! i = Some ue) ∧
     (res = None ↔
      ∀ i h, in_timeout_wheel (repo_of d m) i →
             harqs (repo_of d m) !! i = Some h → ue_idx h ≠ ue)).
Proof.
  intros Hinv Hu He.
  assert (repo_inv (repo_of d m)) as Hr by (by apply mgr_inv_repo_of).
  assert (ue_inv (repo_of d m) (B d)) as Hi by (destruct d; apply Hu).
  assert (∀ state (on_list : nat → Prop),
            state ≠ empty →
            (∀ i h, harqs (repo_of d m) !! i = Some h →
                    on_list i ↔ status h = state) →
            ∃ res, find_ue_harq_in_state (repo_of d m) ue state = Some res ∧
              (∀ i, res = Some i →
                    on_list i ∧ ue_idx <$> harqs (repo_of d m) !! i = Some ue) ∧
              (res = None ↔
               ∀ i h, on_list i → harqs (repo_of d m) !! i = Some h →
                      ue_idx h ≠ ue)) as Hgen.
  { intros state on_list Hne Hon. unfold find_ue_harq_in_state. rewrite He. simpl.
    destruct (first_harq_index _ _ ue e (λ h, bool_decide (status h = state)) Hi He)
      as (res & Hres & Hspec).
    exists res. split; [done|]. destruct res as [i|].
    - destruct Hspec as (h & Hh & [Hst Hue] & Ht & _).
      apply bool_decide_eq_true in Ht. split_and!.
      + intros ? [= <-]. rewrite Hh. split; [by apply (Hon i h)|by rewrite <-Hue].
      + split; [done|]. intros Hnone. destruct (Hnone i h); [by apply (Hon i h)|done..].
    - split; [done|]. split; [|done]. intros _ i h Hl Hh Hue.
      apply (Hon i h Hh) in Hl.
      assert (owned_by ue h) as Hown by (split; congruence).
      specialize (Hspec i h Hh Hown). by apply bool_decide_eq_false in Hspec. }
  split.
  - destruct (Hgen pending_retx (in_pending_retx_list (repo_of d m)))
      as (res & Hres & Hspec); [done| |].
    { intros i h Hh. by apply in_pending_retx_list_iff. }
    exists res. split; [|done]. by destruct d.
  - destruct (Hgen waiting_ack (in_timeout_wheel (repo_of d m)))
      as (res & Hres & Hspec); [done| |].
    { intros i h Hh. by apply in_timeout_wheel_iff. }
    exists res. split; [|done]. by destruct d.
Qed.

Lemma handle_lookups_agree_with_lists_witness :
  let ops := [op_add_ue 0 17 2 2; op_slot_indication 100;
              op_new_dl_tx 0 100 4 4 0; op_new_dl_tx 0 100 4 4 1;
              op_dl_ack_info 1 nack None] in
  ∃ m, run 8 ops (cell_harq_manager_init 16 2 8) = Some m ∧
       find_pending_dl_retx m 0 = Some (Some 1) ∧
       in_pending_retx_list (dl m) 1 ∧
       find_dl_harq_waiting_ack m 0 = Some (Some 0) ∧
       in_timeout_wheel (dl m) 0.
Proof.
  intros ops.
  destruct (run 8 ops (cell_harq_manager_init 16 2 8)) as [m|] eqn:Hrun;
    [|by vm_compute in Hrun].
  assert (fresh_reservations 8 ops (cell_harq_manager_init 16 2 8) = true)
    as Hfresh by (vm_compute; reflexivity).
  destruct (ues (dl m) !! 0) as [e|] eqn:He;
    [|vm_compute in Hrun; injection Hrun as <-; by vm_compute in He].
  destruct (handle_lookups_agree_with_lists m _ true 0 e
              (reachable_inv _ _ _ _ _ _ Hrun)
              (reachable_ue_inv _ _ _ _ _ _ Hrun Hfresh) He)
    as [(res1 & Hres1 & Hon1 & _) (res2 & Hres2 & Hon2 & _)].
  assert (res1 = Some 1) as ->.
  { vm_compute in Hrun. injection Hrun as <-. vm_compute in Hres1.
    by injection Hres1 as <-. }
  assert (res2 = Some 0) as ->.
  { vm_compute in Hrun. injection Hrun as <-. vm_compute in Hres2.
    by injection Hres2 as <-. }
  exists m. split_and!; [done..| |done|].
  - by apply (Hon1 1).
  - by apply (Hon2 0).
Defined.

(** ** Lookups by slot *)

Lemma dl_harq_matches_spec uci_slot bit_idx h :
  dl_harq_matches uci_slot bit_idx h = true ↔
  status h = waiting_ack ∧ slot_ack h = uci_slot ∧ harq_bit_idx h = bit_idx.
Proof.
  unfold dl_harq_matches.
  rewrite !andb_true_iff, !bool_decide_eq_true. tauto.
Qed.

Lemma ul_harq_matches_spec pusch_slot h :
  ul_harq_matches pusch_slot h = true ↔
  status h = waiting_ack ∧ slot_tx h = pusch_slot.
Proof.
  unfold ul_harq_matches.
  rewrite !andb_true_iff, !bool_decide_eq_true. tauto.
Qed.

(** X3. With the invariant of the downlink index, [find_dl_harq] returns for
    a terminal of [ues]; a record it returns belongs to the terminal, waits
    for an acknowledgment in the slot asked for under the bit index asked
    for, and has the lowest process id among such records; it returns none
    exactly when the terminal has no such record. *)
Theorem find_dl_harq_lowest (m : cell_harq_manager) (B : nat → nat) (ue : nat)
    (e : ue_harq_entity_impl) (uci_slot : slot_point) (bit_idx : nat) :
  ue_inv (dl m) B → ues (dl m) !! ue = Some e →
  ∃ res, find_dl_harq m ue uci_slot bit_idx = Some res ∧
    match res with
    | Some i =>
        ∃ h, harqs (dl m) !! i = Some h ∧ ue_idx h = ue ∧
          status h = waiting_ack ∧ slot_ack h = uci_slot ∧
          harq_bit_idx h = bit_idx ∧
          ∀ j h', harqs (dl m) !! j = Some h' → ue_idx h' = ue →
                  status h' = waiting_ack → slot_ack h' = uci_slot →
                  harq_bit_idx h' = bit_idx → h_id h ≤ h_id h'
    | None =>
        ∀ j h', harqs (dl m) !! j = Some h' → ue_idx h' = ue →
                status h' = waiting_ack → slot_ack h' = uci_slot →
                harq_bit_idx h' ≠ bit_idx
    end.
Proof.
  intros Hu He. unfold find_dl_harq. rewrite He. simpl.
  destruct (first_harq_index _ B ue e (dl_harq_matches uci_slot bit_idx) Hu He)
    as (res & Hres & Hspec).
  exists res. split; [done|]. destruct res as [i|].
  - destruct Hspec as (h & Hh & [Hst Hue] & Ht & Hlow).
    apply dl_harq_matches_spec in Ht as (Hw & Hs & Hb).
    exists h. split_and!; [done..|].
    intros j h' Hj Hue' Hw' Hs' Hb'. apply (Hlow j h' Hj).
    + split; [congruence|done].
    + by apply dl_harq_matches_spec.
  - intros j h' Hj Hue' Hw' Hs' Hb'.
    assert (owned_by ue h') as Hown by (split; congruence).
    specialize (Hspec j h' Hj Hown).
    apply not_true_iff_false in Hspec. apply Hspec.
    by apply dl_harq_matches_spec.
Qed.

Lemma find_dl_harq_lowest_witness :
  let ops := [op_add_ue 0 17 2 2; op_slot_indication 100;
              op_new_dl_tx 0 100 4 4 0; op_new_dl_tx 0 100 4 4 1] in
  ∃ m, run 8 ops (cell_harq_manager_init 16 2 8) = Some m ∧
       find_dl_harq m 0 104 1 = Some (Some 1) ∧
       find_dl_harq m 0 104 2 = Some None ∧
       find_dl_harq m 0 105 1 = Some None.
Proof.
  intros ops.
  destruct (run 8 ops (cell_harq_manager_init 16 2 8)) as [m|] eqn:Hrun;
    [|by vm_compute in Hrun].
  assert (fresh_reservations 8 ops (cell_harq_manager_init 16 2 8) = true)
    as Hfresh by (vm_compute; reflexivity).
  destruct (reachable_ue_inv _ _ _ _ _ _ Hrun Hfresh) as [Hdl Hul].
  destruct (ues (dl m) !! 0) as [e|] eqn:He;
    [|vm_compute in Hrun; injection Hrun as <-; by vm_compute in He].
  destruct (find_dl_harq_lowest m _ 0 e 104 1 Hdl He) as (res & Hres & _).
  exists m. split_and!; [done|..].
  - rewrite Hres. vm_compute in Hrun. injection Hrun as <-.
    vm_compute in Hres. by injection Hres as <-.
  - vm_compute in Hrun. injection Hrun as <-. vm_compute; reflexivity.
  - vm_compute in Hrun. injection Hrun as <-. vm_compute; reflexivity.
Defined.

(** X4. With the invariant of the uplink index, [find_ul_harq] returns for a
    terminal of [ues]; a record it returns belongs to the terminal, waits for
    an acknowledgment and was transmitted in the slot asked for, and has the
    lowest process id among such records; it returns none exactly when the
    terminal has no such record. *)
Theorem find_ul_harq_lowest (m : cell_harq_manager) (B : nat → nat) (ue : nat)
    (e : ue_harq_entity_impl) (pusch_slot : slot_point) :
  ue_inv (ul m) B → ues (ul m) !! ue = Some e →
  ∃ res, find_ul_harq m ue pusch_slot = Some res ∧
    match res with
    | Some i =>
        ∃ h, harqs (ul m) !! i = Some h ∧ ue_idx h = ue ∧
          status h = waiting_ack ∧ slot_tx h = pusch_slot ∧
          ∀ j h', harqs (ul m) !! j = Some h' → ue_idx h' = ue →
                  status h' = waiting_ack → slot_tx h' = pusch_slot →
                  h_id h ≤ h_id h'
    | None =>
        ∀ j h', harqs (ul m) !! j = Some h' → ue_idx h' = ue →
                status h' = waiting_ack → slot_tx h' ≠ pusch_slot
    end.
Proof.
  intros Hu He. unfold find_ul_harq. rewrite He. simpl.
  destruct (first_harq_index _ B ue e (ul_harq_matches pusch_slot) Hu He)
    as (res & Hres & Hspec).
  exists res. split; [done|]. destruct res as [i|].
  - destruct Hspec as (h & Hh & [Hst Hue] & Ht & Hlow).
    apply ul_harq_matches_spec in Ht as (Hw & Hs).
    exists h. split_and!; [done..|].
    intros j h' Hj Hue' Hw' Hs'. apply (Hlow j h' Hj).
    + split; [congruence|done].
    + by apply ul_harq_matches_spec.
  - intros j h' Hj Hue' Hw' Hs'.
    assert (owned_by ue h') as Hown by (split; congruence).
    specialize (Hspec j h' Hj Hown).
    apply not_true_iff_false in Hspec. apply Hspec.
    by apply ul_harq_matches_spec.
Qed.

Lemma find_ul_harq_lowest_witness :
  let ops := [op_add_ue 0 17 2 2; op_slot_indication 100;
              op_new_ul_tx 0 104 4; op_new_ul_tx 0 104 4] in
  ∃ m, run 8 ops (cell_harq_manager_init 16 2 8) = Some m ∧
       find_ul_harq m 0 104 = Some (Some 0) ∧
       find_ul_harq m 0 105 = Some None.
Proof.
  intros ops.
  destruct (run 8 ops (cell_harq_manager_init 16 2 8)) as [m|] eqn:Hrun;
    [|by vm_compute in Hrun].
  assert (fresh_reservations 8 ops (cell_harq_manager_init 16 2 8) = true)
    as Hfresh by (vm_compute; reflexivity).
  destruct (reachable_ue_inv _ _ _ _ _ _ Hrun Hfresh) as [Hdl Hul].
  destruct (ues (ul m) !! 0) as [e|] eqn:He;
    [|vm_compute in Hrun; injection Hrun as <-; by vm_compute in He].
  destruct (find_ul_harq_lowest m _ 0 e 104 Hul He) as (res & Hres & _).
  exists m. split_and!; [done|..].
  - rewrite Hres. vm_compute in Hrun. injection Hrun as <-.
    vm_compute in Hres. by injection Hres as <-.
  - vm_compute in Hrun. injection Hrun as <-. vm_compute; reflexivity.
Defined.

(** ** A transmission and the lookup of its record *)

Lemma new_dl_tx_Some m ue pdsch_slot k1 max_retxs bit_idx i m' :
  new_dl_tx m ue pdsch_slot k1 max_retxs bit_idx = Some (Some i, m') →
  ∃ e hid h,
    ues (dl m) !! ue = Some e ∧
    list.last (free_harqs (dl m)) = Some i ∧
    list.last (free_harq_ids e) = Some hid ∧
    hid < length (ue_harqs e) ∧ harqs (dl m) !! i = Some h ∧
    harqs (dl m')
    = <[i := seed_dl_params bit_idx
               (set_alloc_params ue hid pdsch_slot (pdsch_slot + k1)
                  (pdsch_slot + k1 + max_ack_wait_in_slots (dl m)) max_retxs h)]>
        (harqs (dl m)) ∧
    ues (dl m')
    = <[ue := {| free_harq_ids := removelast (free_harq_ids e);
                 ue_harqs := <[hid := Some i]> (ue_harqs e) |}]> (ues (dl m)) ∧
    ul m' = ul m ∧ last_sl_tx m' = last_sl_tx m.
Proof.
  unfold new_dl_tx. intros Hn.
  destruct (alloc_harq (dl m) ue pdsch_slot (pdsch_slot + k1) max_retxs)
    as [[res r']|] eqn:Ha; simplify_eq/=.
  apply alloc_harq_Some in Ha
    as (e & He & [(-> & _)|(i0 & hid & h & -> & Hl & Hid & Hlt & Hh & ->)]);
    simplify_eq/=.
  rewrite list_lookup_insert_eq in Hn by (by eapply lookup_lt_Some).
  simplify_eq/=. exists e, hid, h. split_and!; [done..| |done|done|done].
  by rewrite list_insert_insert_eq.
Qed.

Lemma new_ul_tx_Some m ue pusch_slot max_retxs i m' :
  new_ul_tx m ue pusch_slot max_retxs = Some (Some i, m') →
  ∃ e hid h,
    ues (ul m) !! ue = Some e ∧
    list.last (free_harqs (ul m)) = Some i ∧
    list.last (free_harq_ids e) = Some hid ∧
    hid < length (ue_harqs e) ∧ harqs (ul m) !! i = Some h ∧
    harqs (ul m')
    = <[i := seed_ul_params
               (set_alloc_params ue hid pusch_slot pusch_slot
                  (pusch_slot + max_ack_wait_in_slots (ul m)) max_retxs h)]>
        (harqs (ul m)) ∧
    ues (ul m')
    = <[ue := {| free_harq_ids := removelast (free_harq_ids e);
                 ue_harqs := <[hid := Some i]> (ue_harqs e) |}]> (ues (ul m)) ∧
    dl m' = dl m ∧ last_sl_tx m' = last_sl_tx m.
Proof.
  unfold new_ul_tx. intros Hn.
  destruct (alloc_harq (ul m) ue pusch_slot pusch_slot max_retxs)
    as [[res r']|] eqn:Ha; simplify_eq/=.
  apply alloc_harq_Some in Ha
    as (e & He & [(-> & _)|(i0 & hid & h & -> & Hl & Hid & Hlt & Hh & ->)]);
    simplify_eq/=.
  rewrite list_lookup_insert_eq in Hn by (by eapply lookup_lt_Some).
  simplify_eq/=. exists e, hid, h. split_and!; [done..| |done|done|done].
  by rewrite list_insert_insert_eq.
Qed.

(** X5. After [new_dl_tx] has handed out a record for a transmission in slot
    [pdsch_slot] with offset [k1] under bit index [bit_idx], [find_dl_harq]
    for the slot [pdsch_slot + k1] and that bit index finds a record of the
    terminal; it is the record handed out when the lookup found none
    before. *)
Theorem new_dl_tx_then_find_dl_harq (m : cell_harq_manager)
    (B : bool → nat → nat) (ue pdsch_slot k1 max_retxs bit_idx i : nat)
    (m' : cell_harq_manager) :
  mgr_inv m → mgr_ue_inv m B →
  new_dl_tx m ue pdsch_slot k1 max_retxs bit_idx = Some (Some i, m') →
  ∃ j h, find_dl_harq m' ue (pdsch_slot + k1) bit_idx = Some (Some j) ∧
    harqs (dl m') !! j = Some h ∧ ue_idx h = ue ∧ status h = waiting_ack ∧
    slot_ack h = pdsch_slot + k1 ∧ harq_bit_idx h = bit_idx ∧
    (find_dl_harq m ue (pdsch_slot + k1) bit_idx = Some None → j = i).
Proof.
  intros Hinv Hu Hn.
  assert (mgr_ue_inv m' B) as [Hu' _].
  { apply (exec_ue_inv 0 m (op_new_dl_tx ue pdsch_slot k1 max_retxs bit_idx) m' B);
      [done..|]. simpl. by rewrite Hn. }
  destruct (new_dl_tx_Some _ _ _ _ _ _ _ _ Hn)
    as (e & hid & h0 & He & _ & _ & _ & Hh0 & Hhs & Hues & _).
  assert (i < length (harqs (dl m))) as Hlt by (by eapply lookup_lt_Some).
  assert (ue < length (ues (dl m))) as Hlt' by (by eapply lookup_lt_Some).
  assert (∃ e', ues (dl m') !! ue = Some e') as [e' He'].
  { rewrite Hues, list_lookup_insert_eq by done. eauto. }
  destruct (first_harq_index _ _ ue e'
              (dl_harq_matches (pdsch_slot + k1) bit_idx) Hu' He')
    as (res & Hres & Hspec).
  unfold find_dl_harq at 1. rewrite He'. simpl. rewrite Hres.
  destruct res as [j|].
  - destruct Hspec as (h & Hh & [Hst Hue] & Ht & _).
    apply dl_harq_matches_spec in Ht as (Hw & Hs & Hb).
    exists j, h. split_and!; [done..|].
    intros Hnone. destruct (decide (j = i)) as [|Hne]; [done|].
    rewrite Hhs, list_lookup_insert_ne in Hh by done.
    destruct Hu as [Hu _].
    destruct (first_harq_index _ _ ue e
                (dl_harq_matches (pdsch_slot + k1) bit_idx) Hu He)
      as (res & Hres0 & Hspec0).
    unfold find_dl_harq in Hnone. rewrite He in Hnone. simpl in Hnone.
    assert (res = None) as -> by congruence.
    assert (dl_harq_matches (pdsch_slot + k1) bit_idx h = false) as Hf
      by (by apply (Hspec0 j h Hh)).
    apply not_true_iff_false in Hf. destruct Hf.
    by apply dl_harq_matches_spec.
  - exfalso.
    assert (harqs (dl m') !! i
            = Some (seed_dl_params bit_idx
                      (set_alloc_params ue hid pdsch_slot (pdsch_slot + k1)
                         (pdsch_slot + k1 + max_ack_wait_in_slots (dl m))
                         max_retxs h0))) as Hi.
    { by rewrite Hhs, list_lookup_insert_eq. }
    assert (dl_harq_matches (pdsch_slot + k1) bit_idx
              (seed_dl_params bit_idx
                 (set_alloc_params ue hid pdsch_slot (pdsch_slot + k1)
                    (pdsch_slot + k1 + max_ack_wait_in_slots (dl m))
                    max_retxs h0)) = false) as Hf
      by (by apply (Hspec i _ Hi)).
    apply not_true_iff_false in Hf. destruct Hf.
    by apply dl_harq_matches_spec.
Qed.

Lemma new_dl_tx_then_find_dl_harq_witness :
  let ops := [op_add_ue 0 17 2 2; op_slot_indication 100;
              op_new_dl_tx 0 100 4 4 0] in
  ∃ m m', run 8 ops (cell_harq_manager_init 16 2 8) = Some m ∧
          new_dl_tx m 0 101 4 4 0 = Some (Some 1, m') ∧
          find_dl_harq m 0 105 0 = Some None ∧
          find_dl_harq m' 0 105 0 = Some (Some 1).
Proof.
  intros ops.
  destruct (run 8 ops (cell_harq_manager_init 16 2 8)) as [m|] eqn:Hrun;
    [|by vm_compute in Hrun].
  assert (fresh_reservations 8 ops (cell_harq_manager_init 16 2 8) = true)
    as Hfresh by (vm_compute; reflexivity).
  destruct (new_dl_tx m 0 101 4 4 0) as [[[i|] m']|] eqn:Hn;
    [|vm_compute in Hrun; injection Hrun as <-; by vm_compute in Hn..].
  assert (i = 1) as ->.
  { vm_compute in Hrun. injection Hrun as <-. vm_compute in Hn.
    by injection Hn as <- _. }
  assert (find_dl_harq m 0 105 0 = Some None) as Hnone.
  { vm_compute in Hrun. injection Hrun as <-. vm_compute; reflexivity. }
  destruct (new_dl_tx_then_find_dl_harq m _ 0 101 4 4 0 1 m'
              (reachable_inv _ _ _ _ _ _ Hrun)
              (reachable_ue_inv _ _ _ _ _ _ Hrun Hfresh) Hn)
    as (j & h & Hfind & _ & _ & _ & _ & _ & Hj).
  rewrite (Hj Hnone) in Hfind. by exists m, m'.
Defined.

(** X6. After [new_ul_tx] has handed out a record for a transmission in slot
    [pusch_slot], [find_ul_harq] for that slot finds a record of the
    terminal; it is the record handed out when the lookup found none
    before. *)
Theorem new_ul_tx_then_find_ul_harq (m : cell_harq_manager)
    (B : bool → nat → nat) (ue pusch_slot max_retxs i : nat)
    (m' : cell_harq_manager) :
  mgr_inv m → mgr_ue_inv m B →
  new_ul_tx m ue pusch_slot max_retxs = Some (Some i, m') →
  ∃ j h, find_ul_harq m' ue pusch_slot = Some (Some j) ∧
    harqs (ul m') !! j = Some h ∧ ue_idx h = ue ∧ status h = waiting_ack ∧
    slot_tx h = pusch_slot ∧
    (find_ul_harq m ue pusch_slot = Some None → j = i).
Proof.
  intros Hinv Hu Hn.
  assert (mgr_ue_inv m' B) as [_ Hu'].
  { apply (exec_ue_inv 0 m (op_new_ul_tx ue pusch_slot max_retxs) m' B);
      [done..|]. simpl. by rewrite Hn. }
  destruct (new_ul_tx_Some _ _ _ _ _ _ Hn)
    as (e & hid & h0 & He & _ & _ & _ & Hh0 & Hhs & Hues & _).
  assert (i < length (harqs (ul m))) as Hlt by (by eapply lookup_lt_Some).
  assert (ue < length (ues (ul m))) as Hlt' by (by eapply lookup_lt_Some).
  assert (∃ e', ues (ul m') !! ue = Some e') as [e' He'].
  { rewrite Hues, list_lookup_insert_eq by done. eauto. }
  destruct (first_harq_index _ _ ue e' (ul_harq_matches pusch_slot) Hu' He')
    as (res & Hres & Hspec).
  unfold find_ul_harq at 1. rewrite He'. simpl. rewrite Hres.
  destruct res as [j|].
  - destruct Hspec as (h & Hh & [Hst Hue] & Ht & _).
    apply ul_harq_matches_spec in Ht as (Hw & Hs).
    exists j, h. split_and!; [done..|].
    intros Hnone. destruct (decide (j = i)) as [|Hne]; [done|].
    rewrite Hhs, list_lookup_insert_ne in Hh by done.
    destruct Hu as [_ Hu].
    destruct (first_harq_index _ _ ue e (ul_harq_matches pusch_slot) Hu He)
      as (res & Hres0 & Hspec0).
    unfold find_ul_harq in Hnone. rewrite He in Hnone. simpl in Hnone.
    assert (res = None) as -> by congruence.
    assert (ul_harq_matches pusch_slot h = false) as Hf
      by (by apply (Hspec0 j h Hh)).
    apply not_true_iff_false in Hf. destruct Hf.
    by apply ul_harq_matches_spec.
  - exfalso.
    assert (harqs (ul m') !! i
            = Some (seed_ul_params
                      (set_alloc_params ue hid pusch_slot pusch_slot
                         (pusch_slot + max_ack_wait_in_slots (ul m))
                         max_retxs h0))) as Hi.
    { by rewrite Hhs, list_lookup_insert_eq. }
    assert (ul_harq_matches pusch_slot
              (seed_ul_params
                 (set_alloc_params ue hid pusch_slot pusch_slot
                    (pusch_slot + max_ack_wait_in_slots (ul m))
                    max_retxs h0)) = false) as Hf
      by (by apply (Hspec i _ Hi)).
    apply not_true_iff_false in Hf. destruct Hf.
    by apply ul_harq_matches_spec.
Qed.

Lemma new_ul_tx_then_find_ul_harq_witness :
  let ops := [op_add_ue 0 17 2 2; op_slot_indication 100;
              op_new_ul_tx 0 104 4] in
  ∃ m m', run 8 ops (cell_harq_manager_init 16 2 8) = Some m ∧
          new_ul_tx m 0 105 4 = Some (Some 1, m') ∧
          find_ul_harq m 0 105 = Some None ∧
          find_ul_harq m' 0 105 = Some (Some 1).
Proof.
  intros ops.
  destruct (run 8 ops (cell_harq_manager_init 16 2 8)) as [m|] eqn:Hrun;
    [|by vm_compute in Hrun].
  assert (fresh_reservations 8 ops (cell_harq_manager_init 16 2 8) = true)
    as Hfresh by (vm_compute; reflexivity).
  destruct (new_ul_tx m 0 105 4) as [[[i|] m']|] eqn:Hn;
    [|vm_compute in Hrun; injection Hrun as <-; by vm_compute in Hn..].
  assert (i = 1) as ->.
  { vm_compute in Hrun. injection Hrun as <-. vm_compute in Hn.
    by injection Hn as <- _. }
  assert (find_ul_harq m 0 105 = Some None) as Hnone.
  { vm_compute in Hrun. injection Hrun as <-. vm_compute; reflexivity. }
  destruct (new_ul_tx_then_find_ul_harq m _ 0 105 4 1 m'
              (reachable_inv _ _ _ _ _ _ Hrun)
              (reachable_ue_inv _ _ _ _ _ _ Hrun Hfresh) Hn)
    as (j & h & Hfind & _ & _ & _ & _ & Hj).
  rewrite (Hj Hnone) in Hfind. by exists m, m'.
Defined.

(** ** Removal of a terminal *)

Lemma destroy_ue_harqs_loop_records r B ue e0 n :
  repo_inv r → ue_inv r B → ues r !! ue = Some e0 →
  n ≤ length (ue_harqs e0) →
  ∃ r1, for_each (destroy_ue_harqs_step ue) (seq 0 n) r = Some r1 ∧
    (∀ j h, harqs r !! j = Some h →
       harqs r1 !! j
       = Some (if decide (owned_by ue h ∧ h_id h < n)
               then set_status empty h else h)) ∧
    length (harqs r1) = length (harqs r) ∧
    (∀ u, u ≠ ue → ues r1 !! u = ues r !! u) ∧
    timeout_notifier r1 = timeout_notifier r.
Proof.
  intros Hinv Hu He0. induction n as [|n IH]; intros Hn.
  - exists r. split_and!; [done| |done..].
    intros j h Hj. rewrite Hj. f_equal. case_decide as Hc; [|done].
    destruct Hc as [_ Hc]. lia.
  - destruct IH as (r1 & Hloop & Hrec & Hlen & Hues & Hlog); [lia|].
    destruct (destroy_ue_harqs_loop r B ue n r1 e0 Hinv Hu He0 Hloop)
      as (Hinv1 & Hu1 & e1 & He1 & Hlen1 & _).
    rewrite seq_S, for_each_app, Hloop. simpl.
    unfold destroy_ue_harqs_step. rewrite He1. simpl.
    destruct (Hu1 ue e1 He1) as (_ & Hent & _ & _).
    assert (∀ j h, harqs r !! j = Some h → owned_by ue h → h_id h = n →
                   ue_harqs e1 !! n = Some (Some j)) as Hat.
    { intros j h Hj Hown Hid. apply Hent. exists h. split.
      - rewrite (Hrec j h Hj). f_equal. case_decide as Hc; [|done].
        destruct Hc as [_ Hc]. lia.
      - destruct Hown. by apply owner_key_Some. }
    destruct (ue_harqs e1 !! n) as [[i|]|] eqn:Hk; simpl.
    + apply Hent in Hk as (h1 & Hi1 & (Hst1 & Hue1 & Hid1)%owner_key_Some).
      destruct (dealloc_harq_in_use r1 i h1) as (e & He & _ & Heq);
        [apply Hinv1|done..|].
      rewrite Heq. eexists. split; [done|]. simpl.
      split_and!; [|by rewrite length_insert| |done].
      * intros j h Hj. pose proof (Hrec j h Hj) as Hj1.
        destruct (decide (j = i)) as [->|Hne].
        -- rewrite list_lookup_insert_eq by (by eapply lookup_lt_Some).
           rewrite Hi1 in Hj1. injection Hj1 as ->.
           case_decide as Hc; [by destruct Hst1|].
           rewrite decide_True; [done|].
           split; [by split|lia].
        -- rewrite list_lookup_insert_ne by done. rewrite Hj1. f_equal.
           destruct (decide (owned_by ue h ∧ h_id h < n)) as [Hc|Hc].
           ++ rewrite decide_True; [done|]. destruct Hc. split; [done|lia].
           ++ rewrite decide_False; [done|]. intros [Hown Hlt].
              destruct (decide (h_id h = n)) as [Hid|Hid].
              ** specialize (Hat j h Hj Hown Hid). by simplify_eq.
              ** apply Hc. split; [done|lia].
      * intros u Hne. rewrite list_lookup_insert_ne by congruence. by apply Hues.
    + exists r1. split; [done|]. split_and!; [|done..].
      intros j h Hj. rewrite (Hrec j h Hj). f_equal.
      destruct (decide (owned_by ue h ∧ h_id h < n)) as [Hc|Hc].
      * rewrite decide_True; [done|]. destruct Hc. split; [done|lia].
      * rewrite decide_False; [done|]. intros [Hown Hlt].
        destruct (decide (h_id h = n)) as [Hid|Hid].
        -- by specialize (Hat j h Hj Hown Hid).
        -- apply Hc. split; [done|lia].
    + apply lookup_ge_None in Hk. lia.
Qed.

Lemma length_filter_released (ue : nat) (hs : list harq_process) :
  length (filter in_use
            ((λ h, if decide (owned_by ue h) then set_status empty h else h)
               <$> hs))
  + length (filter (owned_by ue) hs)
  = length (filter in_use hs).
Proof.
  induction hs as [|h hs IH]; [done|].
  rewrite fmap_cons, !filter_cons.
  destruct (decide (owned_by ue h)) as [Hown|Hown].
  - rewrite decide_False by (unfold in_use; simpl; by intros ?).
    rewrite decide_True by (by destruct Hown). simpl. lia.
  - destruct (decide (in_use h)); simpl; lia.
Qed.

Lemma destroy_ue_harqs_spec r B ue e :
  repo_inv r → ue_inv r B → ues r !! ue = Some e →
  ∃ r', destroy_ue_harqs r ue = Some r' ∧ repo_inv r' ∧
    ue_inv r' (λ u, if decide (u = ue) then 0 else B u) ∧
    harqs r'
    = (λ h, if decide (owned_by ue h) then set_status empty h else h)
        <$> harqs r ∧
    (∃ e', ues r' !! ue = Some e' ∧ free_harq_ids e' = [] ∧
           length (ue_harqs e') = length (ue_harqs e) ∧
           ∀ k, k < length (ue_harqs e) → ue_harqs e' !! k = Some None) ∧
    (∀ u, u ≠ ue → ues r' !! u = ues r !! u) ∧
    timeout_notifier r' = timeout_notifier r.
Proof.
  intros Hinv Hu He.
  destruct (destroy_ue_harqs_loop_records r B ue e (length (ue_harqs e))
              Hinv Hu He) as (r1 & Hloop & Hrec & Hlen & Hues & Hlog); [done|].
  destruct (destroy_ue_harqs_loop r B ue _ r1 e Hinv Hu He Hloop)
    as (Hinv1 & Hu1 & e1 & He1 & Hlen1 & Hdone).
  assert (destroy_ue_harqs r ue
          = Some (set_ues (<[ue := {| free_harq_ids := [];
                                      ue_harqs := ue_harqs e1 |}]> (ues r1)) r1))
    as Hd.
  { unfold destroy_ue_harqs. rewrite He. simpl. rewrite Hloop. simpl.
    by rewrite He1. }
  eexists. split; [exact Hd|].
  split_and!.
  - exact (destroy_ue_harqs_preserves _ _ _ Hinv Hd).
  - exact (destroy_ue_harqs_ue_inv _ _ _ _ Hinv Hu Hd).
  - simpl. apply list_eq. intros j. rewrite list_lookup_fmap.
    destruct (harqs r !! j) as [h|] eqn:Hj; simpl.
    + rewrite (Hrec j h Hj). f_equal.
      destruct (decide (owned_by ue h)) as [Hown|Hown].
      * rewrite decide_True; [done|]. split; [done|].
        destruct Hinv as (_ & Ho & _). destruct Hown as [Hst Hue].
        destruct (Ho j h Hj Hst) as (e' & He' & Hlt).
        rewrite Hue in He'. by simplify_eq.
      * rewrite decide_False; [done|]. by intros [? _].
    + apply lookup_ge_None. rewrite Hlen. by apply lookup_ge_None.
  - simpl. eexists. split.
    { by rewrite list_lookup_insert_eq by (by eapply lookup_lt_Some). }
    simpl. split_and!; [done..|]. intros k Hk.
    destruct (ue_harqs e1 !! k) as [[i|]|] eqn:Hk1; [|done|].
    + by destruct (Hdone k i Hk).
    + apply lookup_ge_None in Hk1. lia.
  - intros u Hne. simpl. rewrite list_lookup_insert_ne by congruence.
    by apply Hues.
  - done.
Qed.

(** X7. On a repository that satisfies the invariants, [destroy_ue_harqs]
    returns for a terminal of [ues]. It empties exactly the records in use
    of that terminal and leaves every other record as it is; the released
    records join the free list; the terminal is left with no free process
    id and an index without records; the other terminals are untouched and
    the timeout notifier is not called. *)
Theorem destroy_ue_harqs_releases (r : cell_harq_repository) (B : nat → nat)
    (ue : nat) (e : ue_harq_entity_impl) :
  repo_inv r → ue_inv r B → ues r !! ue = Some e →
  ∃ r', destroy_ue_harqs r ue = Some r' ∧
    (∀ j h, harqs r !! j = Some h →
       harqs r' !! j
       = Some (if decide (owned_by ue h) then set_status empty h else h)) ∧
    nof_owned r' ue = 0 ∧
    nof_in_use r' + nof_owned r ue = nof_in_use r ∧
    length (free_harqs r') = length (free_harqs r) + nof_owned r ue ∧
    (∃ e', ues r' !! ue = Some e' ∧ free_harq_ids e' = [] ∧
           ∀ k, k < length (ue_harqs e) → ue_harqs e' !! k = Some None) ∧
    (∀ u, u ≠ ue → ues r' !! u = ues r !! u) ∧
    timeout_notifier r' = timeout_notifier r.
Proof.
  intros Hinv Hu He.
  destruct (destroy_ue_harqs_spec r B ue e Hinv Hu He)
    as (r' & Hd & Hinv' & Hu' & Hhs & (e' & He' & Hfree & Hlen & Hidx) & Hues & Hlog).
  exists r'. split; [done|].
  assert (nof_in_use r' + nof_owned r ue = nof_in_use r) as Hcount.
  { unfold nof_in_use, nof_owned. rewrite Hhs. apply length_filter_released. }
  split_and!; [| |done| |by exists e'|done..].
  - intros j h Hj. by rewrite Hhs, list_lookup_fmap, Hj.
  - destruct (Hu' ue e' He') as (_ & _ & _ & Hb).
    rewrite decide_True in Hb by done. unfold nof_owned. lia.
  - destruct Hinv as ((_ & _ & Hp) & _). destruct Hinv' as ((_ & _ & Hp') & _).
    assert (length (harqs r') = length (harqs r)) as Hl
      by (by rewrite Hhs, length_fmap).
    unfold nof_in_use in Hcount. lia.
Qed.

Lemma destroy_ue_harqs_releases_witness :
  let ops := [op_add_ue 0 17 2 2; op_add_ue 1 18 2 2; op_slot_indication 100;
              op_new_dl_tx 0 100 4 4 0; op_new_dl_tx 1 100 4 4 1;
              op_new_dl_tx 0 101 4 4 0; op_dl_ack_info 2 nack None] in
  ∃ m r', run 8 ops (cell_harq_manager_init 16 2 8) = Some m ∧
          nof_owned (dl m) 0 = 2 ∧ nof_in_use (dl m) = 3 ∧
          destroy_ue_harqs (dl m) 0 = Some r' ∧
          nof_owned r' 0 = 0 ∧ nof_in_use r' = 1 ∧
          length (free_harqs r') = length (free_harqs (dl m)) + 2.
Proof.
  intros ops.
  destruct (run 8 ops (cell_harq_manager_init 16 2 8)) as [m|] eqn:Hrun;
    [|by vm_compute in Hrun].
  assert (fresh_reservations 8 ops (cell_harq_manager_init 16 2 8) = true)
    as Hfresh by (vm_compute; reflexivity).
  destruct (reachable_ue_inv _ _ _ _ _ _ Hrun Hfresh) as [Hdl _].
  destruct (reachable_inv _ _ _ _ _ _ Hrun) as [Hinv _].
  destruct (ues (dl m) !! 0) as [e|] eqn:He;
    [|vm_compute in Hrun; injection Hrun as <-; by vm_compute in He].
  assert (nof_owned (dl m) 0 = 2 ∧ nof_in_use (dl m) = 3) as [Hown Huse].
  { vm_compute in Hrun. injection Hrun as <-. split.
    - vm_compute; reflexivity.
    - vm_compute; reflexivity. }
  destruct (destroy_ue_harqs_releases (dl m) _ 0 e Hinv Hdl He)
    as (r' & Hd & _ & Hnone & Hcount & Hlen & _).
  exists m, r'. split_and!; [done..|lia|lia].
Defined.

Lemma destroy_ue_harqs_released r ue e :
  ues r !! ue = Some e → free_harq_ids e = [] →
  (∀ k, k < length (ue_harqs e) → ue_harqs e !! k = Some None) →
  destroy_ue_harqs r ue = Some r.
Proof.
  intros He Hfree Hidx.
  assert (∀ n, n ≤ length (ue_harqs e) →
               for_each (destroy_ue_harqs_step ue) (seq 0 n) r = Some r) as Hloop.
  { induction n as [|n IH]; intros Hn; [done|].
    rewrite seq_S, for_each_app, IH by lia. simpl.
    unfold destroy_ue_harqs_step. rewrite He. simpl.
    by rewrite Hidx by lia. }
  unfold destroy_ue_harqs. rewrite He. simpl. rewrite Hloop by done. simpl.
  rewrite He. simpl. f_equal. destruct r, e. unfold set_ues. simpl in *.
  f_equal. apply list_insert_id. by rewrite He, Hfree.
Qed.

(** X8. With the invariants of both repositories, [destroy_ue] returns for a
    terminal of both; afterwards the terminal has no record in use in either
    direction and [contains] is false for it, the slot clock is as before,
    and removing the terminal once more changes nothing. [reset] and the
    destructor of the handle of the terminal do the same, and [reset] leaves
    a handle on which both do nothing. *)
Theorem destroy_ue_releases (m : cell_harq_manager) (B : bool → nat → nat)
    (ue : nat) (e_dl e_ul : ue_harq_entity_impl) :
  mgr_inv m → mgr_ue_inv m B →
  ues (dl m) !! ue = Some e_dl → ues (ul m) !! ue = Some e_ul →
  ∃ m', destroy_ue m ue = Some m' ∧
    nof_owned (dl m') ue = 0 ∧ nof_owned (ul m') ue = 0 ∧
    contains m' ue = Some false ∧ last_sl_tx m' = last_sl_tx m ∧
    destroy_ue m' ue = Some m' ∧
    let hd := {| bound := true; ue_index := ue |} in
    let hd' := {| bound := false; ue_index := ue |} in
    reset m hd = Some (m', hd') ∧ destructor m hd = Some m' ∧
    reset m' hd' = Some (m', hd') ∧ destructor m' hd' = Some m'.
Proof.
  intros [Hdl Hul] [Hudl Huul] He1 He2.
  destruct (destroy_ue_harqs_spec _ _ ue e_dl Hdl Hudl He1)
    as (dl' & Hd1 & _ & Hu1 & _ & (e1 & He1' & Hf1 & Hl1 & Hi1) & _).
  destruct (destroy_ue_harqs_spec _ _ ue e_ul Hul Huul He2)
    as (ul' & Hd2 & _ & Hu2 & _ & (e2 & He2' & Hf2 & Hl2 & Hi2) & _).
  assert (destroy_ue m ue
          = Some {| last_sl_tx := last_sl_tx m; dl := dl'; ul := ul' |}) as Hd.
  { unfold destroy_ue. by rewrite Hd1, Hd2. }
  assert (destroy_ue {| last_sl_tx := last_sl_tx m; dl := dl'; ul := ul' |} ue
          = Some {| last_sl_tx := last_sl_tx m; dl := dl'; ul := ul' |}) as Hd'.
  { unfold destroy_ue. simpl.
    rewrite (destroy_ue_harqs_released dl' ue e1), (destroy_ue_harqs_released ul' ue e2);
      [done|done..| | |done| |]; try done.
    - intros k Hk. apply Hi2. lia.
    - intros k Hk. apply Hi1. lia. }
  eexists. split; [exact Hd|]. simpl. split_and!.
  - destruct (Hu1 ue e1 He1') as (_ & _ & _ & Hb).
    rewrite decide_True in Hb by done. unfold nof_owned. lia.
  - destruct (Hu2 ue e2 He2') as (_ & _ & _ & Hb).
    rewrite decide_True in Hb by done. unfold nof_owned. lia.
  - unfold contains. simpl. rewrite He1'. simpl. by rewrite Hf1.
  - done.
  - done.
  - unfold reset. simpl. by rewrite Hd.
  - done.
  - done.
  - done.
Qed.

Lemma destroy_ue_releases_witness :
  let ops := [op_add_ue 0 17 2 2; op_add_ue 1 18 2 2; op_slot_indication 100;
              op_new_dl_tx 0 100 4 4 0; op_new_ul_tx 0 104 4;
              op_new_dl_tx 1 100 4 4 1] in
  ∃ m m', run 8 ops (cell_harq_manager_init 16 2 8) = Some m ∧
          contains m 0 = Some true ∧ nof_owned (dl m) 0 = 1 ∧
          destroy_ue m 0 = Some m' ∧ contains m' 0 = Some false ∧
          nof_owned (dl m') 0 = 0 ∧ nof_owned (ul m') 0 = 0 ∧
          destroy_ue m' 0 = Some m'.
Proof.
  intros ops.
  destruct (run 8 ops (cell_harq_manager_init 16 2 8)) as [m|] eqn:Hrun;
    [|by vm_compute in Hrun].
  assert (fresh_reservations 8 ops (cell_harq_manager_init 16 2 8) = true)
    as Hfresh by (vm_compute; reflexivity).
  destruct (ues (dl m) !! 0) as [e1|] eqn:He1;
    [|vm_compute in Hrun; injection Hrun as <-; by vm_compute in He1].
  destruct (ues (ul m) !! 0) as [e2|] eqn:He2;
    [|vm_compute in Hrun; injection Hrun as <-; by vm_compute in He2].
  assert (contains m 0 = Some true ∧ nof_owned (dl m) 0 = 1) as [Hc Hown].
  { vm_compute in Hrun. injection Hrun as <-. split.
    - vm_compute; reflexivity.
    - vm_compute; reflexivity. }
  destruct (destroy_ue_releases m _ 0 e1 e2 (reachable_inv _ _ _ _ _ _ Hrun)
              (reachable_ue_inv _ _ _ _ _ _ Hrun Hfresh) He1 He2)
    as (m' & Hd & Hdl & Hul & Hc' & _ & Hd' & _).
  exists m, m'. split_and!; [reflexivity|assumption..].
Defined.

(** X9. A terminal that [destroy_ue] has removed can be admitted again: with
    the invariants of both repositories, [add_ue] with positive numbers of
    processes returns after [destroy_ue], the reservation is made while the
    terminal holds no record, the invariants hold again with the new numbers
    as the budgets of the terminal, [contains] is true, and a further
    [add_ue] for the terminal fails its assertion. *)
Theorem destroy_ue_then_add_ue (m : cell_harq_manager) (B : bool → nat → nat)
    (ue crnti ndl nul : nat) (m1 : cell_harq_manager) :
  mgr_inv m → mgr_ue_inv m B → destroy_ue m ue = Some m1 →
  0 < ndl → 0 < nul →
  ∃ m2, add_ue m1 ue crnti ndl nul = Some m2 ∧
    fresh_reservation m1 (op_add_ue ue crnti ndl nul) = true ∧
    mgr_inv m2 ∧
    mgr_ue_inv m2 (set_budget false ue nul
                     (set_budget true ue ndl
                        (set_budget false ue 0 (set_budget true ue 0 B)))) ∧
    harqs (dl m2) = harqs (dl m1) ∧ harqs (ul m2) = harqs (ul m1) ∧
    contains m2 ue = Some true ∧
    ∀ crnti' ndl' nul', add_ue m2 ue crnti' ndl' nul' = None.
Proof.
  intros Hinv Hu Hd Hndl Hnul.
  assert (∃ e_dl e_ul, ues (dl m) !! ue = Some e_dl ∧ ues (ul m) !! ue = Some e_ul)
    as (e_dl & e_ul & He1 & He2).
  { unfold destroy_ue, destroy_ue_harqs in Hd.
    destruct (ues (dl m) !! ue) as [e1|]; [|done].
    destruct (ues (ul m) !! ue) as [e2|]; [by eauto|]. simpl in Hd.
    by destruct (for_each _ _ (dl m) ≫= _). }
  destruct Hinv as [Hdl Hul]. destruct Hu as [Hudl Huul].
  destruct (destroy_ue_harqs_spec _ _ ue e_dl Hdl Hudl He1)
    as (dl' & Hd1 & Hinv1 & Hu1 & _ & (e1 & He1' & Hf1 & _) & _).
  destruct (destroy_ue_harqs_spec _ _ ue e_ul Hul Huul He2)
    as (ul' & Hd2 & Hinv2 & Hu2 & _ & (e2 & He2' & Hf2 & _) & _).
  unfold destroy_ue in Hd. rewrite Hd1, Hd2 in Hd. simpl in Hd.
  injection Hd as <-.
  assert (nof_owned dl' ue = 0) as Hn1.
  { destruct (Hu1 ue e1 He1') as (_ & _ & _ & Hb).
    rewrite decide_True in Hb by done. unfold nof_owned. lia. }
  assert (nof_owned ul' ue = 0) as Hn2.
  { destruct (Hu2 ue e2 He2') as (_ & _ & _ & Hb).
    rewrite decide_True in Hb by done. unfold nof_owned. lia. }
  set (m1 := {| last_sl_tx := last_sl_tx m; dl := dl'; ul := ul' |}).
  assert (fresh_reservation m1 (op_add_ue ue crnti ndl nul) = true) as Hfresh.
  { simpl. by rewrite !bool_decide_eq_true_2. }
  assert (add_ue m1 ue crnti ndl nul
          = Some {| last_sl_tx := last_sl_tx m;
                    dl := set_ues (<[ue := {| free_harq_ids := reverse (seq 0 ndl);
                                              ue_harqs := ue_harqs e1 |}]> (ues dl'))
                            dl';
                    ul := set_ues (<[ue := {| free_harq_ids := reverse (seq 0 nul);
                                              ue_harqs := ue_harqs e2 |}]> (ues ul'))
                            ul' |}) as Ha.
  { unfold add_ue, contains, reserve_ue_harqs. simpl.
    rewrite !decide_True by done. rewrite He1'. simpl. rewrite Hf1. simpl.
    by rewrite He2'. }
  assert (mgr_inv m1) as Hinvm by (by split).
  assert (mgr_ue_inv m1 (set_budget false ue 0 (set_budget true ue 0 B))) as Hum.
  { split; simpl.
    - eapply index_ok_ext; [exact Hu1|]. intros u. unfold set_budget.
      destruct (decide (u = ue)) as [->|Hne].
      + rewrite decide_False by (by intros [? _]). by rewrite decide_True.
      + rewrite !decide_False; [done|by intros [_ ?]..].
    - eapply index_ok_ext; [exact Hu2|]. intros u. unfold set_budget.
      destruct (decide (u = ue)) as [->|Hne].
      + by rewrite decide_True.
      + rewrite !decide_False; [done|by intros [_ ?]..]. }
  assert (contains {| last_sl_tx := last_sl_tx m;
                    dl := set_ues (<[ue := {| free_harq_ids := reverse (seq 0 ndl);
                                              ue_harqs := ue_harqs e1 |}]> (ues dl'))
                            dl';
                    ul := set_ues (<[ue := {| free_harq_ids := reverse (seq 0 nul);
                                              ue_harqs := ue_harqs e2 |}]> (ues ul'))
                            ul' |} ue = Some true) as Hc.
  { unfold contains. simpl.
    rewrite list_lookup_insert_eq by (by eapply lookup_lt_Some). simpl.
    rewrite length_reverse, length_seq. f_equal. apply bool_decide_eq_true. lia. }
  eexists. split; [exact Ha|]. split; [done|].
  split_and!; [| |done..|].
  - by apply (exec_preserves 0 m1 (op_add_ue ue crnti ndl nul)).
  - by apply (exec_ue_inv 0 m1 (op_add_ue ue crnti ndl nul)).
  - intros crnti' ndl' nul'. by apply add_ue_duplicate_detected.
Qed.

Lemma destroy_ue_then_add_ue_witness :
  let ops := [op_add_ue 0 17 2 2; op_slot_indication 100;
              op_new_dl_tx 0 100 4 4 0; op_new_ul_tx 0 104 4] in
  ∃ m m1 m2, run 8 ops (cell_harq_manager_init 16 2 8) = Some m ∧
             destroy_ue m 0 = Some m1 ∧
             add_ue m1 0 17 3 1 = Some m2 ∧ contains m2 0 = Some true ∧
             add_ue m2 0 17 3 1 = None.
Proof.
  intros ops.
  destruct (run 8 ops (cell_harq_manager_init 16 2 8)) as [m|] eqn:Hrun;
    [|by vm_compute in Hrun].
  assert (fresh_reservations 8 ops (cell_harq_manager_init 16 2 8) = true)
    as Hfresh by (vm_compute; reflexivity).
  destruct (destroy_ue m 0) as [m1|] eqn:Hd;
    [|vm_compute in Hrun; injection Hrun as <-; by vm_compute in Hd].
  destruct (destroy_ue_then_add_ue m _ 0 17 3 1 m1
              (reachable_inv _ _ _ _ _ _ Hrun)
              (reachable_ue_inv _ _ _ _ _ _ Hrun Hfresh) Hd)
    as (m2 & Ha & _ & _ & _ & _ & _ & Hc & Hdup); [lia..|].
  exists m, m1, m2. split_and!; [reflexivity|assumption..|apply Hdup].
Defined.

(** ** An allocation undone *)

Lemma pop_absent (i : nat) (l : list nat) : i ∉ l → pop i l = l.
Proof.
  intros Hi. unfold pop. induction l as [|j l IH]; [done|].
  apply not_elem_of_cons in Hi as [Hne Hi].
  rewrite filter_cons, decide_True by done. by rewrite IH.
Qed.

Lemma wheel_at_pop_push (i : nat) (t : slot_point) (w : list (list nat)) :
  (∀ b, w !! (t mod length w) = Some b → i ∉ b) →
  wheel_at (pop i) t (wheel_at (push_front i) t w) = w.
Proof.
  intros Hb. unfold wheel_at. rewrite length_alter.
  apply list_eq. intros k.
  destruct (decide (k = t mod length w)) as [->|Hne].
  - rewrite !list_lookup_alter_eq.
    destruct (w !! (t mod length w)) as [b|] eqn:Hk; [|done]. simpl.
    unfold push_front, pop. rewrite filter_cons, decide_False by (by intros ?).
    f_equal. apply pop_absent. by apply Hb.
  - by rewrite !list_lookup_alter_ne.
Qed.

(** X10. On a repository that satisfies the invariants, deallocating the
    record that [alloc_harq] has just handed out gives back the repository
    as it was before the allocation: the free list, the terminals with
    their free process ids and indices, the timeout wheel, the pending list
    and the calls of the notifier are the same, and so is every other
    record; the record itself is empty again, with its new-data indicator
    negated. *)
Theorem alloc_then_dealloc (r : cell_harq_repository) (B : nat → nat)
    (ue : nat) (sl_tx sl_ack : slot_point) (max_retxs i : nat)
    (r1 : cell_harq_repository) :
  repo_inv r → ue_inv r B →
  alloc_harq r ue sl_tx sl_ack max_retxs = Some (Some i, r1) →
  ∃ h h2 r2, harqs r !! i = Some h ∧ dealloc_harq r1 i = Some r2 ∧
    free_harqs r2 = free_harqs r ∧ ues r2 = ues r ∧
    harq_timeout_wheel r2 = harq_timeout_wheel r ∧
    harq_pending_retx_list r2 = harq_pending_retx_list r ∧
    timeout_notifier r2 = timeout_notifier r ∧
    (∀ j, j ≠ i → harqs r2 !! j = harqs r !! j) ∧
    harqs r2 !! i = Some h2 ∧ status h = empty ∧ status h2 = empty ∧
    ndi h2 = negb (ndi h).
Proof.
  intros Hinv Hu Ha.
  pose proof (alloc_harq_inv _ _ _ _ _ _ _ Hinv Ha) as Hinv1.
  apply alloc_harq_Some in Ha
    as (e & He & [(? & _)|(i0 & hid & h & [= <-] & Hf & Hid & Hlt & Hi & ->)]);
    [done|].
  set (h1 := set_alloc_params ue hid sl_tx sl_ack
               (sl_ack + max_ack_wait_in_slots r) max_retxs h).
  set (r1 := alloc_result r ue sl_tx sl_ack max_retxs i hid h e) in *.
  assert (i < length (harqs r)) as Hil by (by eapply lookup_lt_Some).
  assert (ue < length (ues r)) as Hul by (by eapply lookup_lt_Some).
  assert (harqs r1 !! i = Some h1) as Hi1.
  { unfold r1. simpl. by rewrite list_lookup_insert_eq. }
  assert (status h = empty) as Hempty.
  { destruct Hinv as (Hpool & _). by eapply pool_free_is_empty. }
  destruct (dealloc_harq_in_use r1 i h1) as (e1 & He1 & _ & Hd);
    [apply Hinv1|done|done|].
  assert (e1 = {| free_harq_ids := removelast (free_harq_ids e);
                  ue_harqs := <[hid := Some i]> (ue_harqs e) |}) as ->.
  { unfold r1 in He1. simpl in He1.
    rewrite list_lookup_insert_eq in He1 by done. by injection He1. }
  eexists h, (set_status empty h1), _.
  split_and!; [done|exact Hd| | | |done|done| | |done|done|done].
  - simpl. symmetry. by apply last_Some_snoc.
  - simpl. rewrite list_insert_insert_eq. apply list_insert_id.
    rewrite He. f_equal. destruct e as [f hs]. simpl in *. f_equal.
    + by apply last_Some_snoc.
    + rewrite list_insert_insert_eq. symmetry. apply list_insert_id.
      destruct (Hu ue _ He) as (_ & _ & Hnot & _). simpl in Hnot.
      destruct (hs !! hid) as [[j|]|] eqn:Hk; [|done|].
      * destruct (Hnot hid j); [|done].
        rewrite (last_Some_snoc _ _ Hid). apply elem_of_snoc_r.
      * apply lookup_ge_None in Hk. lia.
  - simpl. apply wheel_at_pop_push.
    intros b Hb Hin. destruct Hinv as (_ & _ & (Hwl & Hw) & _).
    destruct (Hw _ b Hb) as (_ & Hiff).
    apply Hiff in Hin as (h' & Hh' & Hslot). rewrite Hi in Hh'.
    injection Hh' as <-. unfold wheel_slot in Hslot.
    rewrite decide_False in Hslot; [done|]. by rewrite Hempty.
  - intros j Hne. simpl. by rewrite !list_lookup_insert_ne.
  - simpl. rewrite list_insert_insert_eq. by rewrite list_lookup_insert_eq.
Qed.

Lemma alloc_then_dealloc_witness :
  let ops := [op_add_ue 0 17 2 2; op_slot_indication 100;
              op_new_dl_tx 0 100 4 4 0] in
  ∃ m r1 r2, run 8 ops (cell_harq_manager_init 16 2 8) = Some m ∧
             alloc_harq (dl m) 0 101 105 4 = Some (Some 1, r1) ∧
             dealloc_harq r1 1 = Some r2 ∧
             free_harqs r2 = free_harqs (dl m) ∧ ues r2 = ues (dl m) ∧
             harq_timeout_wheel r2 = harq_timeout_wheel (dl m).
Proof.
  intros ops.
  destruct (run 8 ops (cell_harq_manager_init 16 2 8)) as [m|] eqn:Hrun;
    [|by vm_compute in Hrun].
  assert (fresh_reservations 8 ops (cell_harq_manager_init 16 2 8) = true)
    as Hfresh by (vm_compute; reflexivity).
  destruct (reachable_ue_inv _ _ _ _ _ _ Hrun Hfresh) as [Hdl _].
  destruct (reachable_inv _ _ _ _ _ _ Hrun) as [Hinv _].
  destruct (alloc_harq (dl m) 0 101 105 4) as [[[i|] r1]|] eqn:Ha;
    [|vm_compute in Hrun; injection Hrun as <-; by vm_compute in Ha..].
  assert (i = 1) as ->.
  { vm_compute in Hrun. injection Hrun as <-. vm_compute in Ha.
    by injection Ha as <- _. }
  destruct (alloc_then_dealloc (dl m) _ 0 101 105 4 1 r1 Hinv Hdl Ha)
    as (h & h2 & r2 & _ & Hd & Hf & Hues & Hw & _).
  exists m, r1, r2. split_and!; [reflexivity|assumption..].
Defined.

(** ** The free list and the indices in reachable states *)

Lemma free_bounded (f : list nat) (hs : list harq_process) :
  NoDup f →
  (∀ i, i ∈ f → ∃ h, hs !! i = Some h ∧ status h = empty) →
  length f + length (filter in_use hs) ≤ length hs.
Proof.
  revert hs. induction f as [|x f IH]; intros hs Hnd Hfree.
  - simpl. apply length_filter.
  - apply list.NoDup_cons in Hnd as [Hx Hnd].
    destruct (Hfree x) as (h & Hh & Hst); [apply list_elem_of_here|].
    specialize (IH (<[x := set_status waiting_ack h]> hs) Hnd).
    rewrite length_insert in IH.
    pose proof (length_filter_insert in_use hs x (set_status waiting_ack h) h Hh)
      as Hcount.
    rewrite decide_False in Hcount by (unfold in_use; by intros ?).
    rewrite decide_True in Hcount by (unfold in_use; simpl; by intros ?).
    simpl. enough (length f + length (filter in_use
                                    (<[x:=set_status waiting_ack h]> hs))
                   ≤ length hs) by lia.
    apply IH. intros i Hi.
    destruct (Hfree i) as (h' & Hh' & Hst'); [by apply list_elem_of_further|].
    exists h'. split; [|done].
    rewrite list_lookup_insert_ne; [done|]. by intros ->.
Qed.

Lemma pool_empty_is_free hs f i h :
  pool_ok hs f → hs !! i = Some h → status h = empty → i ∈ f.
Proof.
  intros (Hnd & Hfree & Hlen) Hi Hst.
  destruct (decide (i ∈ f)) as [|Hnot]; [done|]. exfalso.
  pose proof (free_bounded f (<[i := set_status waiting_ack h]> hs) Hnd) as Hb.
  rewrite length_insert in Hb.
  pose proof (length_filter_insert in_use hs i (set_status waiting_ack h) h Hi)
    as Hcount.
  rewrite decide_False in Hcount by (unfold in_use; by intros ?).
  rewrite decide_True in Hcount by (unfold in_use; simpl; by intros ?).
  enough (length f + length (filter in_use (<[i:=set_status waiting_ack h]> hs))
          ≤ length hs) by lia.
  apply Hb. intros j Hj. destruct (Hfree j Hj) as (h' & Hh' & Hst').
  exists h'. split; [|done]. rewrite list_lookup_insert_ne; [done|].
  by intros ->.
Qed.

(** X11. In every repository state reached by a sequence of calls, the free
    list holds no index twice, and a record of the pool is on the free list
    exactly when it is empty. *)
Theorem free_list_holds_the_empty_records (SHORT MAX max_ues W : nat)
    (ops : list op) (m : cell_harq_manager) (d : bool) :
  run SHORT ops (cell_harq_manager_init MAX max_ues W) = Some m →
  NoDup (free_harqs (repo_of d m)) ∧
  (∀ i, i ∈ free_harqs (repo_of d m) → i < length (harqs (repo_of d m))) ∧
  ∀ i h, harqs (repo_of d m) !! i = Some h →
         i ∈ free_harqs (repo_of d m) ↔ status h = empty.
Proof.
  intros Hrun.
  pose proof (mgr_inv_repo_of d _ (reachable_inv _ _ _ _ _ _ Hrun))
    as (Hpool & _).
  pose proof Hpool as (Hnd & Hfree & _). split_and!; [done| |].
  - intros i Hi. destruct (Hfree i Hi) as (h & Hh & _).
    by eapply lookup_lt_Some.
  - intros i h Hi. split.
    + intros Hin. destruct (Hfree i Hin) as (h' & Hh' & Hst). congruence.
    + by eapply pool_empty_is_free.
Qed.

Lemma free_list_holds_the_empty_records_witness :
  let ops := [op_add_ue 0 17 2 2; op_slot_indication 100;
              op_new_dl_tx 0 100 4 4 0; op_new_dl_tx 0 100 4 4 1;
              op_dl_ack_info 0 ack None] in
  ∃ m h, run 8 ops (cell_harq_manager_init 16 2 8) = Some m ∧
         harqs (dl m) !! 0 = Some h ∧ status h = empty ∧
         0 ∈ free_harqs (dl m) ∧ NoDup (free_harqs (dl m)).
Proof.
  intros ops.
  destruct (run 8 ops (cell_harq_manager_init 16 2 8)) as [m|] eqn:Hrun;
    [|by vm_compute in Hrun].
  destruct (harqs (dl m) !! 0) as [h|] eqn:Hh;
    [|vm_compute in Hrun; injection Hrun as <-; by vm_compute in Hh].
  assert (status h = empty) as Hst.
  { vm_compute in Hrun. injection Hrun as <-. vm_compute in Hh.
    by injection Hh as <-. }
  destruct (free_list_holds_the_empty_records 8 16 2 8 ops m true Hrun)
    as (Hnd & _ & Hiff).
  exists m, h. split_and!; [reflexivity|assumption|assumption| |assumption].
  by apply (Hiff 0 h).
Defined.

(** X12. In every repository state reached by a sequence of calls in which
    every reservation of process ids is made for a terminal that holds no
    record in use, the index of a terminal points, under a process id, at a
    record exactly when that record is in use for that terminal under that
    id; so two records in use never share terminal and process id, and an
    empty record is in no index. *)
Theorem index_matches_records (SHORT MAX max_ues W : nat) (ops : list op)
    (m : cell_harq_manager) (d : bool) :
  run SHORT ops (cell_harq_manager_init MAX max_ues W) = Some m →
  fresh_reservations SHORT ops (cell_harq_manager_init MAX max_ues W) = true →
  (∀ i h, harqs (repo_of d m) !! i = Some h → status h ≠ empty →
     ∃ e, ues (repo_of d m) !! ue_idx h = Some e ∧
          ue_harqs e !! h_id h = Some (Some i)) ∧
  (∀ u e k i, ues (repo_of d m) !! u = Some e →
     ue_harqs e !! k = Some (Some i) →
     ∃ h, harqs (repo_of d m) !! i = Some h ∧ status h ≠ empty ∧
          ue_idx h = u ∧ h_id h = k) ∧
  (∀ i j h h', harqs (repo_of d m) !! i = Some h →
     harqs (repo_of d m) !! j = Some h' →
     status h ≠ empty → status h' ≠ empty →
     ue_idx h = ue_idx h' → h_id h = h_id h' → i = j).
Proof.
  intros Hrun Hfresh.
  pose proof (mgr_inv_repo_of d _ (reachable_inv _ _ _ _ _ _ Hrun))
    as (_ & Ho & _).
  assert (ue_inv (repo_of d m) (budget ops d)) as Hu.
  { destruct (reachable_ue_inv _ _ _ _ _ _ Hrun Hfresh). by destruct d. }
  assert (∀ i h, harqs (repo_of d m) !! i = Some h → status h ≠ empty →
            ∃ e, ues (repo_of d m) !! ue_idx h = Some e ∧
                 ue_harqs e !! h_id h = Some (Some i)) as Hfound.
  { intros i h Hi Hst. destruct (Ho i h Hi Hst) as (e & He & _).
    exists e. split; [done|]. destruct (Hu _ e He) as (_ & Hent & _).
    apply Hent. exists h. split; [done|]. by apply owner_key_Some. }
  split_and!; [done| |].
  - intros u e k i He Hk. destruct (Hu u e He) as (_ & Hent & _).
    apply Hent in Hk as (h & Hi & (? & ? & ?)%owner_key_Some). by exists h.
  - intros i j h h' Hi Hj Hst Hst' Hue Hid.
    destruct (Hfound i h Hi Hst) as (e & He & Hk).
    destruct (Hfound j h' Hj Hst') as (e' & He' & Hk').
    rewrite <-Hue, He in He'. injection He' as <-.
    rewrite <-Hid, Hk in Hk'. by injection Hk'.
Qed.

Lemma index_matches_records_witness :
  let ops := [op_add_ue 0 17 2 2; op_slot_indication 100;
              op_new_dl_tx 0 100 4 4 0; op_new_dl_tx 0 100 4 4 1] in
  ∃ m h e, run 8 ops (cell_harq_manager_init 16 2 8) = Some m ∧
           harqs (dl m) !! 1 = Some h ∧ ue_idx h = 0 ∧ h_id h = 1 ∧
           ues (dl m) !! 0 = Some e ∧ ue_harqs e !! 1 = Some (Some 1).
Proof.
  intros ops.
  destruct (run 8 ops (cell_harq_manager_init 16 2 8)) as [m|] eqn:Hrun;
    [|by vm_compute in Hrun].
  assert (fresh_reservations 8 ops (cell_harq_manager_init 16 2 8) = true)
    as Hfresh by (vm_compute; reflexivity).
  destruct (harqs (dl m) !! 1) as [h|] eqn:Hh;
    [|vm_compute in Hrun; injection Hrun as <-; by vm_compute in Hh].
  assert (status h ≠ empty ∧ ue_idx h = 0 ∧ h_id h = 1) as (Hst & Hue & Hid).
  { vm_compute in Hrun. injection Hrun as <-. vm_compute in Hh.
    by injection Hh as <-. }
  destruct (index_matches_records 8 16 2 8 ops m true Hrun Hfresh)
    as (Hfound & _).
  destruct (Hfound 1 h Hh Hst) as (e & He & Hk).
  rewrite Hue in He. rewrite Hid in Hk.
  exists m, h, e. split_and!; [reflexivity|assumption..].
Defined.

(** ** The outcome of an acknowledgment *)

Lemma handle_ack_outcome r i h a :
  repo_inv r → harqs r !! i = Some h → status h = waiting_ack →
  let released := a || bool_decide (max_nof_harq_retxs h ≤ nof_retxs h) in
  ∃ r', handle_ack r i a = Some r' ∧ repo_inv r' ∧
    harqs r'
    = <[i := set_status (if released then empty else pending_retx) h]> (harqs r) ∧
    free_harqs r' = (if released then free_harqs r ++ [i] else free_harqs r) ∧
    harq_pending_retx_list r'
    = (if released then harq_pending_retx_list r
       else push_front i (harq_pending_retx_list r)) ∧
    harq_timeout_wheel r'
    = wheel_at (pop i) (slot_ack_timeout h) (harq_timeout_wheel r) ∧
    timeout_notifier r' = timeout_notifier r ∧
    (∀ u, u ≠ ue_idx h → ues r' !! u = ues r !! u).
Proof.
  intros Hinv Hi Hst released. unfold handle_ack. rewrite Hi. simpl.
  fold released. destruct released.
  - destruct (dealloc_harq_in_use r i h) as (e & He & _ & Hd);
      [apply Hinv|done|by rewrite Hst|].
    rewrite Hd. eexists. split; [done|]. split_and!.
    + apply dealloc_result_inv; [done..|by rewrite Hst|done].
    + done.
    + done.
    + simpl. by rewrite decide_True.
    + simpl. by rewrite decide_True.
    + done.
    + intros u Hne. simpl. by rewrite list_lookup_insert_ne.
  - destruct (set_pending_retx r i) as [r'|] eqn:Hs;
      [|unfold set_pending_retx in Hs; rewrite Hi in Hs; simpl in Hs;
        by rewrite Hst in Hs].
    pose proof (set_pending_retx_preserves r i r' Hinv Hs) as Hinv'.
    unfold set_pending_retx in Hs. rewrite Hi in Hs. simpl in Hs.
    rewrite Hst in Hs. injection Hs as <-.
    eexists. split; [done|]. by split_and!.
Qed.

(** X13. On a repository that satisfies the invariants, [cancel_retxs] leaves
    an empty record, and the whole repository, as it is; for a record in use
    it only sets the maximum of retransmissions to their number and flags the
    record, keeping its state and every list. When the record waits for an
    acknowledgment, the next [handle_ack], positive or negative, then
    releases it to the free list, so that it never becomes pending. *)
Theorem cancel_retxs_then_handle_ack (r : cell_harq_repository) (i : nat)
    (h : harq_process) :
  repo_inv r → harqs r !! i = Some h →
  (status h = empty → cancel_retxs r i = Some r) ∧
  (status h ≠ empty →
   ∃ r1, cancel_retxs r i = Some r1 ∧
     harqs r1 = <[i := set_retxs_cancelled h]> (harqs r) ∧
     status (set_retxs_cancelled h) = status h ∧
     free_harqs r1 = free_harqs r ∧ ues r1 = ues r ∧
     harq_timeout_wheel r1 = harq_timeout_wheel r ∧
     harq_pending_retx_list r1 = harq_pending_retx_list r ∧
     (status h = waiting_ack →
      ∀ a, ∃ r2, handle_ack r1 i a = Some r2 ∧
        harqs r2 !! i = Some (set_status empty (set_retxs_cancelled h)) ∧
        free_harqs r2 = free_harqs r ++ [i] ∧
        harq_pending_retx_list r2 = harq_pending_retx_list r ∧
        ¬ in_timeout_wheel r2 i)).
Proof.
  intros Hinv Hi.
  assert (i < length (harqs r)) as Hlt by (by eapply lookup_lt_Some).
  split.
  - intros Hst. unfold cancel_retxs. rewrite Hi. simpl. by rewrite decide_True.
  - intros Hst.
    assert (cancel_retxs r i
            = Some (set_harqs (<[i := set_retxs_cancelled h]> (harqs r)) r)) as Hc.
    { unfold cancel_retxs. rewrite Hi. simpl. by rewrite decide_False. }
    pose proof (cancel_retxs_preserves _ _ _ Hinv Hc) as Hinv1.
    eexists. split; [exact Hc|]. split_and!; [done..|].
    intros Hw a.
    destruct (handle_ack_outcome _ i (set_retxs_cancelled h) a Hinv1)
      as (r2 & Hh & Hinv2 & Hhs & Hf & Hp & _); [|done|].
    { simpl. by rewrite list_lookup_insert_eq. }
    simpl in Hhs, Hf, Hp.
    rewrite bool_decide_eq_true_2, orb_true_r in Hhs, Hf, Hp by done.
    assert (harqs r2 !! i = Some (set_status empty (set_retxs_cancelled h)))
      as Hi2.
    { rewrite Hhs, list_lookup_insert_eq; [done|]. by rewrite length_insert. }
    exists r2. split_and!; [done..|].
    by rewrite (in_timeout_wheel_iff _ _ _ Hinv2 Hi2).
Qed.

Lemma cancel_retxs_then_handle_ack_witness :
  let ops := [op_add_ue 0 17 2 2; op_slot_indication 100;
              op_new_dl_tx 0 100 4 4 0] in
  ∃ m h r1 r2, run 8 ops (cell_harq_manager_init 16 2 8) = Some m ∧
               harqs (dl m) !! 0 = Some h ∧ status h = waiting_ack ∧
               nof_retxs h < max_nof_harq_retxs h ∧
               cancel_retxs (dl m) 0 = Some r1 ∧
               handle_ack r1 0 false = Some r2 ∧
               status <$> harqs r2 !! 0 = Some empty.
Proof.
  intros ops.
  destruct (run 8 ops (cell_harq_manager_init 16 2 8)) as [m|] eqn:Hrun;
    [|by vm_compute in Hrun].
  destruct (harqs (dl m) !! 0) as [h|] eqn:Hh;
    [|vm_compute in Hrun; injection Hrun as <-; by vm_compute in Hh].
  assert (status h = waiting_ack ∧ nof_retxs h < max_nof_harq_retxs h)
    as [Hst Hlt].
  { vm_compute in Hrun. injection Hrun as <-. vm_compute in Hh.
    injection Hh as <-. simpl. split; [done|lia]. }
  pose proof (reachable_inv _ _ _ _ _ _ Hrun) as [Hinv _].
  destruct (cancel_retxs_then_handle_ack (dl m) 0 h Hinv Hh) as [_ Hc].
  destruct Hc as (r1 & Hc & _ & _ & _ & _ & _ & _ & Hack); [by rewrite Hst|].
  destruct (Hack Hst false) as (r2 & Hh2 & Hi2 & _).
  exists m, h, r1, r2.
  split_and!; [reflexivity|assumption..|by rewrite Hi2].
Defined.

(** X14. A [dl_ack_info] call for a record that waits for an acknowledgment
    and expects at most one report settles the record, whether or not a slot
    has been indicated: it returns [acked] when the chosen report, after the
    merge of this one, is positive, and [nacked] otherwise; the record,
    with the merged report, is released to the free list when the result is
    [acked] or no retransmission is left, and is otherwise queued for a
    retransmission; it is in the timeout wheel no more. *)
Theorem final_ack_occasion (SHORT : nat) (m : cell_harq_manager) (i : nat)
    (h : harq_process) (a : mac_harq_ack_report_status) (s : option snr_t) :
  mgr_inv m → harqs (dl m) !! i = Some h → status h = waiting_ack →
  pucch_ack_to_receive h ≤ 1 →
  let h1 := if adopts h a s then set_chosen a s h else h in
  let final := bool_decide (chosen_ack h1 = ack) in
  let released := final || bool_decide (max_nof_harq_retxs h ≤ nof_retxs h) in
  ∃ m', dl_ack_info SHORT m i a s
        = Some (if final then acked else nacked, m') ∧
    harqs (dl m')
    = <[i := set_status (if released then empty else pending_retx) h1]>
        (harqs (dl m)) ∧
    free_harqs (dl m')
    = (if released then free_harqs (dl m) ++ [i] else free_harqs (dl m)) ∧
    harq_pending_retx_list (dl m')
    = (if released then harq_pending_retx_list (dl m)
       else push_front i (harq_pending_retx_list (dl m))) ∧
    ¬ in_timeout_wheel (dl m') i ∧
    timeout_notifier (dl m') = timeout_notifier (dl m) ∧
    ul m' = ul m ∧ last_sl_tx m' = last_sl_tx m.
Proof.
  intros [Hdl Hul] Hi Hst Hcount h1 final released.
  assert (i < length (harqs (dl m))) as Hlt by (by eapply lookup_lt_Some).
  assert (status h1 = waiting_ack ∧ pucch_ack_to_receive h1 ≤ 1 ∧
          max_nof_harq_retxs h1 = max_nof_harq_retxs h ∧
          nof_retxs h1 = nof_retxs h ∧ slot_ack_timeout h1 = slot_ack_timeout h ∧
          ue_idx h1 = ue_idx h ∧ h_id h1 = h_id h)
    as (Hst1 & Hc1 & Hmax & Hnof & Hto & Hue & Hid).
  { unfold h1. destruct (adopts h a s); simpl; split_and!; done. }
  assert (repo_inv (set_harqs (<[i := h1]> (harqs (dl m))) (dl m))) as Hinv1.
  { apply repo_inv_update with (h := h); [done|done|congruence..]. }
  destruct (handle_ack_outcome _ i h1 final Hinv1)
    as (dl2 & Hh & Hinv2 & Hhs & Hf & Hp & Hw & Hlog & _); [|done|].
  { simpl. by rewrite list_lookup_insert_eq. }
  simpl in Hhs, Hf, Hp, Hlog. rewrite Hmax, Hnof in Hhs, Hf, Hp.
  fold released in Hhs, Hf, Hp. rewrite list_insert_insert_eq in Hhs.
  exists (set_dl dl2 m). split_and!; [|done..| |done|done|done].
  - unfold dl_ack_info. rewrite Hi. simpl.
    rewrite decide_False by (by intros []). fold h1.
    rewrite decide_True by done. fold final. by rewrite Hh.
  - simpl. rewrite (in_timeout_wheel_iff dl2 i
                      (set_status (if released then empty else pending_retx) h1)
                      Hinv2).
    + simpl. by destruct released.
    + by rewrite Hhs, list_lookup_insert_eq.
Qed.

Lemma final_ack_occasion_witness :
  let ops := [op_add_ue 0 17 2 2; op_new_dl_tx 0 100 4 4 0] in
  ∃ m h m1 m2, run 8 ops (cell_harq_manager_init 16 2 8) = Some m ∧
               last_sl_tx m = None ∧ harqs (dl m) !! 0 = Some h ∧
               dl_ack_info 8 m 0 nack None = Some (nacked, m1) ∧
               harqs (dl m1) !! 0 = Some (set_status pending_retx
                                            (set_chosen nack None h)) ∧
               dl_ack_info 8 m 0 dtx None = Some (nacked, m2) ∧
               harqs (dl m2) !! 0 = Some (set_status pending_retx h).
Proof.
  intros ops.
  destruct (run 8 ops (cell_harq_manager_init 16 2 8)) as [m|] eqn:Hrun;
    [|by vm_compute in Hrun].
  destruct (harqs (dl m) !! 0) as [h|] eqn:Hh;
    [|vm_compute in Hrun; injection Hrun as <-; by vm_compute in Hh].
  assert (h = set_chosen dtx None
                (set_alloc_params 0 0 100 104 112 4
                   (seed_dl_params 0 harq_process_default)) ∧
          last_sl_tx m = None) as [Heq Hsl].
  { vm_compute in Hrun. injection Hrun as <-. vm_compute in Hh.
    by injection Hh as <-. }
  pose proof (reachable_inv _ _ _ _ _ _ Hrun) as Hinv.
  destruct (final_ack_occasion 8 m 0 h nack None Hinv Hh)
    as (m1 & Hd1 & Hhs1 & _); [by rewrite Heq|rewrite Heq; simpl; lia|].
  destruct (final_ack_occasion 8 m 0 h dtx None Hinv Hh)
    as (m2 & Hd2 & Hhs2 & _); [by rewrite Heq|rewrite Heq; simpl; lia|].
  assert (0 < length (harqs (dl m))) as Hlt by (by eapply lookup_lt_Some).
  exists m, h, m1, m2. split_and!; [reflexivity|assumption|assumption|..].
  - rewrite Hd1. by rewrite Heq.
  - rewrite Hhs1, list_lookup_insert_eq by done. by rewrite Heq.
  - rewrite Hd2. by rewrite Heq.
  - rewrite Hhs2, list_lookup_insert_eq by done. by rewrite Heq.
Defined.

Lemma to_int_small (n : nat) :
  (Z.of_nat n < 2 ^ 31)%Z → to_int n = Z.of_nat n.
Proof.
  intros Hn. unfold to_int. cbv zeta.
  rewrite Z.mod_small by lia.
  destruct (Z.ltb_spec (Z.of_nat n) (2 ^ 31)) as [|Hge]; [done|lia].
Qed.

Lemma to_int_large (n : nat) :
  (2 ^ 31 <= Z.of_nat n < 2 ^ 32)%Z → to_int n = (Z.of_nat n - 2 ^ 32)%Z.
Proof.
  intros Hn. unfold to_int. cbv zeta.
  rewrite Z.mod_small by lia.
  destruct (Z.ltb_spec (Z.of_nat n) (2 ^ 31)) as [|Hge]; [lia|done].
Qed.

(** X15. An [ul_crc_info] call for a record that waits for an acknowledgment
    returns, when the CRC is positive, the transport block size of the
    record converted to [int], which is the size itself when it is below
    [2^31] (a size from [2^31] to [2^32 - 1] comes out negative, as the size
    minus [2^32], so that [2^32 - 1] comes out as the error value [-1]), and
    [0] otherwise; the record is released to the free list
    when the CRC is positive or no retransmission is left, and is otherwise
    queued for a retransmission; it is in the timeout wheel no more, and the
    downlink repository and the slot clock are untouched. *)
Theorem ul_crc_info_outcome (m : cell_harq_manager) (i : nat)
    (h : harq_process) (a : bool) :
  mgr_inv m → harqs (ul m) !! i = Some h → status h = waiting_ack →
  let released := a || bool_decide (max_nof_harq_retxs h ≤ nof_retxs h) in
  ∃ res m', ul_crc_info m i a = Some (res, m') ∧
    res = (if a then to_int (prev_tx_tbs_bytes h) else 0%Z) ∧
    ((Z.of_nat (prev_tx_tbs_bytes h) < 2 ^ 31)%Z →
     res = (if a then Z.of_nat (prev_tx_tbs_bytes h) else 0%Z) ∧
     (0 <= res)%Z) ∧
    ((2 ^ 31 <= Z.of_nat (prev_tx_tbs_bytes h) < 2 ^ 32)%Z → a = true →
     res = (Z.of_nat (prev_tx_tbs_bytes h) - 2 ^ 32)%Z ∧ (res < 0)%Z) ∧
    ((Z.of_nat (prev_tx_tbs_bytes h) = 2 ^ 32 - 1)%Z → a = true →
     res = (-1)%Z) ∧
    harqs (ul m')
    = <[i := set_status (if released then empty else pending_retx) h]>
        (harqs (ul m)) ∧
    status <$> harqs (ul m') !! i
    = Some (if released then empty else pending_retx) ∧
    free_harqs (ul m')
    = (if released then free_harqs (ul m) ++ [i] else free_harqs (ul m)) ∧
    harq_pending_retx_list (ul m')
    = (if released then harq_pending_retx_list (ul m)
       else push_front i (harq_pending_retx_list (ul m))) ∧
    ¬ in_timeout_wheel (ul m') i ∧
    timeout_notifier (ul m') = timeout_notifier (ul m) ∧
    dl m' = dl m ∧ last_sl_tx m' = last_sl_tx m.
Proof.
  intros [Hdl Hul] Hi Hst released.
  assert (i < length (harqs (ul m))) as Hlt by (by eapply lookup_lt_Some).
  destruct (handle_ack_outcome _ i h a Hul Hi Hst)
    as (ul' & Hh & Hinv' & Hhs & Hf & Hp & Hw & Hlog & _).
  simpl in Hhs, Hf, Hp. fold released in Hhs, Hf, Hp.
  assert (harqs ul' !! i
          = Some (set_status (if released then empty else pending_retx) h))
    as Hi'.
  { by rewrite Hhs, list_lookup_insert_eq. }
  eexists _, (set_ul ul' m).
  split_and!; [|reflexivity| | | |done| |done|done| |done|done|done].
  - unfold ul_crc_info. rewrite Hi. simpl.
    rewrite decide_False by (by intros []). rewrite Hh. simpl.
    by rewrite Hi'.
  - intros Hsmall. destruct a; [|done].
    rewrite to_int_small by done. split; [done|lia].
  - intros Hlarge ->. rewrite to_int_large by done. split; [done|lia].
  - intros Hmax ->. unfold to_int. cbv zeta. rewrite Hmax. reflexivity.
  - simpl. by rewrite Hi'.
  - simpl. rewrite (in_timeout_wheel_iff ul' i _ Hinv' Hi').
    simpl. by destruct released.
Qed.

Lemma ul_crc_info_outcome_witness :
  let ops := [op_add_ue 0 17 2 2; op_slot_indication 100;
              op_new_ul_tx 0 104 4] in
  ∃ m h m1 m2, run 8 ops (cell_harq_manager_init 16 2 8) = Some m ∧
               harqs (ul m) !! 0 = Some h ∧
               ul_crc_info m 0 true = Some (0%Z, m1) ∧
               status <$> harqs (ul m1) !! 0 = Some empty ∧
               ul_crc_info m 0 false = Some (0%Z, m2) ∧
               status <$> harqs (ul m2) !! 0 = Some pending_retx.
Proof.
  intros ops.
  destruct (run 8 ops (cell_harq_manager_init 16 2 8)) as [m|] eqn:Hrun;
    [|by vm_compute in Hrun].
  destruct (harqs (ul m) !! 0) as [h|] eqn:Hh;
    [|vm_compute in Hrun; injection Hrun as <-; by vm_compute in Hh].
  assert (h = seed_ul_params
                (set_alloc_params 0 0 104 104 112 4 harq_process_default))
    as Heq.
  { vm_compute in Hrun. injection Hrun as <-. vm_compute in Hh.
    by injection Hh as <-. }
  pose proof (reachable_inv _ _ _ _ _ _ Hrun) as Hinv.
  destruct (ul_crc_info_outcome m 0 h true Hinv Hh)
    as (res1 & m1 & Hd1 & Hres1 & _ & _ & _ & _ & Hst1 & _); [by rewrite Heq|].
  destruct (ul_crc_info_outcome m 0 h false Hinv Hh)
    as (res2 & m2 & Hd2 & Hres2 & _ & _ & _ & _ & Hst2 & _); [by rewrite Heq|].
  exists m, h, m1, m2. split_and!; [reflexivity|assumption|..].
  - rewrite Hd1, Hres1. by rewrite Heq.
  - by rewrite Hst1.
  - by rewrite Hd2, Hres2.
  - rewrite Hst2. by rewrite Heq.
Defined.

(** ** A slot indication *)

Lemma slot_indication_bucket r sl_tx :
  repo_inv r →
  ∃ r', harq_utils.slot_indication r sl_tx = Some r' ∧ repo_inv r' ∧
    harq_timeout_wheel r' !! (sl_tx mod RING_SIZE) = Some [] ∧
    (∀ j h, harqs r !! j = Some h →
       harqs r' !! j
       = Some (if decide (wheel_slot h = Some (sl_tx mod RING_SIZE))
               then set_status empty h else h)) ∧
    (∀ j, in_pending_retx_list r' j ↔ in_pending_retx_list r j).
Proof.
  intros Hinv.
  destruct (slot_indication_spec r sl_tx Hinv)
    as (b & r' & Hb & Hnd & Hin & Hs & Hinv' & Hout & Hbucket & _).
  assert (∀ j h, harqs r !! j = Some h →
            harqs r' !! j
            = Some (if decide (wheel_slot h = Some (sl_tx mod RING_SIZE))
                    then set_status empty h else h)) as Hrec.
  { intros j h Hj. case_decide as Hslot.
    - apply Hbucket; [|done]. apply Hin. eauto.
    - rewrite Hout; [done|]. intros (h' & Hj' & Hslot')%Hin. congruence. }
  assert (length (harqs r') = length (harqs r)) as Hlen.
  { destruct (decide (length (harqs r') ≤ length (harqs r))) as [Hle|Hgt].
    - destruct (decide (length (harqs r) ≤ length (harqs r'))) as [|Hlt]; [lia|].
      destruct (lookup_lt_is_Some_2 (harqs r) (length (harqs r'))) as [h Hh];
        [lia|].
      pose proof (Hrec _ h Hh) as Hh'. apply lookup_lt_Some in Hh'. lia.
    - destruct (lookup_lt_is_Some_2 (harqs r') (length (harqs r))) as [h Hh];
        [lia|].
      rewrite Hout in Hh.
      + apply lookup_lt_Some in Hh. lia.
      + intros (h' & Hj' & _)%Hin. apply lookup_lt_Some in Hj'. lia. }
  exists r'. split_and!; [done..| |done|].
  - destruct Hinv' as (_ & _ & (Hwl & Hw) & _).
    destruct (lookup_lt_is_Some_2 (harq_timeout_wheel r') (sl_tx mod RING_SIZE))
      as [b' Hb'].
    { rewrite Hwl. apply Nat.mod_upper_bound. unfold RING_SIZE. lia. }
    rewrite Hb'. f_equal. destruct (Hw _ b' Hb') as (_ & Hiff).
    destruct b' as [|j b']; [done|]. exfalso.
    destruct (proj1 (Hiff j)) as (h' & Hj' & Hslot'); [apply list_elem_of_here|].
    destruct (lookup_lt_is_Some_2 (harqs r) j) as [h Hj].
    { rewrite <-Hlen. by eapply lookup_lt_Some. }
    rewrite (Hrec j h Hj) in Hj'.
    destruct (decide (wheel_slot h = Some (sl_tx mod RING_SIZE))) as [Hslot|Hslot];
      injection Hj' as <-; [|done].
    unfold wheel_slot in Hslot'. by simpl in Hslot'.
  - intros j. unfold in_pending_retx_list.
    destruct Hinv as (_ & _ & _ & (_ & Hp)).
    destruct Hinv' as (_ & _ & _ & (_ & Hp')).
    rewrite Hp, Hp'. split.
    + intros (h' & Hj' & Hst').
      destruct (lookup_lt_is_Some_2 (harqs r) j) as [h Hj].
      { rewrite <-Hlen. by eapply lookup_lt_Some. }
      rewrite (Hrec j h Hj) in Hj'. exists h. split; [done|].
      destruct (decide (wheel_slot h = Some (sl_tx mod RING_SIZE)));
        by injection Hj' as <-.
    + intros (h & Hj & Hst). eexists. split; [by apply Hrec|].
      rewrite decide_False; [done|]. unfold wheel_slot.
      rewrite decide_False; [done|]. by rewrite Hst.
Qed.

(** X16. With the invariants of both repositories, [slot_indication] of the
    manager returns and sets the slot clock to the slot given. In either
    repository it empties exactly the records that wait for an
    acknowledgment with a deadline in the bucket of that slot, leaving every
    other record, and the pending list, as they are; that bucket of the
    timeout wheel is empty afterwards. *)
Theorem slot_indication_empties_bucket (m : cell_harq_manager)
    (sl_tx : slot_point) :
  mgr_inv m →
  ∃ m', slot_indication m sl_tx = Some m' ∧ last_sl_tx m' = Some sl_tx ∧
    mgr_inv m' ∧
    ∀ d,
      harq_timeout_wheel (repo_of d m') !! (sl_tx mod RING_SIZE) = Some [] ∧
      (∀ j h, harqs (repo_of d m) !! j = Some h →
         harqs (repo_of d m') !! j
         = Some (if decide (status h = waiting_ack ∧
                            slot_ack_timeout h mod RING_SIZE
                            = sl_tx mod RING_SIZE)
                 then set_status empty h else h)) ∧
      (∀ j, in_pending_retx_list (repo_of d m') j ↔
            in_pending_retx_list (repo_of d m) j).
Proof.
  intros [Hdl Hul].
  destruct (slot_indication_bucket (dl m) sl_tx Hdl)
    as (dl' & Hs1 & Hinv1 & Hb1 & Hrec1 & Hp1).
  destruct (slot_indication_bucket (ul m) sl_tx Hul)
    as (ul' & Hs2 & Hinv2 & Hb2 & Hrec2 & Hp2).
  assert (∀ h, (if decide (wheel_slot h = Some (sl_tx mod RING_SIZE))
                then set_status empty h else h)
               = (if decide (status h = waiting_ack ∧
                             slot_ack_timeout h mod RING_SIZE
                             = sl_tx mod RING_SIZE)
                  then set_status empty h else h)) as Hsame.
  { intros h. unfold wheel_slot.
    destruct (decide (status h = waiting_ack)) as [Hst|Hst].
    - destruct (decide (slot_ack_timeout h mod RING_SIZE = sl_tx mod RING_SIZE))
        as [Heq|Hne].
      + rewrite decide_True by congruence. by rewrite decide_True.
      + rewrite decide_False by congruence.
        rewrite decide_False; [done|]. by intros [_ ?].
    - rewrite decide_False by done. rewrite decide_False; [done|].
      by intros [? _]. }
  eexists. split.
  { unfold slot_indication. by rewrite Hs1, Hs2. }
  split; [done|]. split; [by split|].
  intros [|]; simpl; (split_and!; [done| |done]); intros j h Hj.
  - rewrite <-Hsame. by apply Hrec1.
  - rewrite <-Hsame. by apply Hrec2.
Qed.

Lemma slot_indication_empties_bucket_witness :
  let ops := [op_add_ue 0 17 2 2; op_slot_indication 100;
              op_new_dl_tx 0 100 4 4 0; op_new_dl_tx 0 101 4 4 0] in
  ∃ m m', run 8 ops (cell_harq_manager_init 16 2 8) = Some m ∧
          slot_ack_timeout <$> harqs (dl m) !! 0 = Some 112 ∧
          slot_ack_timeout <$> harqs (dl m) !! 1 = Some 113 ∧
          slot_indication m 112 = Some m' ∧
          status <$> harqs (dl m') !! 0 = Some empty ∧
          status <$> harqs (dl m') !! 1 = Some waiting_ack ∧
          harq_timeout_wheel (dl m') !! 32 = Some [].
Proof.
  intros ops.
  destruct (run 8 ops (cell_harq_manager_init 16 2 8)) as [m|] eqn:Hrun;
    [|by vm_compute in Hrun].
  destruct (harqs (dl m) !! 0) as [h0|] eqn:Hh0;
    [|vm_compute in Hrun; injection Hrun as <-; by vm_compute in Hh0].
  destruct (harqs (dl m) !! 1) as [h1|] eqn:Hh1;
    [|vm_compute in Hrun; injection Hrun as <-; by vm_compute in Hh1].
  assert (h0 = set_chosen dtx None
                 (set_alloc_params 0 0 100 104 112 4
                    (seed_dl_params 0 harq_process_default)) ∧
          h1 = set_chosen dtx None
                 (set_alloc_params 0 1 101 105 113 4
                    (seed_dl_params 0 harq_process_default)))
    as [Heq0 Heq1].
  { vm_compute in Hrun. injection Hrun as <-. vm_compute in Hh0, Hh1.
    injection Hh0 as <-. by injection Hh1 as <-. }
  destruct (slot_indication_empties_bucket m 112 (reachable_inv _ _ _ _ _ _ Hrun))
    as (m' & Hs & _ & _ & Hd).
  destruct (Hd true) as (Hb & Hrec & _). simpl in Hb, Hrec.
  exists m, m'. split_and!; [reflexivity| | |assumption| | |assumption].
  - by rewrite Hh0, Heq0.
  - by rewrite Hh1, Heq1.
  - rewrite (Hrec 0 h0 Hh0). by rewrite Heq0.
  - rewrite (Hrec 1 h1 Hh1). by rewrite Heq1.
Defined.

(** ** A timeout after a report that was not the last *)

(** X17. A record that waits for an acknowledgment and expects more than one
    report receives a report in slot [cur]; [dl_ack_info] returns
    [no_update]. When the manager is then told of the slot
    [cur + SHORT_ACK_TIMEOUT_DTX], the slot indication returns, the record is
    empty and on the free list, and, unless [max_ack_wait_in_slots] is 1,
    the timeout notifier has been called for the terminal of the record with
    the flag that tells whether the chosen report was positive. *)
Theorem timeout_after_partial_report (SHORT : nat) (m : cell_harq_manager)
    (i : nat) (h : harq_process) (a : mac_harq_ack_report_status)
    (s : option snr_t) (cur : slot_point) :
  mgr_inv m → harqs (dl m) !! i = Some h → status h = waiting_ack →
  1 < pucch_ack_to_receive h → last_sl_tx m = Some cur →
  let h1 := if adopts h a s then set_chosen a s h else h in
  ∃ m1 m2, dl_ack_info SHORT m i a s = Some (no_update, m1) ∧
    slot_indication m1 (cur + SHORT) = Some m2 ∧
    harqs (dl m2) !! i
    = Some (set_status empty (await_next_pucch (cur + SHORT) h1)) ∧
    i ∈ free_harqs (dl m2) ∧
    (max_ack_wait_in_slots (dl m) ≠ 1 →
     (ue_idx h, IsDl (dl m), bool_decide (chosen_ack h1 = ack))
     ∈ timeout_notifier (dl m2)).
Proof.
  intros Hinv Hi Hst Hmore Hcur h1.
  assert (i < length (harqs (dl m))) as Hlt by (by eapply lookup_lt_Some).
  assert (pucch_ack_to_receive h1 = pucch_ack_to_receive h ∧
          status h1 = status h ∧ ue_idx h1 = ue_idx h)
    as (Hcnt & Hst1 & Hue) by (unfold h1; by destruct (adopts _ _ _)).
  destruct (dl_ack_info SHORT m i a s) as [[res m1]|] eqn:Hd; cycle 1.
  { unfold dl_ack_info in Hd. rewrite Hi in Hd. simpl in Hd.
    rewrite decide_False in Hd by (by intros ?).
    fold h1 in Hd. rewrite decide_False in Hd by lia.
    by rewrite Hcur in Hd. }
  pose proof (dl_ack_info_preserves _ _ _ _ _ _ _ Hinv Hd) as [Hdl1 Hul1].
  unfold dl_ack_info in Hd. rewrite Hi in Hd. simpl in Hd.
  rewrite decide_False in Hd by (by intros ?).
  fold h1 in Hd. rewrite decide_False in Hd by lia.
  rewrite Hcur in Hd. simpl in Hd. injection Hd as <- <-.
  set (h' := await_next_pucch (cur + SHORT) h1) in *.
  set (m1 := set_dl _ m) in *.
  assert (harqs (dl m1) !! i = Some h') as Hi1.
  { simpl. rewrite list_lookup_insert_eq; [done|]. by rewrite length_insert. }
  destruct (slot_indication_spec (dl m1) (cur + SHORT) Hdl1)
    as (b & r' & Hb & Hnd & Hin & Hs & Hinv' & _ & Hbucket & Hf & Hlog & _).
  destruct (slot_indication_spec (ul m1) (cur + SHORT) Hul1)
    as (_ & r'' & _ & _ & _ & Hs' & _).
  assert (i ∈ b) as Hib.
  { apply Hin. exists h'. split; [done|]. unfold wheel_slot. simpl.
    by rewrite Hst1, Hst. }
  exists m1, {| last_sl_tx := Some (cur + SHORT); dl := r'; ul := r'' |}.
  split_and!.
  - done.
  - unfold slot_indication. by rewrite Hs, Hs'.
  - simpl. by apply Hbucket.
  - simpl. rewrite Hf. apply elem_of_app. by right.
  - intros HW. simpl. rewrite Hlog. apply elem_of_app. right.
    rewrite decide_True by done. apply list_elem_of_bind. exists i.
    split; [|done]. unfold timeout_report. rewrite Hi1. simpl.
    rewrite Hue. apply list_elem_of_here.
Qed.

Lemma timeout_after_partial_report_witness :
  let ops := [op_add_ue 0 17 2 2; op_slot_indication 100;
              op_new_dl_tx 0 100 4 4 0] in
  ∃ m0 m1 m2, run 8 ops (cell_harq_manager_init 16 2 8) = Some m0 ∧
    dl_ack_info 8 (expect_pucch_acks 2 0 m0) 0 ack None = Some (no_update, m1) ∧
    slot_indication m1 108 = Some m2 ∧
    status <$> harqs (dl m2) !! 0 = Some empty ∧
    (0, true, true) ∈ timeout_notifier (dl m2).
Proof.
  intros ops.
  destruct (run 8 ops (cell_harq_manager_init 16 2 8)) as [m0|] eqn:Hrun;
    [|by vm_compute in Hrun].
  pose proof (expect_pucch_acks_inv 2 0 m0 (reachable_inv _ _ _ _ _ _ Hrun))
    as Hinv.
  set (m := expect_pucch_acks 2 0 m0) in *.
  destruct (harqs (dl m) !! 0) as [h|] eqn:Hh;
    [|vm_compute in Hrun; injection Hrun as <-; by vm_compute in Hh].
  assert (h = set_pucch_ack_to_receive 2
                (set_chosen dtx None
                   (set_alloc_params 0 0 100 104 112 4
                      (seed_dl_params 0 harq_process_default))) ∧
          last_sl_tx m = Some 100 ∧ max_ack_wait_in_slots (dl m) = 8 ∧
          IsDl (dl m) = true) as (Heq & Hcur & HW & Hd).
  { vm_compute in Hrun. injection Hrun as <-. vm_compute in Hh.
    by injection Hh as <-. }
  destruct (timeout_after_partial_report 8 m 0 h ack None 100 Hinv Hh)
    as (m1 & m2 & Hd1 & Hs & Hi2 & _ & Hlog);
    [by rewrite Heq|rewrite Heq; simpl; lia|done|].
  exists m0, m1, m2. split_and!; [reflexivity|assumption|assumption|..].
  - by rewrite Hi2.
  - rewrite HW, Hd, Heq in Hlog. apply Hlog. lia.
Defined.

(** ** Releasing a record twice *)

(** X18. On a repository that satisfies the invariants, [dealloc_harq]
    returns for every record of the pool, and releasing the record a second
    time changes nothing: the record is empty, it is on the free list, which
    holds no index twice, and it is neither in the timeout wheel nor in the
    pending list. *)
Theorem dealloc_harq_twice (r : cell_harq_repository) (i : nat) :
  repo_inv r → i < length (harqs r) →
  ∃ r1, dealloc_harq r i = Some r1 ∧ dealloc_harq r1 i = Some r1 ∧
    status <$> harqs r1 !! i = Some empty ∧
    i ∈ free_harqs r1 ∧ NoDup (free_harqs r1) ∧
    ¬ in_timeout_wheel r1 i ∧ ¬ in_pending_retx_list r1 i.
Proof.
  intros Hinv Hlt.
  destruct (dealloc_harq_inv r i Hinv Hlt) as (r1 & Hd & Hinv1).
  destruct (lookup_lt_is_Some_2 _ _ Hlt) as [h Hi].
  assert (∃ h1, harqs r1 !! i = Some h1 ∧ status h1 = empty) as (h1 & Hi1 & Hst1).
  { destruct (decide (status h = empty)) as [Hst|Hst].
    - rewrite (dealloc_harq_empty r i h Hi Hst) in Hd. injection Hd as <-.
      by exists h.
    - destruct (dealloc_harq_in_use r i h) as (e & He & _ & Heq);
        [apply Hinv|done..|].
      rewrite Heq in Hd. injection Hd as <-. exists (set_status empty h).
      split; [|done]. simpl. by rewrite list_lookup_insert_eq. }
  exists r1. split_and!.
  - done.
  - by eapply dealloc_harq_empty.
  - by rewrite Hi1, <-Hst1.
  - destruct Hinv1 as (Hpool & _). by eapply pool_empty_is_free.
  - by destruct Hinv1 as ((? & _) & _).
  - rewrite (in_timeout_wheel_iff _ _ _ Hinv1 Hi1). by rewrite Hst1.
  - rewrite (in_pending_retx_list_iff _ _ _ Hinv1 Hi1). by rewrite Hst1.
Qed.

Lemma dealloc_harq_twice_witness :
  let ops := [op_add_ue 0 17 2 2; op_slot_indication 100;
              op_new_dl_tx 0 100 4 4 0] in
  ∃ m r1, run 8 ops (cell_harq_manager_init 16 2 8) = Some m ∧
          status <$> harqs (dl m) !! 0 = Some waiting_ack ∧
          dealloc_harq (dl m) 0 = Some r1 ∧ dealloc_harq r1 0 = Some r1 ∧
          0 ∈ free_harqs r1 ∧ NoDup (free_harqs r1).
Proof.
  intros ops.
  destruct (run 8 ops (cell_harq_manager_init 16 2 8)) as [m|] eqn:Hrun;
    [|by vm_compute in Hrun].
  assert (status <$> harqs (dl m) !! 0 = Some waiting_ack ∧
          0 < length (harqs (dl m))) as [Hst Hlt].
  { vm_compute in Hrun. injection Hrun as <-. split.
    - vm_compute; reflexivity.
    - vm_compute. lia. }
  destruct (reachable_inv _ _ _ _ _ _ Hrun) as [Hinv _].
  destruct (dealloc_harq_twice (dl m) 0 Hinv Hlt)
    as (r1 & Hd & Hd' & _ & Hin & Hnd & _).
  exists m, r1. split_and!; [reflexivity|assumption..].
Defined.

(** ** Process ids stay within the index *)

Section index_bounds.
Variable n : nat.
Variable SHORT_ACK_TIMEOUT_DTX : nat.

Lemma ids_in_range_ues r r' :
  ues r' = ues r → ids_in_range n r → ids_in_range n r'.
Proof. unfold ids_in_range. by intros ->. Qed.

Lemma dealloc_harq_ids r i r' :
  ids_in_range n r → dealloc_harq r i = Some r' → ids_in_range n r'.
Proof.
  unfold dealloc_harq. intros Hr Hd.
  destruct (harqs r !! i) as [h|] eqn:Hi; simplify_eq/=.
  case_decide; simplify_eq; [done|].
  destruct (ues r !! ue_idx h) as [e|] eqn:He; simplify_eq/=.
  case_decide as Hlt; simplify_eq.
  assert (ids_in_range n
            (set_ues (<[ue_idx h := {| free_harq_ids := free_harq_ids e ++ [h_id h];
                                       ue_harqs := <[h_id h := None]> (ue_harqs e) |}]>
                        (ues r)) r)) as Hids.
  { intros u e' Hu. simpl in Hu. destruct (Hr _ e He) as [Hlen Hfree].
    destruct (decide (u = ue_idx h)) as [->|Hne].
    - rewrite list_lookup_insert_eq in Hu by (by eapply lookup_lt_Some).
      injection Hu as <-. simpl. rewrite length_insert. split; [done|].
      apply Forall_app. split; [done|]. apply Forall_singleton. lia.
    - rewrite list_lookup_insert_ne in Hu by done. exact (Hr _ _ Hu). }
  eapply ids_in_range_ues; [|exact Hids]. by case_decide.
Qed.

Lemma alloc_harq_ids r ue sl_tx sl_ack max_retxs res r' :
  ids_in_range n r → alloc_harq r ue sl_tx sl_ack max_retxs = Some (res, r') →
  ids_in_range n r'.
Proof.
  intros Hr (e & He & [(_ & -> & _)|(i & hid & h & _ & _ & Hid & _ & _ & ->)])%alloc_harq_Some;
    [done|].
  intros u e' Hu. simpl in Hu. destruct (Hr _ e He) as [Hlen Hfree].
  destruct (decide (u = ue)) as [->|Hne].
  - rewrite list_lookup_insert_eq in Hu by (by eapply lookup_lt_Some).
    injection Hu as <-. simpl. rewrite length_insert. split; [done|].
    rewrite (last_Some_snoc _ _ Hid) in Hfree.
    by apply Forall_app in Hfree as [? _].
  - rewrite list_lookup_insert_ne in Hu by done. exact (Hr _ _ Hu).
Qed.

Lemma set_pending_retx_ids r i r' :
  ids_in_range n r → set_pending_retx r i = Some r' → ids_in_range n r'.
Proof.
  unfold set_pending_retx. intros Hr Hs.
  destruct (harqs r !! i) as [h|] eqn:Hi; simplify_eq/=.
  by destruct (status h); simplify_eq/=.
Qed.

Lemma handle_ack_ids r i a r' :
  ids_in_range n r → handle_ack r i a = Some r' → ids_in_range n r'.
Proof.
  unfold handle_ack. intros Hr Hh.
  destruct (harqs r !! i) as [h|]; simplify_eq/=.
  destruct (_ || _); [by eapply dealloc_harq_ids|by eapply set_pending_retx_ids].
Qed.

Lemma cancel_retxs_ids r i r' :
  ids_in_range n r → cancel_retxs r i = Some r' → ids_in_range n r'.
Proof.
  unfold cancel_retxs. intros Hr Hc.
  destruct (harqs r !! i) as [h|] eqn:Hi; simplify_eq/=.
  by case_decide; simplify_eq.
Qed.

Lemma slot_indication_ids r sl_tx r' :
  ids_in_range n r → harq_utils.slot_indication r sl_tx = Some r' →
  ids_in_range n r'.
Proof.
  unfold harq_utils.slot_indication. intros Hr Hs.
  destruct (harq_timeout_wheel r !! _) as [b|]; simplify_eq/=.
  eapply (for_each_preserves (ids_in_range n)); [|done..].
  intros r0 x r1 Hr0 Hh. unfold handle_harq_ack_timeout in Hh.
  destruct (harqs r0 !! x) as [h|]; simplify_eq/=.
  case_decide; [|done]. eapply dealloc_harq_ids; [|done]. by case_decide.
Qed.

Lemma reserve_ue_harqs_ids r ue k r' :
  k ≤ n → ids_in_range n r → reserve_ue_harqs r ue k = Some r' →
  ids_in_range n r'.
Proof.
  unfold reserve_ue_harqs. intros Hk Hr Hres.
  destruct (ues r !! ue) as [e|] eqn:He; simplify_eq/=.
  intros u e' Hu. simpl in Hu. destruct (Hr _ e He) as [Hlen Hfree].
  destruct (decide (u = ue)) as [->|Hne].
  - rewrite list_lookup_insert_eq in Hu by (by eapply lookup_lt_Some).
    injection Hu as <-. simpl. split; [done|].
    apply list.Forall_forall. intros x Hx%elem_of_reverse%elem_of_seq. lia.
  - rewrite list_lookup_insert_ne in Hu by done. exact (Hr _ _ Hu).
Qed.

Lemma destroy_ue_harqs_ids r ue r' :
  ids_in_range n r → destroy_ue_harqs r ue = Some r' → ids_in_range n r'.
Proof.
  unfold destroy_ue_harqs. intros Hr Hd.
  destruct (ues r !! ue) as [e|]; simplify_eq/=.
  destruct (for_each _ _ r) as [r1|] eqn:Hloop; simplify_eq/=.
  destruct (ues r1 !! ue) as [e1|] eqn:He1; simplify_eq/=.
  assert (ids_in_range n r1) as Hr1.
  { eapply (for_each_preserves (ids_in_range n)); [|done..].
    intros r0 k r2 Hr0 Hstep. unfold destroy_ue_harqs_step in Hstep.
    destruct (ues r0 !! ue) as [e0|]; simplify_eq/=.
    destruct (ue_harqs e0 !! k) as [[i|]|]; simplify_eq/=; [|done].
    by eapply dealloc_harq_ids. }
  intros u e' Hu. simpl in Hu. destruct (decide (u = ue)) as [->|Hne].
  - rewrite list_lookup_insert_eq in Hu by (by eapply lookup_lt_Some).
    injection Hu as <-. simpl. split; [by apply (Hr1 _ _ He1)|].
    apply Forall_nil_2.
  - rewrite list_lookup_insert_ne in Hu by done. exact (Hr1 _ _ Hu).
Qed.

Lemma exec_ids m o m' :
  reservation_in_range n o = true →
  ids_in_range n (dl m) ∧ ids_in_range n (ul m) →
  exec SHORT_ACK_TIMEOUT_DTX m o = Some m' →
  ids_in_range n (dl m') ∧ ids_in_range n (ul m').
Proof.
  intros Hres [Hdl Hul] He.
  assert (∀ d, ids_in_range n (repo_of d m)) as Hd by (by intros []).
  assert (∀ d r, ids_in_range n r →
            ids_in_range n (dl (set_repo d r m)) ∧
            ids_in_range n (ul (set_repo d r m)))
    as Hset by (intros [] ??; split; simpl; done).
  destruct o; simpl in He, Hres.
  - destruct (reserve_ue_harqs _ _ _) as [r|] eqn:E; simplify_eq/=.
    apply Hset. apply bool_decide_eq_true in Hres.
    eapply reserve_ue_harqs_ids; [done|apply Hd|done].
  - destruct (alloc_harq _ _ _ _ _) as [[res r]|] eqn:E; simplify_eq/=.
    apply Hset. eapply alloc_harq_ids; [apply Hd|done].
  - destruct (handle_ack _ _ _) as [r|] eqn:E; simplify_eq/=.
    apply Hset. eapply handle_ack_ids; [apply Hd|done].
  - destruct (dealloc_harq _ _) as [r|] eqn:E; simplify_eq/=.
    apply Hset. eapply dealloc_harq_ids; [apply Hd|done].
  - destruct (destroy_ue_harqs _ _) as [r|] eqn:E; simplify_eq/=.
    apply Hset. eapply destroy_ue_harqs_ids; [apply Hd|done].
  - destruct (harq_utils.slot_indication _ _) as [r|] eqn:E; simplify_eq/=.
    apply Hset. eapply slot_indication_ids; [apply Hd|done].
  - destruct (set_pending_retx _ _) as [r|] eqn:E; simplify_eq/=.
    apply Hset. eapply set_pending_retx_ids; [apply Hd|done].
  - destruct (cancel_retxs _ _) as [r|] eqn:E; simplify_eq/=.
    apply Hset. eapply cancel_retxs_ids; [apply Hd|done].
  - unfold slot_indication in He.
    destruct (harq_utils.slot_indication (dl m) _) as [dl'|] eqn:E1; simplify_eq/=.
    destruct (harq_utils.slot_indication (ul m) _) as [ul'|] eqn:E2; simplify_eq/=.
    split; [exact (slot_indication_ids _ _ _ Hdl E1)|
            exact (slot_indication_ids _ _ _ Hul E2)].
  - apply andb_true_iff in Hres as [H1%bool_decide_eq_true H2%bool_decide_eq_true].
    unfold add_ue in He. repeat case_decide; simplify_eq.
    destruct (contains m ue) as [[]|]; simplify_eq/=.
    destruct (reserve_ue_harqs (dl m) _ _) as [dl'|] eqn:E1; simplify_eq/=.
    destruct (reserve_ue_harqs (ul m) _ _) as [ul'|] eqn:E2; simplify_eq/=.
    split; [exact (reserve_ue_harqs_ids _ _ _ _ H1 Hdl E1)|
            exact (reserve_ue_harqs_ids _ _ _ _ H2 Hul E2)].
  - unfold destroy_ue in He.
    destruct (destroy_ue_harqs (dl m) _) as [dl'|] eqn:E1; simplify_eq/=.
    destruct (destroy_ue_harqs (ul m) _) as [ul'|] eqn:E2; simplify_eq/=.
    split; [exact (destroy_ue_harqs_ids _ _ _ Hdl E1)|
            exact (destroy_ue_harqs_ids _ _ _ Hul E2)].
  - destruct (new_dl_tx _ _ _ _ _ _) as [[res m1]|] eqn:E; simplify_eq/=.
    unfold new_dl_tx in E.
    destruct (alloc_harq _ _ _ _ _) as [[res0 dl']|] eqn:Ha; simplify_eq/=.
    apply alloc_harq_ids in Ha; [|done].
    destruct res0 as [i|]; simplify_eq/=; [|done].
    by destruct (harqs dl' !! i) as [h|] eqn:Hi; simplify_eq/=.
  - destruct (new_ul_tx _ _ _ _) as [[res m1]|] eqn:E; simplify_eq/=.
    unfold new_ul_tx in E.
    destruct (alloc_harq _ _ _ _ _) as [[res0 ul']|] eqn:Ha; simplify_eq/=.
    apply alloc_harq_ids in Ha; [|done].
    destruct res0 as [i|]; simplify_eq/=; [|done].
    by destruct (harqs ul' !! i) as [h|] eqn:Hi; simplify_eq/=.
  - destruct (dl_ack_info _ _ _ _ _) as [[res m1]|] eqn:E; simplify_eq/=.
    unfold dl_ack_info in E.
    destruct (harqs (dl m) !! i) as [h|] eqn:Hi; simplify_eq/=.
    case_decide as Hst; simplify_eq; [done|].
    case_decide.
    + destruct (handle_ack _ _ _) as [dl2|] eqn:Hh; simplify_eq/=.
      split; [|done]. by eapply handle_ack_ids; [|done].
    + by destruct (last_sl_tx m); simplify_eq/=.
  - destruct (ul_crc_info _ _ _) as [[res m1]|] eqn:E; simplify_eq/=.
    unfold ul_crc_info in E.
    destruct (harqs (ul m) !! i) as [h|] eqn:Hi; simplify_eq/=.
    case_decide; simplify_eq; [done|].
    destruct (handle_ack _ _ _) as [ul'|] eqn:Hh; simplify_eq/=.
    destruct (harqs ul' !! i); simplify_eq/=.
    split; [done|]. by eapply handle_ack_ids.
Qed.

Lemma run_ids ops m m' :
  forallb (reservation_in_range n) ops = true →
  ids_in_range n (dl m) ∧ ids_in_range n (ul m) →
  run SHORT_ACK_TIMEOUT_DTX ops m = Some m' →
  ids_in_range n (dl m') ∧ ids_in_range n (ul m').
Proof.
  revert m. induction ops as [|o ops IH]; intros m Hres Hm Hrun.
  - unfold run in Hrun. simpl in Hrun. by injection Hrun as <-.
  - simpl in Hres. apply andb_true_iff in Hres as [Ho Hres].
    unfold run in Hrun. simpl in Hrun.
    destruct (exec SHORT_ACK_TIMEOUT_DTX m o) as [m1|] eqn:He; simplify_eq/=.
    apply (IH m1); [done| |done]. by eapply exec_ids.
Qed.

End index_bounds.

Lemma reachable_ids (SHORT MAX max_ues W : nat) ops m :
  forallb (reservation_in_range MAX) ops = true →
  run SHORT ops (cell_harq_manager_init MAX max_ues W) = Some m →
  ids_in_range MAX (dl m) ∧ ids_in_range MAX (ul m).
Proof.
  intros Hres Hrun. eapply run_ids; [done| |done].
  split; intros u e Hu; simpl in Hu;
    apply lookup_replicate in Hu as [-> _]; simpl;
    (split; [apply length_replicate|apply Forall_nil_2]).
Qed.

(** ** Allocations in reachable states *)

Lemma alloc_harq_total n r ue e sl_tx sl_ack max_retxs :
  repo_inv r → ids_in_range n r → ues r !! ue = Some e →
  ∃ res r', alloc_harq r ue sl_tx sl_ack max_retxs = Some (res, r') ∧
    (res = None ↔ free_harqs r = [] ∨ free_harq_ids e = []) ∧
    (∀ i, res = Some i → i < length (harqs r)).
Proof.
  intros Hinv Hids He.
  destruct (list.last (free_harqs r)) as [i|] eqn:Hf; cycle 1.
  { apply last_None in Hf. exists None, r. split_and!; [|by split; [left|]|done].
    eapply alloc_harq_exhausted; [done|by left]. }
  destruct (list.last (free_harq_ids e)) as [hid|] eqn:Hid; cycle 1.
  { apply last_None in Hid. exists None, r. split_and!; [|by split; [right|]|done].
    eapply alloc_harq_exhausted; [done|by right]. }
  destruct Hinv as ((_ & Hfree & _) & _).
  destruct (Hfree i) as (h & Hi & _).
  { rewrite (last_Some_snoc _ _ Hf). apply elem_of_snoc_r. }
  destruct (Hids _ _ He) as [Hlen Hrange].
  assert (hid < length (ue_harqs e)) as Hlt.
  { rewrite Hlen. eapply (proj1 (list.Forall_forall _ _) Hrange).
    rewrite (last_Some_snoc _ _ Hid). apply elem_of_snoc_r. }
  eexists (Some i), _. split_and!.
  - by eapply alloc_harq_available.
  - split; [done|]. intros [Hnil|Hnil].
    + by rewrite Hnil in Hf.
    + by rewrite Hnil in Hid.
  - intros ? [= <-]. by eapply lookup_lt_Some.
Qed.

Lemma alloc_counts r ue i h h' us :
  repo_inv r → harqs r !! i = Some h → list.last (free_harqs r) = Some i →
  status h' = waiting_ack → ue_idx h' = ue →
  nof_in_use (set_ues us (set_harqs (<[i := h']> (harqs r)) r)) = nof_in_use r + 1 ∧
  nof_owned (set_ues us (set_harqs (<[i := h']> (harqs r)) r)) ue
  = nof_owned r ue + 1.
Proof.
  intros (Hpool & _) Hi Hf Hst Hue.
  pose proof (pool_free_is_empty _ _ _ _ Hpool Hf Hi) as Hempty.
  unfold nof_in_use, nof_owned. simpl. split.
  - pose proof (length_filter_insert in_use (harqs r) i h' h Hi) as Hc.
    rewrite decide_False in Hc by (unfold in_use; by intros ?).
    rewrite decide_True in Hc by (unfold in_use; by rewrite Hst). lia.
  - pose proof (length_filter_insert (owned_by ue) (harqs r) i h' h Hi) as Hc.
    rewrite decide_False in Hc by (by intros [? _]).
    rewrite decide_True in Hc by (split; [by rewrite Hst|done]). lia.
Qed.

(** X19. A manager is built by the constructor and takes a sequence of calls
    in which every reservation of process ids is made for a terminal that
    holds no record in use and asks for at most [MAX_NOF_HARQS] ids. Then
    [new_dl_tx] and [new_ul_tx] return for every terminal of the
    repository; they hand out no record exactly when all records of the
    pool are in use or the terminal has as many records in use as it
    reserved, and then leave the manager as it is; when they hand out a
    record, the pool and the terminal have one more record in use. *)
Theorem allocation_in_reachable_states (SHORT MAX max_ues W : nat)
    (ops : list op) (m : cell_harq_manager) (d : bool) (ue : nat)
    (e : ue_harq_entity_impl) (sl_tx k1 max_retxs bit_idx : nat) :
  run SHORT ops (cell_harq_manager_init MAX max_ues W) = Some m →
  fresh_reservations SHORT ops (cell_harq_manager_init MAX max_ues W) = true →
  forallb (reservation_in_range MAX) ops = true →
  ues (repo_of d m) !! ue = Some e →
  ∃ res m', (if d then new_dl_tx m ue sl_tx k1 max_retxs bit_idx
             else new_ul_tx m ue sl_tx max_retxs) = Some (res, m') ∧
    (res = None ↔
     nof_in_use (repo_of d m) = MAX * max_ues ∨
     nof_owned (repo_of d m) ue = budget ops d ue) ∧
    (res = None → m' = m) ∧
    (∀ i, res = Some i →
       nof_in_use (repo_of d m') = nof_in_use (repo_of d m) + 1 ∧
       nof_owned (repo_of d m') ue = nof_owned (repo_of d m) ue + 1).
Proof.
  intros Hrun Hfresh Hrange He.
  pose proof (reachable_inv _ _ _ _ _ _ Hrun) as Hinv.
  pose proof (mgr_inv_repo_of d _ Hinv) as Hr.
  assert (ue_inv (repo_of d m) (budget ops d)) as Hu.
  { destruct (reachable_ue_inv _ _ _ _ _ _ Hrun Hfresh). by destruct d. }
  assert (ids_in_range MAX (repo_of d m)) as Hids.
  { destruct (reachable_ids _ _ _ _ _ _ Hrange Hrun). by destruct d. }
  assert (length (harqs (repo_of d m)) = MAX * max_ues) as Hcap.
  { destruct (run_capacity _ _ _ _ _
                (cell_harq_manager_init_capacity MAX max_ues W) Hrun).
    by destruct d. }
  assert ((free_harqs (repo_of d m) = [] ∨ free_harq_ids e = []) ↔
          nof_in_use (repo_of d m) = MAX * max_ues ∨
          nof_owned (repo_of d m) ue = budget ops d ue) as Hfull.
  { destruct Hr as ((_ & _ & Hlen) & _).
    destruct (Hu ue e He) as (_ & _ & _ & Hb).
    unfold nof_in_use, nof_owned. rewrite Hcap in Hlen.
    split; (intros [H1|H2]; [left|right]).
    - rewrite H1 in Hlen. simpl in Hlen. lia.
    - rewrite H2 in Hb. simpl in Hb. lia.
    - apply nil_length_inv. lia.
    - apply nil_length_inv. lia. }
  assert (∀ sl_ack, ∃ res r',
            alloc_harq (repo_of d m) ue sl_tx sl_ack max_retxs = Some (res, r') ∧
            (res = None ↔ free_harqs (repo_of d m) = [] ∨ free_harq_ids e = []) ∧
            (∀ i, res = Some i → i < length (harqs (repo_of d m)))) as Halloc.
  { intros sl_ack. by eapply alloc_harq_total. }
  destruct d; simpl in *.
  - destruct (Halloc (sl_tx + k1)) as (res & r' & Ha & Hres & Hlt).
    destruct res as [i|].
    + destruct (new_dl_tx m ue sl_tx k1 max_retxs bit_idx) as [[res m']|] eqn:Hn;
        cycle 1.
      { unfold new_dl_tx in Hn. rewrite Ha in Hn. simpl in Hn.
        apply alloc_harq_Some in Ha
          as (e0 & He0 & [(? & _)|(i0 & hid & h & [= <-] & _ & _ & _ & Hi & ->)]);
          [done|].
        simpl in Hn.
        by rewrite list_lookup_insert_eq in Hn by (by eapply lookup_lt_Some). }
      assert (res = Some i) as ->.
      { unfold new_dl_tx in Hn. rewrite Ha in Hn. simpl in Hn.
        by destruct (harqs r' !! i); simplify_eq/=. }
      exists (Some i), m'. split; [done|]. split_and!.
      * by rewrite <-Hfull.
      * done.
      * intros ? [= <-].
        destruct (new_dl_tx_Some _ _ _ _ _ _ _ _ Hn)
          as (e0 & hid & h & _ & Hf & _ & _ & Hi & Hhs & Hues & _).
        destruct (alloc_counts (dl m) ue i h
                    (seed_dl_params bit_idx
                       (set_alloc_params ue hid sl_tx (sl_tx + k1)
                          (sl_tx + k1 + max_ack_wait_in_slots (dl m))
                          max_retxs h)) (ues (dl m')))
          as [Hc1 Hc2]; [done..|].
        unfold nof_in_use, nof_owned in *. simpl in Hc1, Hc2.
        by rewrite Hhs.
    + exists None, m. split.
      { unfold new_dl_tx. rewrite Ha. simpl.
        assert (r' = dl m) as ->; [|done].
        apply alloc_harq_Some in Ha as (e0 & _ & [(_ & -> & _)|(? & ? & ? & ? & _)]);
          done. }
      split_and!; [by rewrite <-Hfull|done|done].
  - destruct (Halloc sl_tx) as (res & r' & Ha & Hres & Hlt).
    destruct res as [i|].
    + destruct (new_ul_tx m ue sl_tx max_retxs) as [[res m']|] eqn:Hn;
        cycle 1.
      { unfold new_ul_tx in Hn. rewrite Ha in Hn. simpl in Hn.
        apply alloc_harq_Some in Ha
          as (e0 & He0 & [(? & _)|(i0 & hid & h & [= <-] & _ & _ & _ & Hi & ->)]);
          [done|].
        simpl in Hn.
        by rewrite list_lookup_insert_eq in Hn by (by eapply lookup_lt_Some). }
      assert (res = Some i) as ->.
      { unfold new_ul_tx in Hn. rewrite Ha in Hn. simpl in Hn.
        by destruct (harqs r' !! i); simplify_eq/=. }
      exists (Some i), m'. split; [done|]. split_and!.
      * by rewrite <-Hfull.
      * done.
      * intros ? [= <-].
        destruct (new_ul_tx_Some _ _ _ _ _ _ Hn)
          as (e0 & hid & h & _ & Hf & _ & _ & Hi & Hhs & Hues & _).
        destruct (alloc_counts (ul m) ue i h
                    (seed_ul_params
                       (set_alloc_params ue hid sl_tx sl_tx
                          (sl_tx + max_ack_wait_in_slots (ul m))
                          max_retxs h)) (ues (ul m')))
          as [Hc1 Hc2]; [done..|].
        unfold nof_in_use, nof_owned in *. simpl in Hc1, Hc2.
        by rewrite Hhs.
    + exists None, m. split.
      { unfold new_ul_tx. rewrite Ha. simpl.
        assert (r' = ul m) as ->; [|done].
        apply alloc_harq_Some in Ha as (e0 & _ & [(_ & -> & _)|(? & ? & ? & ? & _)]);
          done. }
      split_and!; [by rewrite <-Hfull|done|done].
Qed.

Lemma allocation_in_reachable_states_witness :
  let ops := [op_add_ue 0 17 1 1; op_slot_indication 100;
              op_new_dl_tx 0 100 4 4 0] in
  ∃ m, run 8 ops (cell_harq_manager_init 16 2 8) = Some m ∧
       nof_owned (dl m) 0 = 1 ∧ budget ops true 0 = 1 ∧
       new_dl_tx m 0 101 4 4 0 = Some (None, m).
Proof.
  intros ops.
  destruct (run 8 ops (cell_harq_manager_init 16 2 8)) as [m|] eqn:Hrun;
    [|by vm_compute in Hrun].
  assert (fresh_reservations 8 ops (cell_harq_manager_init 16 2 8) = true)
    as Hfresh by (vm_compute; reflexivity).
  assert (forallb (reservation_in_range 16) ops = true)
    as Hrange by (vm_compute; reflexivity).
  destruct (ues (dl m) !! 0) as [e|] eqn:He;
    [|vm_compute in Hrun; injection Hrun as <-; by vm_compute in He].
  assert (nof_owned (dl m) 0 = 1) as Hown.
  { vm_compute in Hrun. injection Hrun as <-. vm_compute; reflexivity. }
  assert (budget ops true 0 = 1) as Hb by (vm_compute; reflexivity).
  destruct (allocation_in_reachable_states 8 16 2 8 ops m true 0 e 101 4 4 0
              Hrun Hfresh Hrange He) as (res & m' & Hn & Hres & Hsame & _).
  assert (res = None) as ->.
  { apply Hres. right. simpl. by rewrite Hown, Hb. }
  rewrite (Hsame eq_refl) in Hn.
  exists m. split_and!; [reflexivity|assumption..].
Defined.

(** ** The order in which process ids are handed out *)

Lemma alloc_harqs_in_order ue sl_tx sl_ack max_retxs k :
  ∀ r e j n,
    repo_inv r → ues r !! ue = Some e →
    free_harq_ids e = reverse (seq j n) → j + n ≤ length (ue_harqs e) →
    k ≤ n → k ≤ length (free_harqs r) →
    ∃ r', alloc_harqs r ue sl_tx sl_ack max_retxs k
          = Some (Some <$> take k (reverse (free_harqs r)), r') ∧
      repo_inv r' ∧
      (∀ t i, t < k → reverse (free_harqs r) !! t = Some i →
         ∃ h, harqs r' !! i = Some h ∧ h_id h = j + t ∧ ue_idx h = ue ∧
              status h = waiting_ack) ∧
      (∀ i, i ∉ take k (reverse (free_harqs r)) → harqs r' !! i = harqs r !! i) ∧
      (∃ e', ues r' !! ue = Some e' ∧
             free_harq_ids e' = reverse (seq (j + k) (n - k))).
Proof.
  induction k as [|k IH]; intros r e j n Hinv He Hids Hlen Hk Hf.
  - exists r. simpl. split_and!; [done|done| |done|].
    + intros ???. lia.
    + exists e. split; [done|]. rewrite Hids. f_equal. f_equal; lia.
  - destruct n as [|n]; [lia|].
    destruct (free_harqs r) as [|x f0] eqn:Hfree using rev_ind; [simpl in Hf; lia|].
    clear IHf0. rename x into i, f0 into f.
    rewrite length_app in Hf. simpl in Hf.
    assert (list.last (free_harqs r) = Some i) as Hlast
      by (rewrite Hfree; apply last_snoc).
    assert (list.last (free_harq_ids e) = Some j) as Hid.
    { rewrite Hids. simpl. rewrite reverse_cons. apply last_snoc. }
    pose proof Hinv as ((Hnd & Hpool & _) & _).
    destruct (Hpool i) as (h & Hi & Hst).
    { rewrite Hfree. apply elem_of_snoc_r. }
    assert (j < length (ue_harqs e)) as Hj by lia.
    pose proof (alloc_harq_available r ue sl_tx sl_ack max_retxs e i j h
                  He Hlast Hid Hj Hi) as Ha.
    pose proof (alloc_harq_inv _ _ _ _ _ _ _ Hinv Ha) as Hinv1.
    set (r1 := alloc_result r ue sl_tx sl_ack max_retxs i j h e) in *.
    assert (free_harqs r1 = f) as Hf1.
    { unfold r1. simpl. rewrite Hfree. apply removelast_last. }
    assert (ue < length (ues r)) as Hue by (by eapply lookup_lt_Some).
    assert (i < length (harqs r)) as Hil by (by eapply lookup_lt_Some).
    destruct (IH r1 {| free_harq_ids := removelast (free_harq_ids e);
                       ue_harqs := <[j := Some i]> (ue_harqs e) |} (S j) n)
      as (r' & Hall & Hinv' & Hrec & Hkeep & e' & He' & Hids');
      [done| | | |lia|rewrite Hf1; lia|].
    { unfold r1. simpl. by rewrite list_lookup_insert_eq. }
    { simpl. rewrite Hids. simpl. rewrite reverse_cons. apply removelast_last. }
    { simpl. rewrite length_insert. lia. }
    rewrite Hf1 in Hall, Hrec, Hkeep.
    rewrite Hfree in Hnd. apply list.NoDup_app in Hnd as (_ & Hnot & _).
    assert (i ∉ f) as Hif.
    { intros Hin. apply (Hnot i Hin). apply list_elem_of_here. }
    exists r'. rewrite reverse_app. simpl.
    split_and!.
    + rewrite Ha. simpl. rewrite Hall. by simpl.
    + done.
    + intros [|t] i0 Ht Hlook; simpl in Hlook.
      * injection Hlook as <-. eexists. split.
        { rewrite Hkeep.
          - unfold r1. simpl. by rewrite list_lookup_insert_eq.
          - intros (t0 & Hl & _)%list.elem_of_take.
            apply list_elem_of_lookup_2 in Hl. by rewrite elem_of_reverse in Hl. }
        simpl. split_and!; [lia|done|done].
      * destruct (Hrec t i0) as (h0 & Hh0 & Hid0 & Hrest); [lia|done|].
        exists h0. split_and!; [done|lia|apply Hrest..].
    + intros i0 Hnotin. apply not_elem_of_cons in Hnotin as [Hne Hnotin].
      rewrite (Hkeep i0 Hnotin). unfold r1. simpl.
      by rewrite list_lookup_insert_ne.
    + exists e'. split; [done|]. rewrite Hids'. f_equal. f_equal; lia.
Qed.

(** X20. On a repository that satisfies the invariants, after
    [reserve_ue_harqs] has reserved [n] process ids for a terminal, within
    the places of its index, the first [k ≤ n] allocations for the terminal
    hand out records as long as the pool has free ones: allocation number
    [t], counted from 0, takes the record that is [t] places from the back
    of the free list and gives it the process id [t]; and once [n] records
    are handed out, the next allocation hands out none. *)
Theorem process_ids_in_order (r : cell_harq_repository) (ue : nat)
    (e : ue_harq_entity_impl) (n k : nat) (sl_tx sl_ack : slot_point)
    (max_retxs : nat) (r0 : cell_harq_repository) :
  repo_inv r → ues r !! ue = Some e → n ≤ length (ue_harqs e) →
  reserve_ue_harqs r ue n = Some r0 → k ≤ n → k ≤ length (free_harqs r) →
  ∃ r', alloc_harqs r0 ue sl_tx sl_ack max_retxs k
        = Some (Some <$> take k (reverse (free_harqs r)), r') ∧
    (∀ t i, t < k → reverse (free_harqs r) !! t = Some i →
       ∃ h, harqs r' !! i = Some h ∧ h_id h = t ∧ ue_idx h = ue ∧
            status h = waiting_ack) ∧
    (k = n → alloc_harq r' ue sl_tx sl_ack max_retxs = Some (None, r')).
Proof.
  intros Hinv He Hn Hres Hk Hf.
  pose proof (reserve_ue_harqs_preserves _ _ _ _ Hinv Hres) as Hinv0.
  unfold reserve_ue_harqs in Hres. rewrite He in Hres. simpl in Hres.
  injection Hres as <-.
  destruct (alloc_harqs_in_order ue sl_tx sl_ack max_retxs k _
              {| free_harq_ids := reverse (seq 0 n); ue_harqs := ue_harqs e |}
              0 n Hinv0)
    as (r' & Hall & _ & Hrec & _ & e' & He' & Hids'); [|done..|].
  { simpl. by rewrite list_lookup_insert_eq by (by eapply lookup_lt_Some). }
  simpl in Hall, Hrec. exists r'. split_and!; [done|done|].
  intros ->. eapply alloc_harq_exhausted; [done|]. right.
  rewrite Hids'. by rewrite Nat.sub_diag.
Qed.

Lemma process_ids_in_order_witness :
  let r := dl (cell_harq_manager_init 16 2 8) in
  ∃ r0 r', reserve_ue_harqs r 1 3 = Some r0 ∧
           alloc_harqs r0 1 100 104 4 3 = Some ([Some 0; Some 1; Some 2], r') ∧
           h_id <$> harqs r' !! 0 = Some 0 ∧
           h_id <$> harqs r' !! 1 = Some 1 ∧
           h_id <$> harqs r' !! 2 = Some 2 ∧
           alloc_harq r' 1 100 104 4 = Some (None, r').
Proof.
  intros r.
  destruct (reserve_ue_harqs r 1 3) as [r0|] eqn:Hres; [|by vm_compute in Hres].
  destruct (ues r !! 1) as [e|] eqn:He; [|by vm_compute in He].
  assert (repo_inv r) as Hinv by apply cell_harq_repository_init_inv.
  assert (3 ≤ length (ue_harqs e)) as Hn.
  { vm_compute in He. injection He as <-. vm_compute. lia. }
  assert (3 ≤ length (free_harqs r)) as Hf by (vm_compute; lia).
  destruct (process_ids_in_order r 1 e 3 3 100 104 4 r0 Hinv He Hn Hres)
    as (r' & Hall & Hrec & Hnone); [lia|done|].
  assert (take 3 (reverse (free_harqs r)) = [0; 1; 2]) as Htake
    by (vm_compute; reflexivity).
  rewrite Htake in Hall.
  assert (∀ t, t < 3 → [0; 1; 2] !! t = Some t →
               h_id <$> harqs r' !! t = Some t) as Hid.
  { intros t Ht Hl. destruct (Hrec t t Ht) as (h & Hh & <- & _).
    - rewrite <-(take_drop 3 (reverse (free_harqs r))), Htake.
      rewrite lookup_app_l by (simpl; lia). done.
    - by rewrite Hh. }
  exists r0, r'. split_and!; [reflexivity|assumption| | | |by apply Hnone].
  - by apply Hid; [lia|].
  - by apply Hid; [lia|].
  - by apply Hid; [lia|].
Defined.

(** ** Calls of the timeout notifier *)

Lemma quiet_refl r : quiet r r.
Proof. by split_and!. Qed.

Lemma quiet_trans r1 r2 r3 : quiet r1 r2 → quiet r2 r3 → quiet r1 r3.
Proof. intros (?&?&?) (?&?&?). split_and!; congruence. Qed.

Lemma dealloc_harq_quiet r i r' : dealloc_harq r i = Some r' → quiet r r'.
Proof.
  unfold dealloc_harq. intros Hd.
  destruct (harqs r !! i) as [h|] eqn:Hi; simplify_eq/=.
  case_decide; simplify_eq; [apply quiet_refl|].
  destruct (ues r !! ue_idx h) as [e|]; simplify_eq/=.
  case_decide; simplify_eq. by case_decide.
Qed.

Lemma alloc_harq_quiet r ue sl_tx sl_ack max_retxs res r' :
  alloc_harq r ue sl_tx sl_ack max_retxs = Some (res, r') → quiet r r'.
Proof.
  intros (e & He & [(_ & -> & _)|(i & hid & h & _ & _ & _ & _ & _ & ->)])%alloc_harq_Some;
    [apply quiet_refl|done].
Qed.

Lemma set_pending_retx_quiet r i r' :
  set_pending_retx r i = Some r' → quiet r r'.
Proof.
  unfold set_pending_retx. intros Hs.
  destruct (harqs r !! i) as [h|] eqn:Hi; simplify_eq/=.
  destruct (status h); simplify_eq/=; [apply quiet_refl|done].
Qed.

Lemma handle_ack_quiet r i a r' : handle_ack r i a = Some r' → quiet r r'.
Proof.
  unfold handle_ack. intros Hh.
  destruct (harqs r !! i) as [h|]; simplify_eq/=.
  destruct (_ || _); [by eapply dealloc_harq_quiet|by eapply set_pending_retx_quiet].
Qed.

Lemma cancel_retxs_quiet r i r' : cancel_retxs r i = Some r' → quiet r r'.
Proof.
  unfold cancel_retxs. intros Hc.
  destruct (harqs r !! i) as [h|] eqn:Hi; simplify_eq/=.
  case_decide; simplify_eq; [apply quiet_refl|done].
Qed.

Lemma reserve_ue_harqs_quiet r ue n r' :
  reserve_ue_harqs r ue n = Some r' → quiet r r'.
Proof.
  unfold reserve_ue_harqs. intros Hres.
  by destruct (ues r !! ue) as [e|]; simplify_eq/=.
Qed.

Lemma destroy_ue_harqs_quiet r ue r' :
  destroy_ue_harqs r ue = Some r' → quiet r r'.
Proof.
  unfold destroy_ue_harqs. intros Hd.
  destruct (ues r !! ue) as [e|]; simplify_eq/=.
  destruct (for_each _ _ r) as [r1|] eqn:Hloop; simplify_eq/=.
  destruct (ues r1 !! ue) as [e1|] eqn:He1; simplify_eq/=.
  assert (quiet r r1) as Hq; [|exact Hq].
  eapply (for_each_preserves (quiet r)); [|apply quiet_refl|done].
  intros r0 k r2 Hr0 Hstep. unfold destroy_ue_harqs_step in Hstep.
  destruct (ues r0 !! ue) as [e0|]; simplify_eq/=.
  destruct (ue_harqs e0 !! k) as [[i|]|]; simplify_eq/=; [|done].
  eapply quiet_trans; [done|]. by eapply dealloc_harq_quiet.
Qed.

Lemma quiet_adds_timeouts slot r r' : quiet r r' → adds_timeouts slot r r'.
Proof.
  intros (? & ? & Hlog). split_and!; [done..|]. exists [].
  rewrite app_nil_r. split_and!; [done..|]. by intros ??? ?%elem_of_nil.
Qed.

Lemma slot_indication_adds_timeouts r sl_tx :
  repo_inv r →
  ∃ r', harq_utils.slot_indication r sl_tx = Some r' ∧ adds_timeouts true r r'.
Proof.
  intros Hinv.
  destruct (slot_indication_spec r sl_tx Hinv)
    as (b & r' & _ & _ & _ & Hs & _ & _ & _ & _ & Hlog & HW & Hd).
  exists r'. split; [done|]. split_and!; [done..|]. eexists. split; [done|].
  split.
  - intros [?| ->]; [done|]. by rewrite decide_False by (by intros ?).
  - intros ue is_dl a Hin. case_decide; [|by apply elem_of_nil in Hin].
    apply list_elem_of_bind in Hin as (j & Hin & _).
    unfold timeout_report in Hin. destruct (harqs r !! j) as [h|].
    + apply list_elem_of_singleton in Hin. by injection Hin.
    + by apply elem_of_nil in Hin.
Qed.

Lemma adds_timeouts_trans s1 s2 r1 r2 r3 :
  adds_timeouts s1 r1 r2 → adds_timeouts s2 r2 r3 →
  adds_timeouts (s1 || s2) r1 r3.
Proof.
  intros (HW1 & Hd1 & l1 & Hl1 & Hq1 & Hdir1) (HW2 & Hd2 & l2 & Hl2 & Hq2 & Hdir2).
  split_and!; [congruence..|]. exists (l1 ++ l2). split_and!.
  - by rewrite Hl2, Hl1, app_assoc.
  - intros Hq. rewrite Hq1, Hq2; [done| |].
    + destruct Hq as [Hq|Hq]; [|right; congruence].
      apply orb_false_iff in Hq as [_ ?]. by left.
    + destruct Hq as [Hq|Hq]; [|by right].
      apply orb_false_iff in Hq as [? _]. by left.
  - intros ue is_dl a [Hin|Hin]%elem_of_app.
    + by eapply Hdir1.
    + rewrite <-Hd1. by eapply Hdir2.
Qed.

Lemma exec_adds_timeouts SHORT m o m' :
  mgr_inv m → exec SHORT m o = Some m' →
  ∀ d, adds_timeouts (indicates_slot o) (repo_of d m) (repo_of d m').
Proof.
  intros Hinv He.
  assert (∀ d0 r slot, adds_timeouts slot (repo_of d0 m) r →
            ∀ d, adds_timeouts slot (repo_of d m) (repo_of d (set_repo d0 r m)))
    as Hset.
  { intros [] r slot Hr []; simpl; try done;
      apply quiet_adds_timeouts, quiet_refl. }
  assert (∀ dl' ul' sl slot,
            adds_timeouts slot (dl m) dl' → adds_timeouts slot (ul m) ul' →
            ∀ d, adds_timeouts slot (repo_of d m)
                   (repo_of d {| last_sl_tx := sl; dl := dl'; ul := ul' |}))
    as Hboth by (by intros ?????? []).
  destruct o; simpl in He; simpl indicates_slot.
  - destruct (reserve_ue_harqs _ _ _) as [r|] eqn:E; simplify_eq/=.
    by eapply Hset, quiet_adds_timeouts, reserve_ue_harqs_quiet.
  - destruct (alloc_harq _ _ _ _ _) as [[res r]|] eqn:E; simplify_eq/=.
    by eapply Hset, quiet_adds_timeouts, alloc_harq_quiet.
  - destruct (handle_ack _ _ _) as [r|] eqn:E; simplify_eq/=.
    by eapply Hset, quiet_adds_timeouts, handle_ack_quiet.
  - destruct (dealloc_harq _ _) as [r|] eqn:E; simplify_eq/=.
    by eapply Hset, quiet_adds_timeouts, dealloc_harq_quiet.
  - destruct (destroy_ue_harqs _ _) as [r|] eqn:E; simplify_eq/=.
    by eapply Hset, quiet_adds_timeouts, destroy_ue_harqs_quiet.
  - destruct (slot_indication_adds_timeouts (repo_of is_dl m) sl_tx)
      as (r & Hs & Hadd); [by apply mgr_inv_repo_of|].
    rewrite Hs in He. simplify_eq/=. by apply Hset.
  - destruct (set_pending_retx _ _) as [r|] eqn:E; simplify_eq/=.
    by eapply Hset, quiet_adds_timeouts, set_pending_retx_quiet.
  - destruct (cancel_retxs _ _) as [r|] eqn:E; simplify_eq/=.
    by eapply Hset, quiet_adds_timeouts, cancel_retxs_quiet.
  - destruct Hinv as [Hdl Hul].
    destruct (slot_indication_adds_timeouts (dl m) sl_tx Hdl) as (dl' & Hs1 & Hadd1).
    destruct (slot_indication_adds_timeouts (ul m) sl_tx Hul) as (ul' & Hs2 & Hadd2).
    unfold slot_indication in He. rewrite Hs1, Hs2 in He. simplify_eq/=.
    by apply Hboth.
  - unfold add_ue in He. repeat case_decide; simplify_eq.
    destruct (contains m ue) as [[]|]; simplify_eq/=.
    destruct (reserve_ue_harqs (dl m) _ _) as [dl'|] eqn:E1; simplify_eq/=.
    destruct (reserve_ue_harqs (ul m) _ _) as [ul'|] eqn:E2; simplify_eq/=.
    apply Hboth; by eapply quiet_adds_timeouts, reserve_ue_harqs_quiet.
  - unfold destroy_ue in He.
    destruct (destroy_ue_harqs (dl m) _) as [dl'|] eqn:E1; simplify_eq/=.
    destruct (destroy_ue_harqs (ul m) _) as [ul'|] eqn:E2; simplify_eq/=.
    apply Hboth; by eapply quiet_adds_timeouts, destroy_ue_harqs_quiet.
  - destruct (new_dl_tx _ _ _ _ _ _) as [[res m1]|] eqn:E; simplify_eq/=.
    unfold new_dl_tx in E.
    destruct (alloc_harq _ _ _ _ _) as [[res0 dl']|] eqn:Ha; simplify_eq/=.
    apply alloc_harq_quiet in Ha.
    destruct res0 as [i|]; simplify_eq/=;
      [|intros d; apply quiet_adds_timeouts, quiet_refl].
    destruct (harqs dl' !! i) as [h|] eqn:Hi; simplify_eq/=.
    intros []; simpl; apply quiet_adds_timeouts; [done|apply quiet_refl].
  - destruct (new_ul_tx _ _ _ _) as [[res m1]|] eqn:E; simplify_eq/=.
    unfold new_ul_tx in E.
    destruct (alloc_harq _ _ _ _ _) as [[res0 ul']|] eqn:Ha; simplify_eq/=.
    apply alloc_harq_quiet in Ha.
    destruct res0 as [i|]; simplify_eq/=;
      [|intros d; apply quiet_adds_timeouts, quiet_refl].
    destruct (harqs ul' !! i) as [h|] eqn:Hi; simplify_eq/=.
    intros []; simpl; apply quiet_adds_timeouts; [apply quiet_refl|done].
  - destruct (dl_ack_info _ _ _ _ _) as [[res m1]|] eqn:E; simplify_eq/=.
    unfold dl_ack_info in E.
    destruct (harqs (dl m) !! i) as [h|] eqn:Hi; simplify_eq/=.
    case_decide as Hst; simplify_eq;
      [intros d; apply quiet_adds_timeouts, quiet_refl|].
    case_decide.
    + destruct (handle_ack _ _ _) as [dl2|] eqn:Hh; simplify_eq/=.
      apply handle_ack_quiet in Hh.
      intros []; simpl; apply quiet_adds_timeouts; [done|apply quiet_refl].
    + destruct (last_sl_tx m); simplify_eq/=.
      intros []; simpl; apply quiet_adds_timeouts; [done|apply quiet_refl].
  - destruct (ul_crc_info _ _ _) as [[res m1]|] eqn:E; simplify_eq/=.
    unfold ul_crc_info in E.
    destruct (harqs (ul m) !! i) as [h|] eqn:Hi; simplify_eq/=.
    case_decide; simplify_eq;
      [intros d; apply quiet_adds_timeouts, quiet_refl|].
    destruct (handle_ack _ _ _) as [ul'|] eqn:Hh; simplify_eq/=.
    apply handle_ack_quiet in Hh.
    destruct (harqs ul' !! i); simplify_eq/=.
    intros []; simpl; apply quiet_adds_timeouts; [apply quiet_refl|done].
Qed.

Lemma run_adds_timeouts SHORT ops m m' :
  mgr_inv m → run SHORT ops m = Some m' →
  ∀ d, adds_timeouts (existsb indicates_slot ops) (repo_of d m) (repo_of d m').
Proof.
  revert m. induction ops as [|o ops IH]; intros m Hinv Hrun d.
  - unfold run in Hrun. simpl in Hrun. injection Hrun as <-.
    apply quiet_adds_timeouts, quiet_refl.
  - unfold run in Hrun. simpl in Hrun.
    destruct (exec SHORT m o) as [m1|] eqn:He; simplify_eq/=.
    eapply adds_timeouts_trans.
    + by apply (exec_adds_timeouts SHORT m o m1).
    + apply IH; [|done]. by eapply exec_preserves.
Qed.

(** X21. After every sequence of calls on a manager built by the constructor,
    the calls of the timeout notifier recorded by the downlink repository
    carry the downlink flag and those of the uplink repository the uplink
    flag; and the notifier has not been called at all when
    [max_ack_wait_timeout] is 1, or when the sequence holds no slot
    indication. *)
Theorem notifier_called_by_timeouts_only (SHORT MAX max_ues W : nat)
    (ops : list op) (m : cell_harq_manager) (d : bool) :
  run SHORT ops (cell_harq_manager_init MAX max_ues W) = Some m →
  (W = 1 ∨ existsb indicates_slot ops = false →
   timeout_notifier (repo_of d m) = []) ∧
  (∀ ue is_dl a, (ue, is_dl, a) ∈ timeout_notifier (repo_of d m) → is_dl = d) ∧
  max_ack_wait_in_slots (repo_of d m) = W.
Proof.
  intros Hrun.
  assert (mgr_inv (cell_harq_manager_init MAX max_ues W)) as Hinv
    by (split; apply cell_harq_repository_init_inv).
  destruct (run_adds_timeouts _ _ _ _ Hinv Hrun d)
    as (HW & Hd & l & Hlog & Hq & Hdir).
  assert (timeout_notifier (repo_of d (cell_harq_manager_init MAX max_ues W)) = [] ∧
          max_ack_wait_in_slots (repo_of d (cell_harq_manager_init MAX max_ues W))
          = W ∧
          IsDl (repo_of d (cell_harq_manager_init MAX max_ues W)) = d)
    as (Hlog0 & HW0 & Hd0) by (by destruct d).
  rewrite Hlog0 in Hlog. simpl in Hlog. rewrite HW0 in HW, Hq. rewrite Hd0 in Hdir.
  split_and!; [|by rewrite Hlog|done].
  intros [->|Hno]; rewrite Hlog; apply Hq; [by right|by left].
Qed.

Lemma notifier_called_by_timeouts_only_witness :
  let ops := [op_add_ue 0 17 2 2; op_slot_indication 100;
              op_new_dl_tx 0 100 4 4 0; op_slot_indication 105] in
  ∃ m, run 8 ops (cell_harq_manager_init 16 2 1) = Some m ∧
       status <$> harqs (dl m) !! 0 = Some empty ∧
       timeout_notifier (dl m) = [].
Proof.
  intros ops.
  destruct (run 8 ops (cell_harq_manager_init 16 2 1)) as [m|] eqn:Hrun;
    [|by vm_compute in Hrun].
  destruct (notifier_called_by_timeouts_only 8 16 2 1 ops m true Hrun)
    as (Hnone & _).
  exists m. split_and!; [reflexivity| |apply Hnone; by left].
  vm_compute in Hrun. injection Hrun as <-. vm_compute; reflexivity.
Defined.
